(** * ApplicationInsights-node.js: envelope assembly and correlation headers

    A shallow embedding of [Library/EnvelopeFactory.ts] and of
    [Library/Util.ts], with the properties of the envelope assembler, the
    property sanitizer, the stack parser and truncator, the tag resolver, the
    correlation-header merge, the cookie reader, the identifier generators
    and the request maker.

    Conventions of the embedding.
    - A JavaScript string is a [string] of code units below 256; [length] is
      the number of code units.
    - An object used as a dictionary is a [gmap string _] of its own
      enumerable properties. A property bag read by name ([lookupValue])
      yields the members it inherits from [Object.prototype] where it has no
      property of its own; elsewhere keys that collide with inherited
      members are outside the model.
    - A call that may raise returns a [completion]. *)

From Stdlib Require Import ZArith NArith Ascii String DecimalString DecimalN QArith Qround Qabs Qpower Lqa.
From stdpp Require Import gmap strings list fin_maps.

Local Open Scope Z_scope.

(* stdpp freezes [String.append] under [simpl]; the proofs below compute with it. *)
Arguments String.append : simpl nomatch.

(** ** Completions *)

Inductive exn : Type :=
| TypeError (msg : string)
| UserError (msg : string).

Inductive completion (A : Type) : Type :=
| Normal (a : A)
| Throw (e : exn).
Arguments Normal {A} a.
Arguments Throw {A} e.

#[global] Instance completion_ret : MRet completion := fun _ a => Normal a.
#[global] Instance completion_bind : MBind completion := fun _ _ f c =>
  match c with
  | Normal a => f a
  | Throw e => Throw e
  end.

#[global] Instance completion_fmap : FMap completion := fun _ _ f c =>
  match c with
  | Normal a => Normal (f a)
  | Throw e => Throw e
  end.

Definition returns {A : Type} (c : completion A) : Prop := ∃ a, c = Normal a.
Definition raises {A : Type} (c : completion A) : Prop := ∃ e, c = Throw e.

(** ** JavaScript strings *)

Module JsString.

Definition code (c : ascii) : N := N_of_ascii c.

Definition isChar (a : ascii) (c : ascii) : bool := Ascii.eqb a c.
Arguments isChar : simpl never.

(** [\s]: white space and line terminators, restricted to code units < 256. *)
Definition isSpace (c : ascii) : bool :=
  let n := code c in
  ((9 <=? n) && (n <=? 13) || (n =? 32) || (n =? 160))%N.

(** [.] without the [s] flag: anything but a line terminator. *)
Definition isDot (c : ascii) : bool :=
  let n := code c in negb ((n =? 10) || (n =? 13))%N.

Definition isDigit (c : ascii) : bool :=
  let n := code c in ((48 <=? n) && (n <=? 57))%N.

Definition isEmpty (s : string) : bool :=
  match s with EmptyString => true | String _ _ => false end.

(** [a || b] on strings: the empty string is the only falsy string. *)
Definition orElse (a b : string) : string := if isEmpty a then b else a.

(** [s.split(sep)] for a separator of one code unit. *)
Fixpoint split (sep : ascii) (s : string) : list string :=
  match s with
  | EmptyString => [EmptyString]
  | String c s' =>
      if Ascii.eqb c sep then EmptyString :: split sep s'
      else match split sep s' with
           | [] => [String c EmptyString]
           | x :: xs => String c x :: xs
           end
  end.

(** [l.join(sep)] on an array of strings. *)
Fixpoint join (sep : string) (l : list string) : string :=
  match l with
  | [] => EmptyString
  | [x] => x
  | x :: xs => x +:+ sep +:+ join sep xs
  end.

Fixpoint startsWith (s key : string) {struct key} : bool :=
  match key, s with
  | EmptyString, _ => true
  | String k key', String c s' => Ascii.eqb c k && startsWith s' key'
  | String _ _, EmptyString => false
  end.

(** [s.substring(0, n)] and [s.substr(0, n)] for [0 <= n]. *)
Fixpoint prefix (n : nat) (s : string) : string :=
  match n, s with
  | S n', String c s' => String c (prefix n' s')
  | _, _ => EmptyString
  end.

(** [s.substr(0, n)]: a negative length gives the empty string. *)
Definition substr0 (s : string) (n : Z) : string := prefix (Z.to_nat n) s.

(** [s.indexOf(c)] for a single character: -1 when it does not occur. *)
Fixpoint indexOfFrom (i : Z) (c : ascii) (s : string) : Z :=
  match s with
  | EmptyString => -1
  | String d s' => if Ascii.eqb d c then i else indexOfFrom (i + 1) c s'
  end.

Definition indexOf (s : string) (c : ascii) : Z := indexOfFrom 0 c s.

(** [s.replace(/c/g, new)] for a single literal character [c]. *)
Fixpoint replaceAll (c : ascii) (new : string) (s : string) : string :=
  match s with
  | EmptyString => EmptyString
  | String d s' =>
      if Ascii.eqb d c then new +:+ replaceAll c new s' else String d (replaceAll c new s')
  end.

(** [s.replace(/c/g, "")] for a single literal character [c]. *)
Fixpoint removeAll (a : ascii) (s : string) : string :=
  match s with
  | EmptyString => EmptyString
  | String c s' => if Ascii.eqb c a then removeAll a s' else String c (removeAll a s')
  end.

Fixpoint trimStart (s : string) : string :=
  match s with
  | String c s' => if isSpace c then trimStart s' else s
  | EmptyString => EmptyString
  end.

Fixpoint trimEnd (s : string) : string :=
  match s with
  | EmptyString => EmptyString
  | String c s' =>
      match trimEnd s' with
      | EmptyString => if isSpace c then EmptyString else String c EmptyString
      | t => String c t
      end
  end.

Fixpoint repeat (c : ascii) (n : nat) : string :=
  match n with
  | O => EmptyString
  | S n' => String c (repeat c n')
  end.

(** Decimal text of a natural number, as [Number.prototype.toString] prints
    integers below 2^53. *)
Definition decimal (n : N) : string := NilZero.string_of_uint (N.to_uint n).

(** [s.substring(start, end)]: both indices are clamped to the string, and
    swapped when the first is the larger. *)
Definition substring (s : string) (start stop : Z) : string :=
  let len := Z.of_nat (String.length s) in
  let a := Z.min (Z.max start 0) len in
  let b := Z.min (Z.max stop 0) len in
  let from := Z.min a b in
  let to := Z.max a b in
  String.substring (Z.to_nat from) (Z.to_nat (to - from)) s.

(** [s.substr(start, length)]: a negative start counts from the end, and the
    length is clamped to what is left of the string. *)
Definition substr (s : string) (start length : Z) : string :=
  let size := Z.of_nat (String.length s) in
  let from := if start <? 0 then Z.max (size + start) 0 else Z.min start size in
  let count := Z.min (Z.max length 0) (size - from) in
  String.substring (Z.to_nat from) (Z.to_nat count) s.

(** [String.fromCharCode(n)] for a code unit below 256. *)
Definition fromCharCode (n : Z) : string := String (ascii_of_N (Z.to_N n)) "".

(** The code units of a string, in order. *)
Fixpoint codeUnits (s : string) : list Z :=
  match s with
  | EmptyString => []
  | String c s' => Z.of_N (code c) :: codeUnits s'
  end.

End JsString.

(** ** Regular expressions

    The fragment of ECMAScript regular expressions the sources use, with the
    backtracking priorities of the language: alternatives left to right, greedy
    quantifiers longest first, lazy ones shortest first. Quantifiers range over
    character classes, which is all the sources need. *)

Module Regex.

Inductive regex : Type :=
| Eps
| Bol                                   (* ^ *)
| Eol                                   (* $ *)
| Cls (p : ascii → bool)                (* one character of a class *)
| Seq (r1 r2 : regex)
| Alt (r1 r2 : regex)
| Rep (greedy : bool) (lo : nat) (hi : option nat) (p : ascii → bool)
| Opt (r : regex)                       (* (...)? , greedy *)
| Grp (i : nat) (r : regex).            (* capture group number i *)

Definition span : Type := (nat * nat)%type.
Definition captures : Type := list (option span).

Section Matcher.
Context {R : Type}.

Definition canTake (hi : option nat) : bool :=
  match hi with Some O => false | _ => true end.

Definition decr (hi : option nat) : option nat :=
  match hi with Some n => Some (Nat.pred n) | None => None end.

Fixpoint rep (greedy : bool) (p : ascii → bool) (lo : nat) (hi : option nat)
    (pos : nat) (s : string) (k : nat → string → option R) {struct s} : option R :=
  match greedy with
  | true =>
      match
        match s with
        | String c s' =>
            if canTake hi && p c then rep greedy p (Nat.pred lo) (decr hi) (S pos) s' k
            else None
        | EmptyString => None
        end
      with
      | Some r => Some r
      | None => match lo with O => k pos s | S _ => None end
      end
  | false =>
      match match lo with O => k pos s | S _ => None end with
      | Some r => Some r
      | None =>
          match s with
          | String c s' =>
              if canTake hi && p c then rep greedy p (Nat.pred lo) (decr hi) (S pos) s' k
              else None
          | EmptyString => None
          end
      end
  end.

Fixpoint run (r : regex) (pos : nat) (s : string) (caps : captures)
    (k : nat → string → captures → option R) {struct r} : option R :=
  match r with
  | Eps => k pos s caps
  | Bol => match pos with O => k pos s caps | S _ => None end
  | Eol => match s with EmptyString => k pos s caps | String _ _ => None end
  | Cls p =>
      match s with
      | String c s' => if p c then k (S pos) s' caps else None
      | EmptyString => None
      end
  | Seq r1 r2 => run r1 pos s caps (fun pos' s' caps' => run r2 pos' s' caps' k)
  | Alt r1 r2 =>
      match run r1 pos s caps k with
      | Some x => Some x
      | None => run r2 pos s caps k
      end
  | Rep g lo hi p => rep g p lo hi pos s (fun pos' s' => k pos' s' caps)
  | Opt r1 =>
      match run r1 pos s caps k with
      | Some x => Some x
      | None => k pos s caps
      end
  | Grp i r1 =>
      run r1 pos s caps (fun pos' s' caps' => k pos' s' (<[i := Some (pos, pos')]> caps'))
  end.
End Matcher.

(** A match attempt at one start position; group 0 is the whole match. *)
Definition matchAt (ngroups : nat) (r : regex) (pos : nat) (s : string) : option captures :=
  run r pos s (replicate (S ngroups) None)
    (fun pos' _ caps => Some (<[O := Some (pos, pos')]> caps)).

(** The search of [RegExp.prototype.exec] without the [g] flag: the first start
    position, from the left, at which the expression matches. *)
Fixpoint search (ngroups : nat) (r : regex) (pos : nat) (s : string) : option captures :=
  match matchAt ngroups r pos s with
  | Some caps => Some caps
  | None =>
      match s with
      | EmptyString => None
      | String _ s' => search ngroups r (S pos) s'
      end
  end.

Definition exec (ngroups : nat) (r : regex) (input : string) : option captures :=
  search ngroups r O input.

Definition test (ngroups : nat) (r : regex) (input : string) : bool :=
  bool_decide (is_Some (exec ngroups r input)).

(** [matches[i]] of a successful match: [None] is [undefined]. *)
Definition group (input : string) (caps : captures) (i : nat) : option string :=
  match caps !! i with
  | Some (Some (a, b)) => Some (String.substring a (b - a) input)
  | _ => None
  end.

(** [input.replace(r, replacement)] without the [g] flag: the first match only. *)
Definition replace (ngroups : nat) (r : regex) (input replacement : string) : string :=
  match exec ngroups r input with
  | Some caps =>
      match caps !! O with
      | Some (Some (a, b)) =>
          String.substring 0 a input +:+ replacement
          +:+ String.substring b (String.length input - b) input
      | _ => input
      end
  | None => input
  end.

Fixpoint lit (s : string) : regex :=
  match s with
  | EmptyString => Eps
  | String c s' => Seq (Cls (JsString.isChar c)) (lit s')
  end.

Fixpoint seqs (l : list regex) : regex :=
  match l with
  | [] => Eps
  | r :: l' => Seq r (seqs l')
  end.

End Regex.

(** ** Numbers

    A number is NaN, an infinity, or a finite double given by its exact
    rational value. Division rounds to the nearest double (ties to even);
    remainder, floor and the decimal rounding of [toFixed] are exact, as in
    IEEE 754 and ECMAScript. *)

Module JsNumber.

Definition maxSafe : Z := 2 ^ 53.

Inductive number : Type :=
| NaN
| Infinity (negative : bool)
| Finite (q : Q).

(** The result of [Math.floor]: an integral number. *)
Inductive integral : Type :=
| INaN
| IInfinity (negative : bool)
| IInt (z : Z).

Definition ofZ (z : Z) : number := Finite (inject_Z z).

Definition pow2 (e : Z) : Q := Qpower 2 e.

(** [floorLog2 a] for [0 < a]: the [e] with [2^e <= a < 2^(e+1)]. *)
Definition floorLog2 (a : Q) : Z :=
  let e0 := Z.log2 (Qnum a) - Z.log2 (Zpos (Qden a)) in
  if Qle_bool (pow2 e0) a then e0 else e0 - 1.

(** Round a rational to the nearest double, ties to even; the unit in the
    last place is [2^(e-52)], and [2^-1074] for subnormals. *)
Definition round53 (q : Q) : Q :=
  match Qcompare q 0 with
  | Eq => 0%Q
  | c =>
      let a := Qabs q in
      let u := Z.max (floorLog2 a - 52) (-1074) in
      let scaled := (a / pow2 u)%Q in
      let m := Qfloor scaled in
      let r := (scaled - inject_Z m)%Q in
      let m' :=
        match Qcompare r (1 # 2) with
        | Lt => m
        | Gt => m + 1
        | Eq => if Z.even m then m else m + 1
        end in
      let v := (inject_Z m' * pow2 u)%Q in
      Qred (match c with Lt => Qopp v | _ => v end)
  end.

Definition isNaN (x : number) : bool :=
  match x with NaN => true | _ => false end.

(** [x < 0] *)
Definition ltZero (x : number) : bool :=
  match x with
  | NaN => false
  | Infinity negative => negative
  | Finite q => match Qcompare q 0 with Lt => true | _ => false end
  end.

(** [x / c] for a positive finite constant [c]. *)
Definition div (x : number) (c : Z) : number :=
  match x with
  | NaN => NaN
  | Infinity negative => Infinity negative
  | Finite q => Finite (round53 (q / inject_Z c))
  end.

(** [x % c] for a positive finite constant [c]: exact, with the sign of [x]. *)
Definition rem (x : number) (c : Z) : number :=
  match x with
  | Finite q =>
      let t := (q / inject_Z c)%Q in
      let n := match Qcompare q 0 with Lt => - Qfloor (Qopp t) | _ => Qfloor t end in
      Finite (Qred (q - inject_Z (n * c)))
  | _ => NaN
  end.

(** [Math.floor(x)] *)
Definition floor (x : number) : integral :=
  match x with
  | NaN => INaN
  | Infinity negative => IInfinity negative
  | Finite q => IInt (Qfloor q)
  end.

(** [n % c] on an integral number, for a positive constant [c]. *)
Definition irem (n : integral) (c : Z) : integral :=
  match n with
  | IInt z => IInt (Z.rem z c)
  | _ => INaN
  end.

(** [n > 0] *)
Definition gtZero (n : integral) : bool :=
  match n with
  | INaN => false
  | IInfinity negative => negb negative
  | IInt z => 0 <? z
  end.

Section Text.
(** Text of [Number.prototype.toString] for the double nearest to an integer
    of 2^53 or more (shortest round-trip digits, exponent form from 1e21):
    supplied by the runtime. *)
Variable largeNumberText : Z → string.

(** [n.toString()] for a non-negative integer. *)
Definition toText (n : Z) : string :=
  if n <? maxSafe then JsString.decimal (Z.to_N n) else largeNumberText n.

(** ["" + n] for an integral number. *)
Definition integralText (n : integral) : string :=
  match n with
  | INaN => "NaN"
  | IInfinity negative => if negative then "-Infinity" else "Infinity"
  | IInt z => if z <? 0 then "-" +:+ toText (- z) else toText z
  end.

(** [x.toFixed(f)], following Number.prototype.toFixed step by step. *)
Definition toFixed (x : number) (f : nat) : string :=
  match x with
  | NaN => "NaN"
  | Infinity negative => if negative then "-Infinity" else "Infinity"
  | Finite q =>
      let s := match Qcompare q 0 with Lt => "-" | _ => "" end in
      let a := Qabs q in
      if Qle_bool (inject_Z (10 ^ 21)) a then s +:+ largeNumberText (Qfloor a)
      else
        (* the integer n with n / 10^f closest to a, the larger one on a tie *)
        let n := Qfloor (a * inject_Z (10 ^ Z.of_nat f) + (1 # 2)) in
        let m := JsString.decimal (Z.to_N n) in
        let k := String.length m in
        let m := if (k <=? f)%nat then JsString.repeat "0" (f + 1 - k) +:+ m else m in
        let k := String.length m in
        s +:+ String.substring 0 (k - f) m +:+ "." +:+ String.substring (k - f) f m
  end.
End Text.

(** The double a real result rounds to: beyond the largest double it is an
    infinity. *)
Definition ofQ (q : Q) : number :=
  let v := round53 q in
  if Qle_bool (pow2 1024) (Qabs v)
  then Infinity (match Qcompare q 0 with Lt => true | _ => false end)
  else Finite v.

(** The value of the leading run of decimal digits of a string. *)
Fixpoint digitsValue (acc : Z) (s : string) : Z :=
  match s with
  | String c s' =>
      if JsString.isDigit c
      then digitsValue (10 * acc + (Z.of_N (JsString.code c) - 48)) s'
      else acc
  | EmptyString => acc
  end.

(** [parseInt(s)] on what the frame pattern captures, a run of decimal
    digits, and on the text "undefined": the double nearest to the value of
    the digits (an integer, or an infinity beyond the largest double), NaN
    when there is no digit. *)
Definition parseInt (s : string) : integral :=
  match s with
  | String c _ =>
      if JsString.isDigit c then floor (ofQ (inject_Z (digitsValue 0 s))) else INaN
  | EmptyString => INaN
  end.

(** [n || 0] *)
Definition orZero (n : integral) : integral :=
  match n with
  | INaN => IInt 0
  | IInt z => if z =? 0 then IInt 0 else n
  | IInfinity _ => n
  end.

Definition isNegative (q : Q) : bool :=
  match Qcompare q 0 with Lt => true | _ => false end.

(** [x * y] *)
Definition mul (x y : number) : number :=
  match x, y with
  | NaN, _ | _, NaN => NaN
  | Finite a, Finite b => ofQ (a * b)
  | Infinity s, Finite b | Finite b, Infinity s =>
      if Qeq_bool b 0 then NaN else Infinity (xorb s (isNegative b))
  | Infinity s, Infinity t => Infinity (xorb s t)
  end.

(** [x + y] *)
Definition add (x y : number) : number :=
  match x, y with
  | NaN, _ | _, NaN => NaN
  | Finite a, Finite b => ofQ (a + b)
  | Infinity s, Finite _ | Finite _, Infinity s => Infinity s
  | Infinity s, Infinity t => if Bool.eqb s t then Infinity s else NaN
  end.

(** The integer part of a rational, towards zero. *)
Definition integerPart (q : Q) : Z :=
  if Qle_bool 0 q then Qfloor q else Qceiling q.

(** An integer modulo 2^32, as a signed 32-bit integer. *)
Definition wrap32 (z : Z) : Z := (z + 2 ^ 31) mod 2 ^ 32 - 2 ^ 31.

(** ToInt32, the conversion behind [x | 0], [x >> n] and [x & n]: NaN and
    the infinities give 0. *)
Definition toInt32 (x : number) : Z :=
  match x with
  | Finite q => wrap32 (integerPart q)
  | _ => 0
  end.

End JsNumber.

(** ** Buffers

    [Buffer.from(x, "binary")] takes one byte from each code unit, and
    [toString("base64")] prints bytes in the alphabet of RFC 4648, three bytes
    to four characters, the last group padded with [=]. *)

Module Buffer.

Definition fromBinary (x : string) : list Z :=
  (fun u => Z.land u 255) <$> JsString.codeUnits x.

Definition alphabet : list ascii :=
  list_ascii_of_string "ABCDEFGHIJKLMNOPQRSTUVWXYZabcdefghijklmnopqrstuvwxyz0123456789+/".

(** The character of a group of six bits. *)
Definition digit (n : Z) : ascii := nth (Z.to_nat n) alphabet "A"%char.

Definition pad : ascii := "="%char.

Fixpoint toBase64 (bytes : list Z) : string :=
  match bytes with
  | [] => ""
  | [b0] =>
      String (digit (Z.shiftr b0 2))
        (String (digit (Z.shiftl (Z.land b0 3) 4)) (String pad (String pad "")))
  | [b0; b1] =>
      String (digit (Z.shiftr b0 2))
        (String (digit (Z.lor (Z.shiftl (Z.land b0 3) 4) (Z.shiftr b1 4)))
           (String (digit (Z.shiftl (Z.land b1 15) 2)) (String pad "")))
  | b0 :: b1 :: b2 :: rest =>
      String (digit (Z.shiftr b0 2))
        (String (digit (Z.lor (Z.shiftl (Z.land b0 3) 4) (Z.shiftr b1 4)))
           (String (digit (Z.lor (Z.shiftl (Z.land b1 15) 2) (Z.shiftr b2 6)))
              (String (digit (Z.land b2 63)) (toBase64 rest))))
  end.

End Buffer.

(** ** Values

    The values a property bag may hold. An object carries what the sanitizer
    observes of it: whether it is an array or an [Error], its enumerable
    properties (the ones [for..in] visits), the other properties that can be
    read by name, the outcome of calling its [toJSON] when it has one, and the
    outcome of reading [constructor.name]. *)

Module JsValue.
Import JsNumber.

Record objectInfo : Type := {
  isArrayObject : bool;                 (* Object.prototype.toString reads "[object Array]" *)
  instanceOfError : bool;               (* o instanceof Error *)
  constructorName : completion string   (* o.constructor.name.toString() *)
}.

#[warnings="-register-all"]
Inductive value : Type :=
| VUndefined
| VNull
| VBool (b : bool)
| VNumber (x : number)
| VString (s : string)
| VSymbol
| VFunction
| VObject (info : objectInfo) (fields hidden : gmap string value)
    (toJSON : option (completion value)).

Definition plainInfo : objectInfo :=
  {| isArrayObject := false; instanceOfError := false; constructorName := Normal "Object" |}.

(** An object literal [{ k1: v1, ... }]. *)
Definition plainObject (fields : gmap string value) : value :=
  VObject plainInfo fields ∅ None.

(** A dictionary of strings, as an object. *)
Definition stringBag (m : gmap string string) : gmap string value := VString <$> m.

(** [!!v] *)
Definition truthy (v : value) : bool :=
  match v with
  | VUndefined | VNull => false
  | VBool b => b
  | VNumber x =>
      match x with
      | NaN => false
      | Infinity _ => true
      | Finite q => negb (Qeq_bool q 0)
      end
  | VString s => negb (JsString.isEmpty s)
  | VSymbol | VFunction | VObject _ _ _ _ => true
  end.

(** [a || b] *)
Definition or (a b : value) : value := if truthy a then a else b.

(** [o[k]] on a value: [undefined] when there is no such property. *)
Definition get (o : value) (k : string) : value :=
  match o with
  | VObject _ fields hidden _ =>
      match fields !! k with
      | Some v => v
      | None => default VUndefined (hidden !! k)
      end
  | _ => VUndefined
  end.

(** What an object literal inherits from [Object.prototype]: its methods,
    and [__proto__], which reads as the prototype itself. *)
Definition prototypeMethods : list string :=
  [ "constructor"; "hasOwnProperty"; "isPrototypeOf"; "propertyIsEnumerable";
    "toLocaleString"; "toString"; "valueOf"; "__defineGetter__"; "__defineSetter__";
    "__lookupGetter__"; "__lookupSetter__" ].

Definition inheritedNames : list string := "__proto__" :: prototypeMethods.

(** [Object.prototype], of which only its being an object is read. *)
Definition Object_prototype : value := VObject plainInfo ∅ ∅ None.

Definition inherited (k : string) : value :=
  if bool_decide (k ∈ prototypeMethods) then VFunction
  else if String.eqb k "__proto__" then Object_prototype
  else VUndefined.

(** [bag[k]] on a dictionary that is an object literal: its own property,
    or else the member it inherits, or else [undefined]. *)
Definition lookupValue (bag : gmap string value) (k : string) : value :=
  match bag !! k with
  | Some v => v
  | None => inherited k
  end.

End JsValue.

(** ** Config and TelemetryClient, as far as the sources read them *)

Module Config.
Record t : Type := {
  instrumentationKey : string;
  samplingPercentage : JsNumber.number;
  correlationId : string;
  correlationHeaderExcludedDomains : option (list string)
}.
End Config.

Module TelemetryClient.
Record t : Type := { config : option Config.t }.
End TelemetryClient.

(** ** url.parse, as far as the sources read its result; [None] is [null] *)

Module Url.
Record t : Type := {
  protocol : option string;
  hostname : option string;
  port : option string;
  pathname : option string
}.
End Url.

(** ** Util.ts *)

Module Util.
Import JsNumber.

Definition MAX_PROPERTY_LENGTH : nat := Z.to_nat 8192.

(** [Util.trim]: anything but a string trims to the empty string. *)
Definition trim (str : option string) : string :=
  match str with
  | Some s => JsString.trimEnd (JsString.trimStart s)
  | None => EmptyString
  end.

(** [/0{0,4}$/] *)
Definition trailingZeros : Regex.regex :=
  Regex.Seq (Regex.Rep true 0 (Some 4%nat) (JsString.isChar "0")) Regex.Eol.

Definition pad2 (s : string) : string :=
  if (String.length s <? 2)%nat then "0" +:+ s else s.

Section TimeSpan.
Variable largeNumberText : Z → string.

(** The first statement of [msToTimeSpan]. *)
Definition clampMs (totalms : number) : number :=
  if isNaN totalms || ltZero totalms then ofZ 0 else totalms.

(** The local [sec], [min], [hour], [days] and [daysText] of [msToTimeSpan],
    as functions of the clamped [totalms]. *)
Definition secFixed (totalms : number) : string :=
  toFixed largeNumberText (rem (div totalms 1000) 60) 7.

Definition secText (totalms : number) : string :=
  let sec := Regex.replace 0 trailingZeros (secFixed totalms) "" in
  if JsString.indexOf sec "." <? 2 then "0" +:+ sec else sec.

Definition minText (totalms : number) : string :=
  pad2 (integralText largeNumberText (irem (floor (div totalms (1000 * 60))) 60)).

Definition hourText (totalms : number) : string :=
  pad2 (integralText largeNumberText (irem (floor (div totalms (1000 * 60 * 60))) 24)).

Definition days (totalms : number) : integral :=
  floor (div totalms (1000 * 60 * 60 * 24)).

Definition daysText (totalms : number) : string :=
  if gtZero (days totalms)
  then integralText largeNumberText (days totalms) +:+ "."
  else "".

Definition msToTimeSpan (totalms : number) : string :=
  let totalms := clampMs totalms in
  daysText totalms +:+ hourText totalms +:+ ":" +:+ minText totalms
  +:+ ":" +:+ secText totalms.
End TimeSpan.

(** *** Util.validateStringMap and its helpers *)

Section Sanitizer.
Import JsValue.

(** [Number.prototype.toString] on an arbitrary number, and [JSON.stringify]
    ([None] is [undefined]): supplied by the runtime. *)
Variable numberText : number → string.
Variable JSON_stringify : value → completion (option string).

Definition isArray (obj : value) : bool :=
  match obj with
  | VObject info _ _ _ => isArrayObject info
  | _ => false
  end.

Definition isError (obj : value) : bool :=
  match obj with
  | VObject info _ _ _ => instanceOfError info
  | _ => false
  end.

Definition isPrimitive (input : value) : bool :=
  match input with
  | VString _ | VNumber _ | VBool _ => true
  | _ => false
  end.

(** [v.toString()] on a primitive. *)
Definition primitiveText (v : value) : string :=
  match v with
  | VString s => s
  | VNumber x => numberText x
  | VBool b => if b then "true" else "false"
  | _ => ""
  end.

Definition extractError (err : value) : value :=
  let looseError := err in
  plainObject
    (<["message" := get err "message"]>
     (<["code" := or (or (get looseError "code") (get looseError "id")) (VString "")]> ∅)).

Definition extractObject (origProperty : value) : completion value :=
  if isError origProperty then Normal (extractError origProperty)
  else
    match origProperty with
    | VObject _ _ _ (Some outcome) => outcome      (* origProperty.toJSON() *)
    | _ => Normal origProperty
    end.

Definition exnMessage (e : exn) : string :=
  match e with TypeError msg | UserError msg => msg end.

Definition constructorNameOf (v : value) : completion string :=
  match v with
  | VObject info _ _ _ => constructorName info
  | VSymbol => Normal "Symbol"
  | _ => Throw (TypeError "Cannot read properties of undefined (reading 'name')")
  end.

(** The body of the [for..in] loop up to the assignment of [property]:
    [None] is the [continue] of a function-valued field; the value is what
    [property] holds when the loop reaches [property.substring]. *)
Definition propertyOf (origProperty : value) : completion (option value) :=
  if isPrimitive origProperty then Normal (Some (VString (primitiveText origProperty)))
  else
    match origProperty with
    | VNull | VUndefined => Normal (Some (VString ""))
    | VFunction => Normal None
    | _ =>
        stringTarget ←
          (if isArray origProperty then Normal origProperty
           else extractObject origProperty);
        (* try *)
        if isPrimitive stringTarget then Normal (Some stringTarget)
        else
          match JSON_stringify stringTarget with
          | Normal (Some text) => Normal (Some (VString text))
          | Normal None => Normal (Some VUndefined)
          | Throw e =>
              (* catch (e) *)
              name ← constructorNameOf origProperty;
              Normal (Some (VString (name +:+ " (Error: " +:+ exnMessage e +:+ ")")))
          end
    end.

(** [property.substring(0, Util.MAX_PROPERTY_LENGTH)]: only a string has
    the method. *)
Definition substringMax (property : value) : completion string :=
  match property with
  | VString s => Normal (JsString.prefix MAX_PROPERTY_LENGTH s)
  | _ => Throw (TypeError "property.substring is not a function")
  end.

Definition validateField (field : string) (origProperty : value)
    (acc : completion (gmap string string)) : completion (gmap string string) :=
  map ← acc;
  property ← propertyOf origProperty;
  match property with
  | None => Normal map
  | Some p => text ← substringMax p; Normal (<[field := text]> map)
  end.

(** [validateStringMap(obj)]: [None] is [undefined]. [typeof null] is
    "object", and [for..in] over [null] visits nothing. *)
Definition validateStringMap (obj : value) : completion (option (gmap string string)) :=
  match obj with
  | VNull => Normal (Some ∅)
  | VObject _ fields _ _ => Some <$> map_fold validateField (Normal ∅) fields
  | _ => Normal None
  end.
End Sanitizer.

(** *** Correlation headers *)

(** The characters with a meaning of their own in a pattern. *)
Definition isSyntaxChar (c : ascii) : bool :=
  existsb (Ascii.eqb c)
    ["^"; "$"; "\"; "."; "*"; "+"; "?"; "("; ")"; "["; "]"; "{"; "}"; "|"]%char.

(** [new RegExp(source)] on the sources built from literal characters, [.]
    and [.*]; [None] stands for any other source (more syntax, or a
    SyntaxError), which the model does not interpret. *)
Fixpoint RegExp (source : string) : option Regex.regex :=
  match source with
  | EmptyString => Some Regex.Eps
  | String c rest =>
      if Ascii.eqb c "." then
        match rest with
        | String "*" rest' => Regex.Seq (Regex.Rep true 0 None JsString.isDot) <$> RegExp rest'
        | _ => Regex.Seq (Regex.Cls JsString.isDot) <$> RegExp rest
        end
      else if isSyntaxChar c then None
      else Regex.Seq (Regex.Cls (JsString.isChar c)) <$> RegExp rest
  end.

(** [excludedDomains[i].replace(/\./g, ".").replace(/\*/g, ".*")] *)
Definition patternSource (pattern : string) : string :=
  JsString.replaceAll "*" ".*" (JsString.replaceAll "." "." pattern).

Section Correlation.
(** [url.parse(requestUrl).hostname]; [None] is [null]. *)
Variable urlHostname : string → option string.
(** [RequestResponseHeaders.requestContextHeader] and [requestContextSourceKey]. *)
Variable requestContextHeader requestContextSourceKey : string.

Definition isFalsyString (s : option string) : bool :=
  match s with
  | Some s => JsString.isEmpty s
  | None => true
  end.

(** The [for] loop of [canIncludeCorrelationHeader]. *)
Fixpoint excludedBy (excludedDomains : list string) (requestUrl : string) : option bool :=
  match excludedDomains with
  | [] => Some true
  | pattern :: rest =>
      regex ← RegExp (patternSource pattern);
      let hostname := urlHostname requestUrl in
      if isFalsyString hostname || Regex.test 0 regex (default "" hostname)
      then Some false
      else excludedBy rest requestUrl
  end.

(** [canIncludeCorrelationHeader(client, requestUrl)]; [None] when a pattern
    is outside the sources [RegExp] interprets. *)
Definition canIncludeCorrelationHeader (client : option TelemetryClient.t)
    (requestUrl : string) : option bool :=
  let excludedDomains :=
    match client with
    | Some c =>
        match TelemetryClient.config c with
        | Some cfg => Config.correlationHeaderExcludedDomains cfg
        | None => None
        end
    | None => None
    end in
  match excludedDomains with
  | None => Some true
  | Some l =>
      if (length l =? 0)%nat || JsString.isEmpty requestUrl then Some true
      else excludedBy l requestUrl
  end.

(** The headers of a request or response, by name. *)
Definition setHeader (name value : string) (request : gmap string string)
    : gmap string string := <[name := value]> request.

(** [client.config.correlationId] *)
Definition correlationIdOf (client : option TelemetryClient.t) : completion string :=
  match client with
  | None => Throw (TypeError "Cannot read properties of undefined (reading 'config')")
  | Some c =>
      match TelemetryClient.config c with
      | None => Throw (TypeError "Cannot read properties of undefined (reading 'correlationId')")
      | Some cfg => Normal (Config.correlationId cfg)
      end
  end.

Definition sourceKeyPrefix : string := requestContextSourceKey +:+ "=".

(** [components.some((value) => value.startsWith(key))] *)
Definition hasSourceKey (correlationHeader : string) : bool :=
  existsb (fun value => JsString.startsWith value sourceKeyPrefix)
    (JsString.split "," correlationHeader).

Definition addCorrelationIdHeaderFromString (client : option TelemetryClient.t)
    (response : gmap string string) (correlationHeader : string)
    : completion (gmap string string) :=
  let found := hasSourceKey correlationHeader in
  if negb found then
    correlationId ← correlationIdOf client;
    Normal
      (setHeader requestContextHeader
         (correlationHeader +:+ "," +:+ requestContextSourceKey +:+ "=" +:+ correlationId)
         response)
  else Normal response.

(** The value passed as [correlationHeader]: a string, an array of strings,
    another value with a [toString] method (with the outcome of calling it),
    or a value without one ([undefined], [null], a falsy value). *)
Inductive headerValue : Type :=
| HeaderString (s : string)
| HeaderArray (l : list string)
| HeaderStringifiable (outcome : completion string)
| HeaderAbsent.

Definition safeIncludeCorrelationHeader (client : option TelemetryClient.t)
    (request : gmap string string) (correlationHeader : headerValue)
    : completion (gmap string string) :=
  let header : option string :=
    match correlationHeader with
    | HeaderString s => Some s
    | HeaderArray l => Some (JsString.join "," l)
    | HeaderStringifiable (Normal s) => Some s
    | HeaderStringifiable (Throw _) => None       (* caught and logged *)
    | HeaderAbsent => None
    end in
  match header with
  | Some header => addCorrelationIdHeaderFromString client request header
  | None =>
      correlationId ← correlationIdOf client;
      Normal
        (setHeader requestContextHeader
           (requestContextSourceKey +:+ "=" +:+ correlationId) request)
  end.
End Correlation.

(** *** Cookies *)

(** The [for] loop of [getCookie] over [cookies], from index [i] on. *)
Fixpoint getCookieLoop (cookieName : string) (cookies : list string) : string :=
  match cookies with
  | [] => ""
  | cookies_i :: rest =>
      let cookie := trim (Some cookies_i) in
      if negb (JsString.isEmpty cookie) && JsString.startsWith cookie cookieName
      then JsString.substring cookie
             (Z.of_nat (String.length cookieName)) (Z.of_nat (String.length cookies_i))
      else getCookieLoop cookieName rest
  end.

(** [getCookie(name, cookie)]; [cookie] is [None] when it is not a string. *)
Definition getCookie (name : string) (cookie : option string) : string :=
  match cookie with
  | Some cookie =>
      if negb (JsString.isEmpty name) && (0 <? Z.of_nat (String.length name))
      then getCookieLoop (name +:+ "=") (JsString.split ";" cookie)
      else ""
  | None => ""
  end.

(** *** Identifiers *)

(** [toChar(v, i)] and [int32AsString(v)] of [int32ArrayToBase64]. *)
Definition toChar (v : number) (i : Z) : string :=
  JsString.fromCharCode (Z.land (Z.shiftr (toInt32 v) i) 255).

Definition int32AsString (v : number) : string :=
  toChar v 24 +:+ toChar v 16 +:+ toChar v 8 +:+ toChar v 0.

Definition int32ArrayToBase64 (array : list number) : string :=
  let x := JsString.join "" (int32AsString <$> array) in
  let b := Buffer.fromBinary x in
  let s := Buffer.toBase64 b in
  JsString.substr s 0 (JsString.indexOf s "=").

Section Random.
(** The successive results of [Math.random()], each a finite number; the
    state threaded through the generators is the number of draws made. *)
Variable Math_random : nat → Q.

Definition random32 (draws : nat) : Z * nat :=
  (toInt32 (mul (ofZ 4294967296) (Finite (Math_random draws))), S draws).

Definition randomu32 (draws : nat) : Z * nat :=
  let '(r, draws) := random32 draws in (r + 2147483648, draws).

Definition hexValues : list string :=
  ["0"; "1"; "2"; "3"; "4"; "5"; "6"; "7"; "8"; "9"; "a"; "b"; "c"; "d"; "e"; "f"].

(** [hexValues[i]] inside a concatenation: a missing element reads "undefined". *)
Definition hexAt (i : Z) : string :=
  if i <? 0 then "undefined" else default "undefined" (hexValues !! Z.to_nat i).

(** The eight characters one turn of the loop appends to [oct]. *)
Definition octet (tmp : Z) : string :=
  hexAt (Z.land tmp 15) +:+
  hexAt (Z.land (Z.shiftr tmp 4) 15) +:+
  hexAt (Z.land (Z.shiftr tmp 8) 15) +:+
  hexAt (Z.land (Z.shiftr tmp 12) 15) +:+
  hexAt (Z.land (Z.shiftr tmp 16) 15) +:+
  hexAt (Z.land (Z.shiftr tmp 20) 15) +:+
  hexAt (Z.land (Z.shiftr tmp 24) 15) +:+
  hexAt (Z.land (Z.shiftr tmp 28) 15).

(** [for (let a = 0; a < 4; a++)], with [n] turns left. *)
Fixpoint octLoop (n : nat) (oct : string) (draws : nat) : string * nat :=
  match n with
  | O => (oct, draws)
  | S n' =>
      let '(tmp, draws) := random32 draws in
      octLoop n' (oct +:+ octet tmp) draws
  end.

Definition w3cTraceId (draws : nat) : string * nat :=
  let '(oct, draws) := octLoop 4 "" draws in
  let clockSequenceHi :=
    hexAt (toInt32 (add (ofZ 8) (mul (Finite (Math_random draws)) (ofZ 4)))) in
  (JsString.substr oct 0 8 +:+
   JsString.substr oct 9 4 +:+
   "4" +:+
   JsString.substr oct 13 3 +:+
   clockSequenceHi +:+
   JsString.substr oct 16 3 +:+
   JsString.substr oct 19 12,
   S draws).
End Random.

Definition isValidW3CId (id : string) : bool :=
  (String.length id =? 32)%nat && negb (String.eqb id "00000000000000000000000000000000").

(** *** makeRequest *)

Section MakeRequest.
Variable url_parse : string → Url.t.
(** The agents of [http] and [https], and [Util.tlsRestrictedAgent]. *)
Variable Agent : Type.
Variable tlsRestrictedAgent : Agent.

(** What [makeRequest] reads of [config]; [None] is [undefined]. *)
Record NetworkConfig : Type := {
  proxyHttpUrl : option string;
  proxyHttpsUrl : option string;
  httpAgent : option Agent;
  httpsAgent : option Agent
}.

(** The options of a request: the four that [makeRequest] writes, the agent,
    and the others, which the spreads copy. A header may be set to
    [undefined]. *)
Record RequestOptions : Type := {
  host : option string;
  port : option string;
  path : option string;
  headers : option (gmap string (option string));
  agent : option Agent;
  otherOptions : gmap string JsValue.value
}.

(** The call [makeRequest] ends with: [http.request(options, requestCallback)]
    or [https.request(options, requestCallback)]. *)
Inductive Request : Type :=
| http_request (options : RequestOptions)
| https_request (options : RequestOptions).

(** [s || undefined] *)
Definition orUndefined (s : option string) : option string :=
  match s with
  | Some s => if JsString.isEmpty s then None else Some s
  | None => None
  end.

Definition isProtocol (u : Url.t) (p : string) : bool :=
  match Url.protocol u with
  | Some q => String.eqb q p
  | None => false
  end.

Definition setAgent (options : RequestOptions) (a : option Agent) : RequestOptions :=
  {| host := host options; port := port options; path := path options;
     headers := headers options; agent := a; otherOptions := otherOptions options |}.

Definition makeRequest (config : NetworkConfig) (requestUrl : string)
    (requestOptions : RequestOptions) : Request :=
  let requestUrl :=
    if negb (JsString.isEmpty requestUrl) && JsString.startsWith requestUrl "//"
    then "https:" +:+ requestUrl else requestUrl in
  let requestUrlParsed := url_parse requestUrl in
  let options :=
    {| host := Url.hostname requestUrlParsed;
       port := Url.port requestUrlParsed;
       path := Url.pathname requestUrlParsed;
       headers := headers requestOptions;
       agent := agent requestOptions;
       otherOptions := otherOptions requestOptions |} in
  let proxyUrl : option string := None in
  let proxyUrl :=
    if isProtocol requestUrlParsed "https:" then orUndefined (proxyHttpsUrl config)
    else proxyUrl in
  let proxyUrl :=
    if isProtocol requestUrlParsed "http:" then orUndefined (proxyHttpUrl config)
    else proxyUrl in
  let '(proxyUrl, options) :=
    match proxyUrl with
    | Some proxy =>
        let proxy := if JsString.startsWith proxy "//" then "http:" +:+ proxy else proxy in
        let proxyUrlParsed := url_parse proxy in
        if isProtocol proxyUrlParsed "https:" then (None, options)
        else
          (Some proxy,
           {| host := Url.hostname proxyUrlParsed;
              port := Some (JsString.orElse (default "" (Url.port proxyUrlParsed)) "80");
              path := Some requestUrl;
              headers :=
                Some (<["Host" := Url.hostname requestUrlParsed]>
                        (default ∅ (headers options)));
              agent := agent options;
              otherOptions := otherOptions options |})
    | None => (None, options)
    end in
  let isHttps :=
    isProtocol requestUrlParsed "https:"
    && match proxyUrl with Some _ => false | None => true end in
  let options :=
    if isHttps && bool_decide (is_Some (httpsAgent config))
    then setAgent options (httpsAgent config)
    else if negb isHttps && bool_decide (is_Some (httpAgent config))
    then setAgent options (httpAgent config)
    else if isHttps then setAgent options (Some tlsRestrictedAgent)
    else options in
  if isHttps then https_request options else http_request options.
End MakeRequest.

End Util.

(** ** Stack frames and the parsed stack (EnvelopeFactory.ts) *)

Module StackFrame.
Import Regex.

Definition chr (n : nat) : ascii := ascii_of_nat n.
Definition LF : ascii := chr 10.

(** [[^\(\@\n]] *)
Definition isLocationChar (c : ascii) : bool :=
  negb (JsString.isChar "(" c || JsString.isChar "@" c || JsString.isChar LF c).

(** [/^([\s]+at)?(.*?)(\@|\s\(|\s)([^\(\@\n]+):([0-9]+):([0-9]+)(\)?)$/] *)
Definition regex : Regex.regex :=
  seqs
    [ Bol;
      Opt (Grp 1 (Seq (Rep true 1 None JsString.isSpace) (lit "at")));
      Grp 2 (Rep false 0 None JsString.isDot);
      Grp 3 (Alt (lit "@") (Alt (Seq (Cls JsString.isSpace) (lit "(")) (Cls JsString.isSpace)));
      Grp 4 (Rep true 1 None isLocationChar);
      lit ":";
      Grp 5 (Rep true 1 None JsString.isDigit);
      lit ":";
      Grp 6 (Rep true 1 None JsString.isDigit);
      Grp 7 (Opt (lit ")"));
      Eol ].

Definition ngroups : nat := 7.
Definition baseSize : Z := 58.

(** [regex.test(x)] converts its argument to a string: [undefined] reads
    as the text "undefined". *)
Definition argText (frame : option string) : string := default "undefined" frame.

Definition regex_test (frame : option string) : bool :=
  Regex.test ngroups regex (argText frame).

Record t : Type := mk {
  level : Z;
  method : string;
  assembly : string;
  fileName : string;
  line : JsNumber.integral;
  sizeInBytes : Z
}.

Definition len (s : string) : Z := Z.of_nat (String.length s).

Section Constructor.
Variable largeNumberText : Z → string.

(** [new _StackFrame(frame, level)]. The fields [fileName] and [line] are
    set only when the line matches; their lengths are read afterwards in any
    case, which raises on a line that does not match. *)
Definition new (frame : option string) (level : Z) : completion t :=
  let method0 := "<no_method>" in
  let assembly := Util.trim frame in
  match frame with
  | None => Throw (TypeError "Cannot read properties of undefined (reading 'match')")
  | Some f =>
      match Regex.exec ngroups regex f with
      | Some caps =>
          (* matches.length is 8 >= 5 *)
          let method := JsString.orElse (Util.trim (group f caps 2)) method0 in
          let fileName := JsString.orElse (Util.trim (group f caps 4)) "<no_filename>" in
          let line :=
            JsNumber.orZero
              (match group f caps 5 with
               | Some digits => JsNumber.parseInt digits
               | None => JsNumber.INaN
               end) in
          Normal
            {| level := level; method := method; assembly := assembly;
               fileName := fileName; line := line;
               sizeInBytes :=
                 0 + len method + len fileName + len assembly + baseSize
                 + len (JsNumber.toText largeNumberText level)
                 + len (JsNumber.integralText largeNumberText line) |}
      | None => Throw (TypeError "Cannot read properties of undefined (reading 'length')")
      end
  end.
End Constructor.

End StackFrame.

(** ** The objects a tag map lives in

    Tag maps are objects shared by reference: the context's default tags, a
    telemetry item's overrides and the tags of each envelope. The store maps
    a reference to the dictionary it holds. *)

Module Store.

Definition loc : Type := positive.
Abbreviation store := (gmap loc (gmap string string)).

Definition objectAt (σ : store) (l : loc) : gmap string string := default ∅ (σ !! l).

(** [o[k]] *)
Definition read (σ : store) (l : loc) (k : string) : option string := objectAt σ l !! k.

(** [o[k] = v] *)
Definition write (l : loc) (k v : string) (σ : store) : store :=
  <[l := <[k := v]> (objectAt σ l)]> σ.

(** [{}]: a new empty object. *)
Definition alloc (σ : store) : loc * store :=
  let l := fresh (dom σ) in (l, <[l := ∅]> σ).

End Store.

(** ** Declarations/Contracts and the collaborators of the factory *)

Module Contracts.
Import JsNumber JsValue.

Record DataTypesT : Type := {
  MESSAGE : string;
  REMOTE_DEPENDENCY : string;
  EVENT : string;
  EXCEPTION : string;
  REQUEST : string;
  METRIC : string
}.

(** Modelled from the spec: [Contracts.DataTypes], the discriminator of each
    telemetry variant, is declared outside the sources at hand; the spec names
    the Message, RemoteDependency, Event, Exception, Request and Metric
    families and gives "MessageData" as the base type that shortens to
    "Message". *)
Definition DataTypes : DataTypesT :=
  {| MESSAGE := "MessageData";
     REMOTE_DEPENDENCY := "RemoteDependencyData";
     EVENT := "EventData";
     EXCEPTION := "ExceptionData";
     REQUEST := "RequestData";
     METRIC := "MetricData" |}.

Record ExceptionDetails : Type := {
  ed_message : value;
  ed_typeName : value;
  ed_parsedStack : option (list StackFrame.t);
  ed_hasFullStack : bool
}.

Record DataPoint : Type := {
  dp_count : number;
  dp_kind : number;
  dp_max : number;
  dp_min : number;
  dp_name : value;
  dp_stdDev : number;
  dp_value : number
}.

Abbreviation bag := (gmap string value).

(** The six bodies; [properties] is the last field of each. *)
Inductive Domain : Type :=
| MessageData (message : value) (severityLevel : number) (properties : option bag)
| RemoteDependencyData (name data target : value) (duration : string)
    (success type id : value) (properties : option bag)
| EventData (name measurements : value) (properties : option bag)
| ExceptionData (severityLevel : number) (measurements : value)
    (exceptions : list ExceptionDetails) (properties : option bag)
| RequestData (id name url source : value) (duration : string)
    (responseCode success : value) (properties : option bag)
| MetricData (metrics : list DataPoint) (properties : option bag).

Definition properties (d : Domain) : option bag :=
  match d with
  | MessageData _ _ p | RemoteDependencyData _ _ _ _ _ _ _ p | EventData _ _ p
  | ExceptionData _ _ _ p | RequestData _ _ _ _ _ _ _ p | MetricData _ p => p
  end.

Definition setProperties (d : Domain) (p : option bag) : Domain :=
  match d with
  | MessageData a b _ => MessageData a b p
  | RemoteDependencyData a b c e f g h _ => RemoteDependencyData a b c e f g h p
  | EventData a b _ => EventData a b p
  | ExceptionData a b c _ => ExceptionData a b c p
  | RequestData a b c e f g h _ => RequestData a b c e f g h p
  | MetricData a _ => MetricData a p
  end.

Record Data : Type := {
  baseType : string;
  baseData : Domain
}.

Record Envelope : Type := {
  ver : Z;
  name : string;
  time : string;
  sampleRate : number;
  iKey : string;
  tags : Store.loc;
  data : Data
}.

(** The constants and the predicate of [Contracts] the factory reads. *)
Record Declarations : Type := {
  dataTypes : DataTypesT;
  SeverityLevel_Information : number;
  SeverityLevel_Error : number;
  DataPointType_Aggregation : number;
  domainSupportsProperties : Domain → bool
}.

End Contracts.

(** [Context], [Config], the telemetry items and the correlation context, as
    far as the factory reads them. *)

Module Context.
Record ContextTagKeys : Type := {
  operationId : string;
  operationName : string;
  operationParentId : string
}.

Record t : Type := {
  tags : option Store.loc;
  keys : ContextTagKeys
}.
End Context.

Module CorrelationContext.
Record Operation : Type := {
  id : string;
  name : string;
  parentId : string
}.

Record t : Type := { operation : Operation }.
End CorrelationContext.

Module Telemetry.
Import JsNumber JsValue.

(** The [Error] of an exception item: [stack] is [None] when it is not a
    string. *)
Record ErrorObject : Type := {
  err_stack : option string;
  err_message : value;
  err_name : value
}.

(** One record for the six telemetry interfaces: the casts of
    [createEnvelope] are unchecked, so every converter reads its fields off
    whatever item it is handed. An optional number that is absent is [None];
    [exception] is [None] when the item carries no error object. *)
Record t : Type := {
  tagOverrides : option Store.loc;
  properties : option (gmap string value);
  message : value;
  severity : option number;
  name : value;
  data : value;
  target : value;
  duration : number;
  success : value;
  dependencyTypeName : value;
  dependencyId : value;
  measurements : value;
  exception : option ErrorObject;
  id : value;
  url : value;
  source : value;
  resultCode : value;
  count : option number;
  max : option number;
  min : option number;
  stdDev : option number;
  value : number
}.
End Telemetry.

Module EnvelopeFactory.
Import JsNumber JsValue Store.

Definition exceptionParsedStackThreshold : Z := 32 * 1024.

Definition totalSize (ps : list StackFrame.t) : Z :=
  foldr (fun f acc => StackFrame.sizeInBytes f + acc) 0 ps.

(** [a.splice(start, deleteCount)]: the array after the removal. *)
Definition splice {A : Type} (ps : list A) (start deleteCount : Z) : list A :=
  let n := Z.of_nat (length ps) in
  let from := if start <? 0 then Z.max (n + start) 0 else Z.min start n in
  let count := Z.min (Z.max deleteCount 0) (n - from) in
  take (Z.to_nat from) ps ++ drop (Z.to_nat (from + count)) ps.

(** [parsedStack[i].sizeInBytes] *)
Definition sizeAt (ps : list StackFrame.t) (i : Z) : completion Z :=
  match (if i <? 0 then None else ps !! Z.to_nat i) with
  | Some f => Normal (StackFrame.sizeInBytes f)
  | None => Throw (TypeError "Cannot read properties of undefined (reading 'sizeInBytes')")
  end.

(** The [while (left < right)] loop of [parseStack]; each turn narrows
    [right - left] by two, so [length ps] turns are more than enough. *)
Fixpoint truncateLoop (fuel : nat) (ps : list StackFrame.t)
    (left right size acceptedLeft acceptedRight : Z) : completion (list StackFrame.t) :=
  match fuel with
  | O => Normal ps
  | S fuel' =>
      if left <? right then
        lSize ← sizeAt ps left;
        rSize ← sizeAt ps right;
        let size := size + (lSize + rSize) in
        if size >? exceptionParsedStackThreshold then
          let howMany := acceptedRight - acceptedLeft + 1 in
          Normal (splice ps acceptedLeft howMany)
        else
          truncateLoop fuel' ps (left + 1) (right - 1) size left right
      else Normal ps
  end.

Definition truncate (ps : list StackFrame.t) : completion (list StackFrame.t) :=
  let left := 0 in
  let right := Z.of_nat (length ps) - 1 in
  truncateLoop (length ps) ps left right 0 left right.

Section ParseStack.
Variable largeNumberText : Z → string.

(** The [for (i = 0; i <= frames.length; i++)] loop over [frames[i]]; the
    last index reads [undefined]. *)
Fixpoint parseFrames (frames : list (option string)) (level totalSizeInBytes : Z)
    (parsedStack : list StackFrame.t) : completion (list StackFrame.t * Z) :=
  match frames with
  | [] => Normal (parsedStack, totalSizeInBytes)
  | frame :: rest =>
      if StackFrame.regex_test frame then
        parsedFrame ← StackFrame.new largeNumberText frame level;
        parseFrames rest (level + 1)
          (totalSizeInBytes + StackFrame.sizeInBytes parsedFrame)
          (parsedStack ++ [parsedFrame])
      else parseFrames rest level totalSizeInBytes parsedStack
  end.

(** [parseStack(stack)]: [None] is [undefined], the result for a stack that
    is not a string. *)
Definition parseStack (stack : option string) : completion (option (list StackFrame.t)) :=
  match stack with
  | None => Normal None
  | Some s =>
      let frames := JsString.split StackFrame.LF s in
      '(parsedStack, totalSizeInBytes) ← parseFrames (map Some frames ++ [None]) 0 0 [];
      if totalSizeInBytes >? exceptionParsedStackThreshold then
        ps ← truncate parsedStack; Normal (Some ps)
      else Normal (Some parsedStack)
  end.
End ParseStack.

(** *** getTags *)

Section GetTags.
(** [CorrelationContextManager.getCurrentContext()]: the ambient
    correlation context, [None] when no operation is active. *)
Variable getCurrentContext : option CorrelationContext.t.

(** [for (var key in src) { newTags[key] = src[key]; }] *)
Definition copyTags (src newTags : loc) (σ : store) : store :=
  map_fold
    (fun key _ σ =>
       match read σ src key with
       | Some v => write newTags key v σ
       | None => σ                          (* unreachable: [key] is a key of [src] *)
       end)
    σ (objectAt σ src).

(** [newTags[k] = newTags[k] || v] *)
Definition fillTag (newTags : loc) (k v : string) (σ : store) : store :=
  write newTags k (JsString.orElse (default "" (read σ newTags k)) v) σ.

Definition getTags (context : option Context.t) (tagOverrides : option loc)
    (σ : store) : completion (loc * store) :=
  let correlationContext := getCurrentContext in
  let '(newTags, σ) := alloc σ in
  let σ :=
    match context with
    | Some c =>
        match Context.tags c with
        | Some tags => copyTags tags newTags σ
        | None => σ
        end
    | None => σ
    end in
  let σ :=
    match tagOverrides with
    | Some overrides => copyTags overrides newTags σ
    | None => σ
    end in
  match correlationContext with
  | Some cc =>
      match context with
      | Some c =>
          let op := CorrelationContext.operation cc in
          let keys := Context.keys c in
          let σ := fillTag newTags (Context.operationId keys) (CorrelationContext.id op) σ in
          let σ := fillTag newTags (Context.operationName keys) (CorrelationContext.name op) σ in
          let σ := fillTag newTags (Context.operationParentId keys)
                     (CorrelationContext.parentId op) σ in
          Normal (newTags, σ)
      | None => Throw (TypeError "Cannot read properties of undefined (reading 'keys')")
      end
  | None => Normal (newTags, σ)
  end.
End GetTags.

(** *** The converters and createEnvelope *)

Section CreateEnvelope.
Import Contracts.

Variable decl : Declarations.
Variable largeNumberText : Z → string.
Variable numberText : number → string.
Variable JSON_stringify : value → completion (option string).
Variable getCurrentContext : option CorrelationContext.t.
(** [(new Date()).toISOString()] at the time of the call. *)
Variable now : string.

Let DT := dataTypes decl.

(** [isNaN(x)] on an optional number: [undefined] converts to NaN. *)
Definition isNaNOpt (x : option number) : bool :=
  match x with
  | Some n => isNaN n
  | None => true
  end.

Definition createTraceData (telemetry : Telemetry.t) : completion Data :=
  let severityLevel :=
    if negb (isNaNOpt (Telemetry.severity telemetry))
    then default NaN (Telemetry.severity telemetry)
    else SeverityLevel_Information decl in
  Normal
    {| baseType := MESSAGE DT;
       baseData := MessageData (Telemetry.message telemetry) severityLevel
                     (Telemetry.properties telemetry) |}.

Definition createDependencyData (telemetry : Telemetry.t) : completion Data :=
  Normal
    {| baseType := REMOTE_DEPENDENCY DT;
       baseData :=
         RemoteDependencyData (Telemetry.name telemetry) (Telemetry.data telemetry)
           (Telemetry.target telemetry)
           (Util.msToTimeSpan largeNumberText (Telemetry.duration telemetry))
           (Telemetry.success telemetry) (Telemetry.dependencyTypeName telemetry)
           (Telemetry.dependencyId telemetry) (Telemetry.properties telemetry) |}.

Definition createEventData (telemetry : Telemetry.t) : completion Data :=
  Normal
    {| baseType := EVENT DT;
       baseData := EventData (Telemetry.name telemetry) (Telemetry.measurements telemetry)
                     (Telemetry.properties telemetry) |}.

Definition createExceptionData (telemetry : Telemetry.t) : completion Data :=
  match Telemetry.exception telemetry with
  | None => Throw (TypeError "Cannot read properties of undefined (reading 'stack')")
  | Some exception =>
      let stack := Telemetry.err_stack exception in
      parsedStack ← parseStack largeNumberText stack;
      let exceptionDetails :=
        {| ed_message := Telemetry.err_message exception;
           ed_typeName := Telemetry.err_name exception;
           ed_parsedStack := parsedStack;
           ed_hasFullStack :=
             match parsedStack with
             | Some l => (0 <? length l)%nat
             | None => false
             end |} in
      Normal
        {| baseType := EXCEPTION DT;
           baseData := ExceptionData (SeverityLevel_Error decl)
                         (Telemetry.measurements telemetry) [exceptionDetails]
                         (Telemetry.properties telemetry) |}
  end.

Definition createRequestData (telemetry : Telemetry.t) : completion Data :=
  Normal
    {| baseType := REQUEST DT;
       baseData :=
         RequestData (Telemetry.id telemetry) (Telemetry.name telemetry)
           (Telemetry.url telemetry) (Telemetry.source telemetry)
           (Util.msToTimeSpan largeNumberText (Telemetry.duration telemetry))
           (Telemetry.resultCode telemetry) (Telemetry.success telemetry)
           (Telemetry.properties telemetry) |}.

Definition createMetricData (telemetry : Telemetry.t) : completion Data :=
  let orValue (x : option number) (d : number) : number :=
    if negb (isNaNOpt x) then default NaN x else d in
  let metric :=
    {| dp_count := orValue (Telemetry.count telemetry) (ofZ 1);
       dp_kind := DataPointType_Aggregation decl;
       dp_max := orValue (Telemetry.max telemetry) (Telemetry.value telemetry);
       dp_min := orValue (Telemetry.min telemetry) (Telemetry.value telemetry);
       dp_name := Telemetry.name telemetry;
       dp_stdDev := orValue (Telemetry.stdDev telemetry) (ofZ 0);
       dp_value := Telemetry.value telemetry |} in
  Normal
    {| baseType := METRIC DT;
       baseData := MetricData [metric] (Telemetry.properties telemetry) |}.

(** The [switch (telemetryType)]: the first case equal to the type runs; no
    case leaves [data] at [null]. *)
Definition convert (telemetry : Telemetry.t) (telemetryType : string)
    : completion (option Data) :=
  if String.eqb telemetryType (MESSAGE DT) then Some <$> createTraceData telemetry
  else if String.eqb telemetryType (REMOTE_DEPENDENCY DT) then Some <$> createDependencyData telemetry
  else if String.eqb telemetryType (EVENT DT) then Some <$> createEventData telemetry
  else if String.eqb telemetryType (EXCEPTION DT) then Some <$> createExceptionData telemetry
  else if String.eqb telemetryType (REQUEST DT) then Some <$> createRequestData telemetry
  else if String.eqb telemetryType (METRIC DT) then Some <$> createMetricData telemetry
  else Normal None.

(** The merge of the common properties into the properties of the body:
    [properties] is [None] when the body has none ([undefined] or [null]). *)
Definition mergeCommonProperties (properties : option bag)
    (commonProperties : gmap string string) : bag :=
  match properties with
  | None => stringBag commonProperties
  | Some properties =>
      map_fold
        (fun name common properties =>
           if negb (truthy (lookupValue properties name))
           then <[name := VString common]> properties
           else properties)
        properties commonProperties
  end.

Definition bagValue (properties : option bag) : value :=
  match properties with
  | Some b => plainObject b
  | None => VUndefined
  end.

(** The block under [if (commonProperties && domainSupportsProperties(...))]:
    the merge, then the sanitizer. *)
Definition applyCommonProperties (data : Data) (commonProperties : gmap string string)
    : completion Data :=
  let merged := mergeCommonProperties (properties (baseData data)) commonProperties in
  sanitized ← Util.validateStringMap numberText JSON_stringify (bagValue (Some merged));
  Normal
    {| baseType := baseType data;
       baseData := setProperties (baseData data) (stringBag <$> sanitized) |}.

Definition envelopeName (iKey baseType : string) : string :=
  "Microsoft.ApplicationInsights." +:+ JsString.removeAll "-" iKey +:+ "."
  +:+ JsString.substr0 baseType (Z.of_nat (String.length baseType) - 4).

(** The statements of [createEnvelope] from [var iKey] on: the reads of
    [data.baseType] raise when [data] is [null]. *)
Definition assembleEnvelope (telemetry : Telemetry.t) (data : option Data)
    (context : option Context.t) (config : option Config.t) (σ : store)
    : completion (Envelope * store) :=
  let iKey :=
    match config with
    | Some c => JsString.orElse (Config.instrumentationKey c) ""
    | None => ""
    end in
  match data with
  | None => Throw (TypeError "Cannot read properties of null (reading 'baseType')")
  | Some d =>
      let name := envelopeName iKey (baseType d) in
      '(tags, σ) ← getTags getCurrentContext context (Telemetry.tagOverrides telemetry) σ;
      Normal
        ({| ver := 1;
            name := name;
            time := now;
            sampleRate :=
              match config with
              | Some c => Config.samplingPercentage c
              | None => ofZ 100
              end;
            iKey := iKey;
            tags := tags;
            data := d |}, σ)
  end.

Definition createEnvelope (telemetry : Telemetry.t) (telemetryType : string)
    (commonProperties : option (gmap string string)) (context : option Context.t)
    (config : option Config.t) (σ : store) : completion (Envelope * store) :=
  data ← convert telemetry telemetryType;
  data ←
    match commonProperties with
    | Some common =>
        match data with
        | None => Throw (TypeError "Cannot read properties of null (reading 'baseData')")
        | Some d =>
            if domainSupportsProperties decl (baseData d)
            then Some <$> applyCommonProperties d common
            else Normal data
        end
    | None => Normal data
    end;
  assembleEnvelope telemetry data context config σ.
End CreateEnvelope.

End EnvelopeFactory.

(** * The vocabulary of the properties *)

Module Vocabulary.
Import JsString JsNumber JsValue Regex Util Store Contracts EnvelopeFactory.

(** ** msToTimeSpan *)

(** [zerosUpTo n s]: [s] is a run of at most [n] zeros. *)
Fixpoint zerosUpTo (n : nat) (s : string) {struct s} : bool :=
  match s with
  | EmptyString => true
  | String c s' =>
      match n with
      | O => false
      | S n' => isChar "0" c && zerosUpTo n' s'
      end
  end.

(** Where [/0{0,4}$/] first matches: the leftmost suffix that is a run of at
    most four zeros. *)
Fixpoint cut (s : string) : nat :=
  if zerosUpTo 4 s then O
  else match s with
       | EmptyString => O
       | String _ s' => S (cut s')
       end.

Fixpoint endsWithZero (s : string) : bool :=
  match s with
  | EmptyString => false
  | String c EmptyString => isChar "0" c
  | String _ s' => endsWithZero s'
  end.

(** ** createEnvelope *)

(** The six discriminators, in the order of the [switch]. *)
Definition recognized (decl : Declarations) : list string :=
  let DT := dataTypes decl in
  [MESSAGE DT; REMOTE_DEPENDENCY DT; EVENT DT; EXCEPTION DT; REQUEST DT; METRIC DT].

(** What [createEnvelope] reads as the instrumentation key. *)
Definition instrumentationKeyOf (config : option Config.t) : string :=
  match config with
  | Some c => JsString.orElse (Config.instrumentationKey c) ""
  | None => ""
  end.

(** A string without its last four characters. *)
Definition withoutLast4 (s : string) : string :=
  JsString.prefix (String.length s - 4) s.

(** What the merge leaves under a key: a body value that is truthy stays; a
    body value that is falsy is replaced when the common properties have the
    key; a key the body lacks takes the common value, unless it is the name
    of a member of [Object.prototype], which stays out. *)
Definition mergedValue (properties : gmap string value)
    (commonProperties : gmap string string) (k : string) : option value :=
  match properties !! k with
  | Some v =>
      if truthy v then Some v
      else match commonProperties !! k with
           | Some c => Some (VString c)
           | None => Some v
           end
  | None =>
      if bool_decide (k ∈ inheritedNames) then None
      else VString <$> commonProperties !! k
  end.

(** ** validateStringMap *)

(** The properties [for..in] visits on a value. *)
Definition enumerable (obj : value) : gmap string value :=
  match obj with
  | VObject _ fields _ _ => fields
  | _ => ∅
  end.

(** Every entry of the map under construction is the truncated text of the
    field of the same name. *)
Definition truncatedFrom (numberText : number → string)
    (JSON_stringify : value → completion (option string))
    (fields : gmap string value) (map : gmap string string) : Prop :=
  ∀ field s, map !! field = Some s ↔
    ∃ origProperty text,
      fields !! field = Some origProperty ∧
      propertyOf numberText JSON_stringify origProperty = Normal (Some (VString text)) ∧
      s = JsString.prefix MAX_PROPERTY_LENGTH text.

(** ** getTags *)





(** ** The correlation header *)

(** [contains c s]: the character occurs in the string. *)
Fixpoint contains (c : ascii) (s : string) : bool :=
  match s with
  | EmptyString => false
  | String d s' => Ascii.eqb d c || contains c s'
  end.



(** ** Excluded domains *)

(** [allDot s]: no character of [s] is a line terminator. *)
Fixpoint allDot (s : string) : bool :=
  match s with
  | EmptyString => true
  | String c s' => isDot c && allDot s'
  end.

(** The reading of an exclusion pattern: [*] stands for any run of
    characters, [.] for any one character (it is not escaped), and any other
    character for itself; a character stood for is never a line terminator. *)
Inductive globMatches : string → string → Prop :=
| glob_end : globMatches "" ""
| glob_star pattern s t :
    allDot s = true → globMatches pattern t →
    globMatches (String "*" pattern) (s +:+ t)
| glob_dot pattern c t :
    isDot c = true → globMatches pattern t →
    globMatches (String "." pattern) (String c t)
| glob_char pattern c t :
    isSyntaxChar c = false → globMatches pattern t →
    globMatches (String c pattern) (String c t).

(** The pattern is found somewhere in the host name: patterns are not anchored. *)
Definition globContains (pattern hostname : string) : Prop :=
  ∃ before middle after,
    hostname = before +:+ middle +:+ after ∧ globMatches pattern middle.

(** The patterns made of [*], [.] and characters without a meaning of their
    own in a regular expression. *)
Fixpoint plainPattern (pattern : string) : bool :=
  match pattern with
  | EmptyString => true
  | String c p =>
      (Ascii.eqb c "*" || Ascii.eqb c "." || negb (isSyntaxChar c)) && plainPattern p
  end.

(** The expression a plain pattern compiles to. *)
Fixpoint globRegex (pattern : string) : regex :=
  match pattern with
  | EmptyString => Eps
  | String c p =>
      if Ascii.eqb c "*" then Seq (Rep true 0 None isDot) (globRegex p)
      else if Ascii.eqb c "." then Seq (Cls isDot) (globRegex p)
      else Seq (Cls (isChar c)) (globRegex p)
  end.

(** ** The parsed stack *)

(** The first [k] and the last [k] frames. *)
Definition outer (ps : list StackFrame.t) (k : nat) : list StackFrame.t :=
  take k ps ++ drop (length ps - k) ps.

(** The number of frames and the sum of the sizes of what [parseStack] returned. *)
Definition measure (result : completion (option (list StackFrame.t))) : option (nat * Z) :=
  match result with
  | Normal (Some frames) => Some (length frames, totalSize frames)
  | _ => None
  end.

End Vocabulary.

(** * The vocabulary of the further properties *)

(** ** White space at the ends of a string, and Cookie headers *)

Module CookieVocabulary.
Import JsString.

Definition startsWithSpace (s : string) : bool :=
  match s with
  | String c _ => isSpace c
  | EmptyString => false
  end.

Fixpoint endsWithSpace (s : string) : bool :=
  match s with
  | EmptyString => false
  | String c EmptyString => isSpace c
  | String _ s' => endsWithSpace s'
  end.

Fixpoint allSpace (s : string) : bool :=
  match s with
  | EmptyString => true
  | String c s' => isSpace c && allSpace s'
  end.

(** A cookie as it stands in a [Cookie] header, and the header of a list of
    cookies. *)
Definition cookiePair (p : string * string) : string := p.1 +:+ "=" +:+ p.2.

Definition cookieHeader (l : list (string * string)) : string :=
  join "; " (cookiePair <$> l).

(** A cookie name: no [;], no [=], no white space in front. A cookie value:
    no [;], no white space at the end. *)
Definition cookieName (n : string) : Prop :=
  Vocabulary.contains ";" n = false ∧ Vocabulary.contains "=" n = false
  ∧ startsWithSpace n = false.

Definition cookieValue (v : string) : Prop :=
  Vocabulary.contains ";" v = false ∧ endsWithSpace v = false.

(** A list of cookies, each with a cookie name and a cookie value. *)
Abbreviation wellFormed := (Forall (fun p : string * string => cookieName p.1 ∧ cookieValue p.2)).
End CookieVocabulary.

(** ** Base64 without padding *)

Module Base64Vocabulary.
Import JsString JsNumber Util.

(** The four bytes of a number read as a 32-bit integer, the most significant first. *)
Definition bytes4 (v : number) : list Z :=
  let w := toInt32 v in
  [Z.land (Z.shiftr w 24) 255; Z.land (Z.shiftr w 16) 255;
   Z.land (Z.shiftr w 8) 255; Z.land (Z.shiftr w 0) 255].

Definition bytesOf (array : list number) : list Z := array ≫= bytes4.

(** Reading base64 text without padding back: the six bits of a character,
    and the bytes of a run of six-bit groups. *)
Fixpoint position (c : ascii) (l : list ascii) (i : Z) : option Z :=
  match l with
  | [] => None
  | d :: l' => if Ascii.eqb d c then Some i else position c l' (i + 1)
  end.

Definition sextet (c : ascii) : option Z := position c Buffer.alphabet 0.

Fixpoint sextets (s : string) : option (list Z) :=
  match s with
  | EmptyString => Some []
  | String c s' => x ← sextet c; l ← sextets s'; Some (x :: l)
  end.

Fixpoint decode (l : list Z) : option (list Z) :=
  match l with
  | [] => Some []
  | [_] => None
  | [s0; s1] => Some [Z.lor (Z.shiftl s0 2) (Z.shiftr s1 4)]
  | [s0; s1; s2] =>
      Some [Z.lor (Z.shiftl s0 2) (Z.shiftr s1 4);
            Z.lor (Z.shiftl (Z.land s1 15) 4) (Z.shiftr s2 2)]
  | s0 :: s1 :: s2 :: s3 :: rest =>
      bytes ← decode rest;
      Some (Z.lor (Z.shiftl s0 2) (Z.shiftr s1 4)
            :: Z.lor (Z.shiftl (Z.land s1 15) 4) (Z.shiftr s2 2)
            :: Z.lor (Z.shiftl (Z.land s2 3) 6) s3 :: bytes)
  end.

Definition fromBase64 (s : string) : option (list Z) := sextets s ≫= decode.

(** The six-bit groups of a list of bytes, the last group filled with zeros. *)
Fixpoint groups (bytes : list Z) : list Z :=
  match bytes with
  | [] => []
  | [b0] => [Z.shiftr b0 2; Z.shiftl (Z.land b0 3) 4]
  | [b0; b1] =>
      [Z.shiftr b0 2; Z.lor (Z.shiftl (Z.land b0 3) 4) (Z.shiftr b1 4);
       Z.shiftl (Z.land b1 15) 2]
  | b0 :: b1 :: b2 :: rest =>
      Z.shiftr b0 2 :: Z.lor (Z.shiftl (Z.land b0 3) 4) (Z.shiftr b1 4)
      :: Z.lor (Z.shiftl (Z.land b1 15) 2) (Z.shiftr b2 6) :: Z.land b2 63
      :: groups rest
  end.

Fixpoint text (l : list ascii) : string :=
  match l with
  | [] => EmptyString
  | c :: l' => String c (text l')
  end.

Definition padding (bytes : list Z) : string :=
  match (length bytes mod 3)%nat with
  | 1%nat => "=="
  | 2%nat => "="
  | _ => ""
  end.

Definition isByte (b : Z) : Prop := 0 ≤ b < 256.

Definition isSextet (x : Z) : Prop := 0 ≤ x < 64.

(** The bit arithmetic of one group of three bytes, checked on all bytes. *)
Definition s1 (b0 b1 : Z) : Z := Z.lor (Z.shiftl (Z.land b0 3) 4) (Z.shiftr b1 4).
Definition s2 (b1 b2 : Z) : Z := Z.lor (Z.shiftl (Z.land b1 15) 2) (Z.shiftr b2 6).

Definition firstChecks (b0 b1 : Z) : bool :=
  (0 <=? Z.shiftr b0 2) && (Z.shiftr b0 2 <? 64) &&
  (0 <=? s1 b0 b1) && (s1 b0 b1 <? 64) &&
  (Z.lor (Z.shiftl (Z.shiftr b0 2) 2) (Z.shiftr (s1 b0 b1) 4) =? b0) &&
  (0 <=? Z.shiftl (Z.land b0 3) 4) && (Z.shiftl (Z.land b0 3) 4 <? 64) &&
  (Z.lor (Z.shiftl (Z.shiftr b0 2) 2) (Z.shiftr (Z.shiftl (Z.land b0 3) 4) 4) =? b0) &&
  (Z.land (s1 b0 b1) 15 =? Z.shiftr b1 4).

Definition secondChecks (b1 b2 : Z) : bool :=
  (0 <=? s2 b1 b2) && (s2 b1 b2 <? 64) &&
  (0 <=? Z.land b2 63) && (Z.land b2 63 <? 64) &&
  (Z.lor (Z.shiftl (Z.shiftr b1 4) 4) (Z.shiftr (s2 b1 b2) 2) =? b1) &&
  (Z.lor (Z.shiftl (Z.land (s2 b1 b2) 3) 6) (Z.land b2 63) =? b2) &&
  (0 <=? Z.shiftl (Z.land b1 15) 2) && (Z.shiftl (Z.land b1 15) 2 <? 64) &&
  (Z.lor (Z.shiftl (Z.shiftr b1 4) 4) (Z.shiftr (Z.shiftl (Z.land b1 15) 2) 2) =? b1).
End Base64Vocabulary.

(** ** Doubles *)

Module NumberVocabulary.
Import JsNumber.
(** The exponent of the unit in the last place of the doubles around [a]. *)
Definition ulpExp (a : Q) : Z := Z.max (floorLog2 a - 52) (-1074).
End NumberVocabulary.

(** ** Hexadecimal text *)

Module TraceVocabulary.
Import JsString.
(** The lowercase hexadecimal digits. *)
Definition isHexChar (c : ascii) : bool :=
  existsb (Ascii.eqb c)
    ["0"; "1"; "2"; "3"; "4"; "5"; "6"; "7"; "8"; "9"; "a"; "b"; "c"; "d"; "e"; "f"]%char.

Fixpoint allHex (s : string) : bool :=
  match s with
  | EmptyString => true
  | String c s' => isHexChar c && allHex s'
  end.
End TraceVocabulary.

(** ** Fields the sanitizer accepts *)

Module SanitizerVocabulary.
Import JsNumber JsValue Util.
(** The fields the sanitizer can turn into an entry or skip: a function, or
    a value whose text is a string. *)
Definition serializable (numberText : number → string)
    (JSON_stringify : value → completion (option string)) (v : value) : Prop :=
  propertyOf numberText JSON_stringify v = Normal None
  ∨ ∃ text, propertyOf numberText JSON_stringify v = Normal (Some (VString text)).
End SanitizerVocabulary.

(** ** The text of a correlation header *)

Module HeaderVocabulary.
Import JsString Util.
(** The text [safeIncludeCorrelationHeader] makes of the header it is
    given: [None] when it finds none. *)
Definition headerText (correlationHeader : headerValue) : option string :=
  match correlationHeader with
  | HeaderString s => Some s
  | HeaderArray l => Some (join "," l)
  | HeaderStringifiable (Normal s) => Some s
  | HeaderStringifiable (Throw _) => None
  | HeaderAbsent => None
  end.
End HeaderVocabulary.

(** ** Proxies *)

Module RequestVocabulary.
Import JsString Util.

(** The URL [makeRequest] parses: a protocol-relative one is read as https. *)
Definition effectiveUrl (requestUrl : string) : string :=
  if startsWith requestUrl "//" then "https:" +:+ requestUrl else requestUrl.

Section Proxy.
Context {Agent : Type}.

(** The proxy the configuration names for a target: the one for https on an
    [https:] target, the one for http on an [http:] target, none otherwise; a
    protocol-relative proxy is read as http. *)
Definition configuredProxy (config : NetworkConfig Agent) (target : Url.t) : option string :=
  (fun proxy => if startsWith proxy "//" then "http:" +:+ proxy else proxy) <$>
  (if isProtocol target "http:" then orUndefined (proxyHttpUrl Agent config)
   else if isProtocol target "https:" then orUndefined (proxyHttpsUrl Agent config)
   else None).

(** The proxy a request goes through: the configured one, unless it is
    itself reached over https. *)
Definition proxyInEffect (url_parse : string → Url.t) (config : NetworkConfig Agent)
    (target : Url.t) : option string :=
  match configuredProxy config target with
  | Some proxy => if isProtocol (url_parse proxy) "https:" then None else Some proxy
  | None => None
  end.

Definition withoutProxies (config : NetworkConfig Agent) : NetworkConfig Agent :=
  {| proxyHttpUrl := None; proxyHttpsUrl := None;
     httpAgent := httpAgent Agent config; httpsAgent := httpsAgent Agent config |}.
End Proxy.
End RequestVocabulary.

(** ** The lines of a stack *)

Module StackVocabulary.
Import JsString.
(** The lines of a stack that pass the frame pattern, in order. *)
Definition frameLines (stack : string) : list string :=
  List.filter (fun line => StackFrame.regex_test (Some line)) (split StackFrame.LF stack).

(** A line number that is zero or more, +Infinity included. *)
Definition nonNegative (n : JsNumber.integral) : Prop :=
  match n with
  | JsNumber.IInt z => 0 ≤ z
  | JsNumber.IInfinity negative => negative = false
  | JsNumber.INaN => False
  end.
End StackVocabulary.

(** ** Time spans of whole milliseconds *)

Module TimeVocabulary.
Import JsString JsNumber Util.

(** What [toFixed(f)] prints for the integer [n] of its digits. *)
Definition printFixed (n : Z) (f : nat) : string :=
  let m := JsString.decimal (Z.to_N n) in
  let k := String.length m in
  let m := if (k <=? f)%nat then JsString.repeat "0" (f + 1 - k) +:+ m else m in
  let k := String.length m in
  String.substring 0 (k - f) m +:+ "." +:+ String.substring (k - f) f m.

(** The seconds field for a whole number of milliseconds within the minute. *)
Definition secOfCount (count : Z) : string :=
  let sec := Regex.replace 0 trailingZeros (printFixed (count * 10 ^ 4) 7) "" in
  if JsString.indexOf sec "." <? 2 then "0" +:+ sec else sec.

(** Decimal digits, and numbers printed with two and three of them. *)
Definition digitChar (d : Z) : ascii := ascii_of_N (Z.to_N (48 + d)).

Definition twoDigits (n : Z) : string :=
  String (digitChar (n / 10)) (String (digitChar (n mod 10)) "").

Definition threeDigits (n : Z) : string :=
  String (digitChar (n / 100)) (twoDigits (n mod 100)).

(** The time span of a whole number of milliseconds: [d.]hh:mm:ss.fff. *)
Definition timeSpanText (ms : Z) : string :=
  (if 0 <? ms / 86400000 then decimal (Z.to_N (ms / 86400000)) +:+ "." else "")
  +:+ twoDigits (ms / 3600000 mod 24) +:+ ":"
  +:+ twoDigits (ms / 60000 mod 60) +:+ ":"
  +:+ twoDigits (ms / 1000 mod 60) +:+ "." +:+ threeDigits (ms mod 1000).

(** [P] holds of [count] consecutive integers from [z] on. *)
Fixpoint allFrom (P : Z → bool) (count : nat) (z : Z) : bool :=
  match count with
  | O => true
  | S count' => P z && allFrom P count' (z + 1)
  end.
End TimeVocabulary.

(** ** The frame pattern and V8 stack lines *)

Module FrameVocabulary.
Import JsString.

(** Every character of the string is in the class. *)
Fixpoint allChars (p : ascii → bool) (s : string) : bool :=
  match s with
  | EmptyString => true
  | String c s' => p c && allChars p s'
  end.

(** How often a character occurs. *)
Fixpoint count (c : ascii) (s : string) : nat :=
  match s with
  | EmptyString => O
  | String d s' => (if Ascii.eqb d c then 1 else 0) + count c s'
  end.

(** The parts of the stack-frame expression from a group to the end. *)
Definition digits : Regex.regex := Regex.Rep true 1 None isDigit.
Definition tail7 : Regex.regex := Regex.seqs [Regex.Grp 7 (Regex.Opt (Regex.lit ")")); Regex.Eol].
Definition tail6 : Regex.regex := Regex.Seq (Regex.Grp 6 digits) tail7.
Definition tail5 : Regex.regex :=
  Regex.Seq (Regex.lit ":") (Regex.Seq (Regex.Grp 5 digits) (Regex.Seq (Regex.lit ":") tail6)).
Definition tail4 : Regex.regex :=
  Regex.Seq (Regex.Grp 4 (Regex.Rep true 1 None StackFrame.isLocationChar)) tail5.
Definition tail3 : Regex.regex :=
  Regex.Seq
    (Regex.Grp 3 (Regex.Alt (Regex.lit "@")
       (Regex.Alt (Regex.Seq (Regex.Cls isSpace) (Regex.lit "(")) (Regex.Cls isSpace))))
    tail4.
Definition tail2 : Regex.regex :=
  Regex.Seq (Regex.Grp 2 (Regex.Rep false 0 None isDot)) tail3.
Definition tail1 : Regex.regex :=
  Regex.Seq
    (Regex.Opt (Regex.Grp 1 (Regex.Seq (Regex.Rep true 1 None isSpace) (Regex.lit "at"))))
    tail2.

(** The capture groups after a location has matched from position [pos],
    and the position the match ends at. *)
Definition locationCaptures (pos : nat) (file ln col close : string)
    (caps : Regex.captures) : Regex.captures :=
  let p5 := S (pos + String.length file) in
  let p6 := S (p5 + String.length ln) in
  let p7 := (p6 + String.length col)%nat in
  <[7%nat := Some (p7, (p7 + String.length close)%nat)]>
    (<[6%nat := Some (p6, p7)]>
       (<[5%nat := Some (p5, (p5 + String.length ln)%nat)]>
          (<[4%nat := Some (pos, (pos + String.length file)%nat)]> caps))).

Definition locationEnd (pos : nat) (file ln col close : string) : nat :=
  (S (S (pos + String.length file) + String.length ln) + String.length col
   + String.length close)%nat.

(** A frame of a V8 stack trace: [at method (file:line:column)], or
    [at file:line:column] for code outside any function; the line and the
    column are numbers, printed in decimal. *)
Inductive v8Frame : Type :=
| NamedFrame (method file : string) (ln col : N)
| AnonymousFrame (file : string) (ln col : N).

Definition locationText (file ln col close : string) : string :=
  file +:+ ":" +:+ ln +:+ ":" +:+ col +:+ close.

Definition v8Body (f : v8Frame) : string :=
  match f with
  | NamedFrame method file ln col =>
      "at " +:+ method +:+ " (" +:+ locationText file (decimal ln) (decimal col) ")"
  | AnonymousFrame file ln col => "at " +:+ locationText file (decimal ln) (decimal col) ""
  end.

(** The line of a frame in the trace, after its indentation. *)
Definition v8Line (indent : string) (f : v8Frame) : string := indent +:+ v8Body f.

Definition methodOf (f : v8Frame) : string :=
  match f with
  | NamedFrame method _ _ _ => method
  | AnonymousFrame _ _ _ => "<no_method>"
  end.

Definition fileOf (f : v8Frame) : string :=
  match f with
  | NamedFrame _ file _ _ => file
  | AnonymousFrame file _ _ => file
  end.

Definition lineNumberOf (f : v8Frame) : N :=
  match f with
  | NamedFrame _ _ ln _ => ln
  | AnonymousFrame _ ln _ => ln
  end.

(** Neither starts nor ends with white space. *)
Definition trimmed (s : string) : Prop :=
  CookieVocabulary.startsWithSpace s = false ∧ CookieVocabulary.endsWithSpace s = false.

(** A plain file name: not empty, without "(", "@" and line feed, and
    without white space at its ends. Names under a scoped package
    ([node_modules/@scope/...]) and the locations of [eval] frames are not
    plain. *)
Definition isPlainFileName (s : string) : Prop :=
  s ≠ "" ∧ allChars StackFrame.isLocationChar s = true ∧ trimmed s.

(** A method name: not empty, without line terminators, and without white
    space at its ends. *)
Definition isMethodName (s : string) : Prop :=
  s ≠ "" ∧ allChars isDot s = true ∧ trimmed s.

(** A frame with a plain file name and a line number below 2^53. *)
Definition isPlainFrame (f : v8Frame) : Prop :=
  match f with
  | NamedFrame method file ln col =>
      isMethodName method ∧ isPlainFileName file ∧ (ln < 2 ^ 53)%N
  | AnonymousFrame file ln col => isPlainFileName file ∧ (ln < 2 ^ 53)%N
  end.

(** The indentation of a line of the trace. *)
Definition isIndent (s : string) : Prop :=
  s ≠ "" ∧ CookieVocabulary.allSpace s = true ∧ Vocabulary.contains StackFrame.LF s = false.

(** The frame the constructor is to make of a V8 frame at a level: its size
    is 58 and the lengths of the method, the file name, the assembly, and the
    texts of the level and of the line number. *)
Definition frameAt (largeNumberText : Z → string) (level : Z) (f : v8Frame) : StackFrame.t :=
  {| StackFrame.level := level;
     StackFrame.method := methodOf f;
     StackFrame.assembly := v8Body f;
     StackFrame.fileName := fileOf f;
     StackFrame.line := JsNumber.IInt (Z.of_N (lineNumberOf f));
     StackFrame.sizeInBytes :=
       StackFrame.len (methodOf f) + StackFrame.len (fileOf f)
       + StackFrame.len (v8Body f) + 58
       + StackFrame.len (JsNumber.toText largeNumberText level)
       + StackFrame.len (decimal (lineNumberOf f)) |}.

(** The value of a numeral, most significant digit first. *)
Fixpoint uintValue (acc : Z) (d : Decimal.uint) : Z :=
  match d with
  | Decimal.Nil => acc
  | Decimal.D0 d => uintValue (10 * acc + 0) d
  | Decimal.D1 d => uintValue (10 * acc + 1) d
  | Decimal.D2 d => uintValue (10 * acc + 2) d
  | Decimal.D3 d => uintValue (10 * acc + 3) d
  | Decimal.D4 d => uintValue (10 * acc + 4) d
  | Decimal.D5 d => uintValue (10 * acc + 5) d
  | Decimal.D6 d => uintValue (10 * acc + 6) d
  | Decimal.D7 d => uintValue (10 * acc + 7) d
  | Decimal.D8 d => uintValue (10 * acc + 8) d
  | Decimal.D9 d => uintValue (10 * acc + 9) d
  end.

(** A stack trace: a header and the lines of its frames. *)
Definition v8Trace (header : string) (frames : list (string * v8Frame)) : string :=
  join (String StackFrame.LF "") (header :: ((fun p => v8Line p.1 p.2) <$> frames)).
End FrameVocabulary.

(** * Example inputs *)

Module Examples.
Import JsNumber JsValue Store Contracts EnvelopeFactory.

(** A set of declarations on the discriminators of the spec. *)
Definition declarations : Declarations :=
  {| dataTypes := DataTypes;
     SeverityLevel_Information := ofZ 1;
     SeverityLevel_Error := ofZ 3;
     DataPointType_Aggregation := ofZ 1;
     domainSupportsProperties := fun _ => true |}.

(** A telemetry item with nothing set. *)
Definition emptyTelemetry : Telemetry.t :=
  {| Telemetry.tagOverrides := None; Telemetry.properties := None;
     Telemetry.message := VUndefined; Telemetry.severity := None;
     Telemetry.name := VUndefined; Telemetry.data := VUndefined;
     Telemetry.target := VUndefined; Telemetry.duration := NaN;
     Telemetry.success := VUndefined; Telemetry.dependencyTypeName := VUndefined;
     Telemetry.dependencyId := VUndefined; Telemetry.measurements := VUndefined;
     Telemetry.exception := None; Telemetry.id := VUndefined;
     Telemetry.url := VUndefined; Telemetry.source := VUndefined;
     Telemetry.resultCode := VUndefined; Telemetry.count := None;
     Telemetry.max := None; Telemetry.min := None; Telemetry.stdDev := None;
     Telemetry.value := NaN |}.

(** A telemetry item with the properties a = "1" and b = "" and nothing
    else set. *)
Definition propertiesTelemetry : Telemetry.t :=
  {| Telemetry.tagOverrides := None;
     Telemetry.properties := Some {[ "a" := VString "1"; "b" := VString "" ]};
     Telemetry.message := VUndefined; Telemetry.severity := None;
     Telemetry.name := VUndefined; Telemetry.data := VUndefined;
     Telemetry.target := VUndefined; Telemetry.duration := NaN;
     Telemetry.success := VUndefined; Telemetry.dependencyTypeName := VUndefined;
     Telemetry.dependencyId := VUndefined; Telemetry.measurements := VUndefined;
     Telemetry.exception := None; Telemetry.id := VUndefined;
     Telemetry.url := VUndefined; Telemetry.source := VUndefined;
     Telemetry.resultCode := VUndefined; Telemetry.count := None;
     Telemetry.max := None; Telemetry.min := None; Telemetry.stdDev := None;
     Telemetry.value := NaN |}.

Definition keys : Context.ContextTagKeys :=
  {| Context.operationId := "ai.operation.id";
     Context.operationName := "ai.operation.name";
     Context.operationParentId := "ai.operation.parentId" |}.

Definition config : Config.t :=
  {| Config.instrumentationKey := "1aa11111-bbbb-1ccc-8ddd-eeeeffff3333";
     Config.samplingPercentage := ofZ 100;
     Config.correlationId := "cid-v1:abc";
     Config.correlationHeaderExcludedDomains := Some ["*.excluded.com"] |}.


Definition context : Context.t :=
  {| Context.tags := Some 1%positive; Context.keys := keys |}.

Definition correlationContext : CorrelationContext.t :=
  {| CorrelationContext.operation :=
       {| CorrelationContext.id := "op1"; CorrelationContext.name := "GET /";
          CorrelationContext.parentId := "root" |} |}.

(** A text of 9000 characters, and a bag with it and a function. *)
Definition longText : string := JsString.repeat "x" (Z.to_nat 9000).

Definition longBag : value :=
  plainObject {[ "long" := VString longText; "f" := VFunction ]}.

(** Three stack lines, each with a method name of 5500 characters. *)
Definition longLine : string :=
  "    at " +:+ JsString.repeat "m" (Z.to_nat 5500) +:+ " (f.js:1:1)".

Definition threeLongLines : string :=
  JsString.join (String StackFrame.LF "") [longLine; longLine; longLine].

Definition fourLongLines : string :=
  JsString.join (String StackFrame.LF "") [longLine; longLine; longLine; longLine].

(** The stack of an error raised in [foo], as V8 prints it. *)
Definition sampleStack : string :=
  JsString.join (String StackFrame.LF "")
    [ "Error: boom";
      "    at foo (/app/lib/a.js:10:5)";
      "    at /app/lib/b.js:7:1";
      "    at Object.<anonymous> (c.js:123:45)" ].

(** The envelope of an empty trace item under [config], with the common
    property a = "b", and the store it leaves. *)
Definition messageEnvelope : Envelope :=
  {| ver := 1;
     name := "Microsoft.ApplicationInsights.1aa11111bbbb1ccc8dddeeeeffff3333.Message";
     time := "2020-01-01T00:00:00.000Z";
     sampleRate := ofZ 100;
     iKey := "1aa11111-bbbb-1ccc-8ddd-eeeeffff3333";
     tags := 1%positive;
     data := {| baseType := "MessageData";
                baseData := MessageData VUndefined (ofZ 1) (Some {[ "a" := VString "b" ]}) |} |}.

Definition messageStore : store := {[ 1%positive := ∅ ]}.

End Examples.

(** * Properties *)

(** ** Completions *)

Lemma bind_Normal {A B : Type} (a : A) (f : A → completion B) :
  (Normal a ≫= f) = f a.
Proof. reflexivity. Qed.

Lemma fmap_Some_Normal {A : Type} (c : completion A) (o : option A) :
  Some <$> c = Normal o → ∃ a, c = Normal a ∧ o = Some a.
Proof. destruct c as [a|e]; intros H; [|done]. injection H as <-. eauto. Qed.

(** ** Strings *)

Section StringFacts.
Import JsString.

Lemma length_append (a b : string) :
  String.length (a +:+ b) = (String.length a + String.length b)%nat.
Proof. induction a as [|c a IH]; simpl; [done | by rewrite IH]. Qed.

Lemma append_empty_r (a : string) : a +:+ "" = a.
Proof. induction a as [|c a IH]; simpl; [done | by rewrite IH]. Qed.

Lemma append_assoc (a b c : string) : (a +:+ b) +:+ c = a +:+ b +:+ c.
Proof. induction a as [|x a IH]; simpl; [done | by rewrite IH]. Qed.

Lemma length_prefix (n : nat) (s : string) :
  String.length (prefix n s) = (n `min` String.length s)%nat.
Proof.
  revert s; induction n as [|n IH]; intros [|c s]; simpl; try done.
  by rewrite IH.
Qed.

Lemma prefix_all (n : nat) (s : string) :
  (String.length s ≤ n)%nat → prefix n s = s.
Proof.
  revert s; induction n as [|n IH]; intros [|c s]; simpl; try done; [lia|].
  intros Hlen. f_equal. apply IH. lia.
Qed.

Lemma length_repeat (c : ascii) (n : nat) : String.length (repeat c n) = n.
Proof. induction n as [|n IH]; simpl; [done | by rewrite IH]. Qed.

Lemma substring_0_prefix (n : nat) (s : string) : String.substring 0 n s = prefix n s.
Proof.
  revert s; induction n as [|n IH]; intros [|c s]; simpl; try done.
  by rewrite IH.
Qed.

Lemma length_substring (n len : nat) (s : string) :
  (n + len ≤ String.length s)%nat → String.length (String.substring n len s) = len.
Proof.
  revert n len. induction s as [|c s IH]; intros n len H; simpl in H.
  - assert (n = 0 ∧ len = 0)%nat as [-> ->] by lia. done.
  - destruct n as [|n]; simpl.
    + destruct len as [|len]; simpl; [done|]. f_equal. apply IH. lia.
    + apply IH. lia.
Qed.

(** Two ways of cutting one string: the shorter tail is a tail of the longer. *)
Lemma append_split (u v t z : string) :
  u +:+ v = t +:+ z → (String.length z ≤ String.length v)%nat →
  ∃ v', v = v' +:+ z ∧ t = u +:+ v'.
Proof.
  revert t. induction u as [|c u IH]; intros t Heq Hlen; simpl in Heq.
  - exists t. by split.
  - destruct t as [|d t]; simpl in Heq.
    + exfalso. apply (f_equal String.length) in Heq. simpl in Heq.
      rewrite length_append in Heq. lia.
    + injection Heq as -> Heq. destruct (IH t Heq Hlen) as (v' & -> & ->).
      by exists v'.
Qed.

Lemma substring_at_end (s : string) : String.substring (String.length s) 0 s = "".
Proof. induction s as [|c s IH]; simpl; done. Qed.
End StringFacts.

(** ** C4: msToTimeSpan *)

Module TimeSpanFacts.
Import JsString JsNumber Util Regex Vocabulary.

Lemma rep_zeros_eol {R : Type} (n pos : nat) (s : string) (g : nat → string → option R) :
  (∀ p, ∃ r, g p "" = Some r) →
  rep true (isChar "0") 0 (Some n) pos s
    (fun pos' s' => match s' with EmptyString => g pos' s' | String _ _ => None end)
  = if zerosUpTo n s then g (pos + String.length s)%nat "" else None.
Proof.
  intros Hg. revert n pos.
  induction s as [|c s IH]; intros n pos; simpl.
  - by rewrite Nat.add_0_r.
  - destruct n as [|n]; simpl; [done|].
    destruct (isChar "0" c); simpl; [|done].
    rewrite IH. replace (S pos + String.length s)%nat with (pos + S (String.length s))%nat by lia.
    destruct (zerosUpTo n s); [|done].
    by destruct (Hg (pos + S (String.length s))%nat) as [r ->].
Qed.

Lemma matchAt_trailingZeros (pos : nat) (s : string) :
  matchAt 0 trailingZeros pos s
  = if zerosUpTo 4 s then Some [Some (pos, (pos + String.length s)%nat)] else None.
Proof.
  unfold matchAt, trailingZeros. cbn [run].
  etrans.
  { apply (rep_zeros_eol 4 pos s
             (fun pos' _ => Some (<[O := Some (pos, pos')]> (replicate 1 None)))).
    intros p. eauto. }
  done.
Qed.

Lemma search_trailingZeros (pos : nat) (s : string) :
  search 0 trailingZeros pos s
  = Some [Some ((pos + cut s)%nat, (pos + String.length s)%nat)].
Proof.
  revert pos. induction s as [|c s IH]; intros pos.
  - cbn. by rewrite !Nat.add_0_r.
  - cbn [search cut]. rewrite matchAt_trailingZeros.
    destruct (zerosUpTo 4 (String c s)) eqn:Hz.
    + by rewrite Nat.add_0_r.
    + rewrite IH. simpl. do 3 f_equal. f_equal; lia.
Qed.

(** [s.replace(/0{0,4}$/, "")] drops the run found by [cut]. *)
Lemma replace_trailingZeros (s : string) :
  Regex.replace 0 trailingZeros s "" = prefix (cut s) s.
Proof.
  unfold Regex.replace, exec. rewrite search_trailingZeros. simpl.
  rewrite Nat.sub_diag, substring_at_end, append_empty_r.
  apply substring_0_prefix.
Qed.

Lemma zerosUpTo_repeat (n : nat) (s : string) :
  zerosUpTo n s = true → s = repeat "0" (String.length s) ∧ (String.length s ≤ n)%nat.
Proof.
  revert n; induction s as [|c s IH]; intros n H; simpl in *.
  - split; [done | lia].
  - destruct n as [|n]; [done|].
    apply andb_prop in H as [Hc Hs]. apply IH in Hs as [Hs Hn].
    unfold isChar in Hc. apply Ascii.eqb_eq in Hc. subst c.
    split; [by rewrite <- Hs | lia].
Qed.

Lemma zerosUpTo_grow (n : nat) (c : ascii) (s : string) :
  zerosUpTo n s = true → isChar "0" c = true → zerosUpTo (S n) (String c s) = true.
Proof. intros H Hc. simpl. by rewrite Hc, H. Qed.

(** What the replacement leaves and what it drops. *)
Lemma cut_spec (s : string) :
  ∃ k : nat,
    (k ≤ 4)%nat ∧ s = prefix (cut s) s +:+ repeat "0" k ∧
    ((k < 4)%nat → endsWithZero (prefix (cut s) s) = false).
Proof.
  induction s as [|c s IH].
  - exists O. simpl. split; [lia|]. by split.
  - cbn [cut]. destruct (zerosUpTo 4 (String c s)) eqn:Hz.
    + apply zerosUpTo_repeat in Hz as [Hs Hn].
      exists (String.length (String c s)). simpl prefix.
      split; [done|]. split; [by rewrite <- Hs | done].
    + destruct IH as (k & Hk & Hs & Hend).
      exists k. split; [done|]. split.
      * simpl. by rewrite <- Hs.
      * intros Hlt. specialize (Hend Hlt). simpl.
        destruct (prefix (cut s) s) eqn:Hp; [|done].
        (* nothing is kept of [s]: [s] is a run of [k < 4] zeros *)
        simpl in Hs. subst s.
        destruct (isChar "0" c) eqn:Hc; [|done].
        exfalso. clear Hp Hend.
        assert (zerosUpTo 4 (String c (repeat "0" k)) = true) as Hz'; [|congruence].
        simpl. rewrite Hc. simpl. clear -Hlt.
        do 4 (destruct k as [|k]; [done|]). lia.
Qed.

(** The remainder by 60 is below 60 in absolute value. *)
Lemma rem60_bound x q : rem x 60 = Finite q → (Qabs q < 60)%Q.
Proof.
  destruct x as [| |q0]; unfold rem; try done.
  set (t := (q0 / inject_Z 60)%Q).
  pose proof (Qfloor_le t) as Hlo. pose proof (Qlt_floor t) as Hhi.
  pose proof (Qfloor_le (- t)) as Hlo'. pose proof (Qlt_floor (- t)) as Hhi'.
  rewrite inject_Z_plus in Hhi, Hhi'.
  assert (q0 == t * 60)%Q as Hq by (subst t; field).
  clearbody t. change (inject_Z 1) with 1%Q in *.
  generalize dependent (Qfloor t). generalize dependent (Qfloor (- t)).
  intros n' Hlo' Hhi' n Hlo Hhi Hq0.
  apply (f_equal (fun v => match v with Finite q => q | _ => 0%Q end)) in Hq0.
  cbv beta iota in Hq0. subst q. rewrite Qred_correct.
  apply Qabs_Qlt_condition.
  destruct (Qcompare_spec q0 0) as [H0|H0|H0];
    rewrite inject_Z_mult, ?inject_Z_opp; change (inject_Z 60) with 60%Q; split; lra.
Qed.

(** Below 10^21, [toFixed(f)] prints a point followed by [f] digits. *)
Lemma toFixed_shape large q f :
  Qle_bool (inject_Z (10 ^ 21)) (Qabs q) = false →
  ∃ a b, toFixed large (Finite q) f = a +:+ "." +:+ b ∧ String.length b = f.
Proof.
  intros Hsmall. unfold toFixed. rewrite Hsmall.
  set (m0 := decimal _).
  set (m := if (String.length m0 <=? f)%nat then _ else m0).
  assert (f + 1 ≤ String.length m)%nat as Hm.
  { subst m. destruct (Nat.leb_spec (String.length m0) f).
    - rewrite length_append, length_repeat. lia.
    - lia. }
  eexists (_ +:+ _), _. rewrite append_assoc. split; [reflexivity|].
  apply length_substring. lia.
Qed.

(** The seconds of a finite duration are printed with seven fractional digits. *)
Lemma secFixed_shape large q :
  ∃ a b, secFixed large (Finite q) = a +:+ "." +:+ b ∧ String.length b = 7%nat.
Proof.
  unfold secFixed. simpl div.
  destruct (rem (Finite (round53 (q / inject_Z 1000))) 60) as [| |r] eqn:Hrem; [done..|].
  apply toFixed_shape. apply rem60_bound in Hrem.
  destruct (Qle_bool (inject_Z (10 ^ 21)) (Qabs r)) eqn:Hbig; [|done].
  apply Qle_bool_iff in Hbig. exfalso.
  assert (60 < inject_Z (10 ^ 21))%Q by done. lra.
Qed.

Lemma endsWithZero_app u v :
  v ≠ "" → endsWithZero (u +:+ v) = endsWithZero v.
Proof.
  intros Hv. induction u as [|c u IH]; simpl; [done|].
  rewrite IH. destruct (u +:+ v) eqn:Huv; [|done].
  destruct u; [by simpl in Huv|done].
Qed.

(** C4 (as amended): the formatter maps 0 ms to "00:00:00.000", 90000 ms to
    "00:01:30.000" and 90000000 ms to "1.01:00:00.000"; a negative or NaN input
    is formatted as 0 is; for every input other than +Infinity the seconds are
    printed with seven fractional digits of which the trailing zeros are
    trimmed, four of them at most, so that the text ends in a point and three
    to seven fractional digits, the last of which is no zero when there are
    more than three; +Infinity is printed as "Infinity.NaN:NaN:0NaN"; the day
    segment is omitted when the day count is not positive. *)
Theorem msToTimeSpan_format (largeNumberText : Z → string) :
  msToTimeSpan largeNumberText (ofZ 0) = "00:00:00.000" ∧
  msToTimeSpan largeNumberText (ofZ 90000) = "00:01:30.000" ∧
  msToTimeSpan largeNumberText (ofZ 90000000) = "1.01:00:00.000" ∧
  (∀ x, isNaN x = true ∨ ltZero x = true →
        msToTimeSpan largeNumberText x = msToTimeSpan largeNumberText (ofZ 0)) ∧
  (∀ x, x ≠ Infinity false →
        ∃ (a b b' : string) (k : nat),
          secFixed largeNumberText (clampMs x) = a +:+ "." +:+ b ∧
          String.length b = 7%nat ∧
          b = b' +:+ JsString.repeat "0" k ∧ (k ≤ 4)%nat ∧
          ((k < 4)%nat → endsWithZero b' = false) ∧
          Regex.replace 0 trailingZeros (secFixed largeNumberText (clampMs x)) ""
          = a +:+ "." +:+ b') ∧
  (∀ x, x ≠ Infinity false →
        ∃ front fraction : string,
          msToTimeSpan largeNumberText x = front +:+ "." +:+ fraction ∧
          (3 ≤ String.length fraction ≤ 7)%nat ∧
          ((3 < String.length fraction)%nat → endsWithZero fraction = false)) ∧
  msToTimeSpan largeNumberText (Infinity false) = "Infinity.NaN:NaN:0NaN" ∧
  (∀ x, gtZero (days (clampMs x)) = false →
        msToTimeSpan largeNumberText x
        = hourText largeNumberText (clampMs x) +:+ ":"
          +:+ minText largeNumberText (clampMs x) +:+ ":"
          +:+ secText largeNumberText (clampMs x)).
Proof.
  assert (∀ x, x ≠ Infinity false →
            ∃ (a b b' : string) (k : nat),
              secFixed largeNumberText (clampMs x) = a +:+ "." +:+ b ∧
              String.length b = 7%nat ∧
              b = b' +:+ JsString.repeat "0" k ∧ (k ≤ 4)%nat ∧
              ((k < 4)%nat → endsWithZero b' = false) ∧
              Regex.replace 0 trailingZeros (secFixed largeNumberText (clampMs x)) ""
              = a +:+ "." +:+ b') as Hdigits.
  { intros x Hx.
    assert (∃ q, clampMs x = Finite q) as [q ->].
    { unfold clampMs. destruct x as [|[]|q]; simpl; [by eexists..|done|].
      destruct (Qcompare q 0); by eexists. }
    destruct (secFixed_shape largeNumberText q) as (a & b & Hfixed & Hb).
    rewrite replace_trailingZeros.
    destruct (cut_spec (secFixed largeNumberText (Finite q))) as (k & Hk & Hcut & Hend).
    set (trimmed := prefix _ _) in *.
    rewrite Hfixed, <- append_assoc in Hcut.
    apply append_split in Hcut as (b' & Hb' & Htrim); [|rewrite length_repeat; lia].
    exists a, b, b', k. rewrite Htrim, append_assoc.
    split; [done|]. split; [done|]. split; [done|]. split; [done|]. split; [|done].
    intros Hlt. specialize (Hend Hlt). rewrite Htrim in Hend.
    rewrite endsWithZero_app in Hend; [done|].
    intros ->. rewrite Hb' in Hb. simpl in Hb. rewrite length_repeat in Hb. lia. }
  split; [by vm_compute|]. split; [by vm_compute|]. split; [by vm_compute|].
  split; [|split; [|split; [|split]]].
  - intros x Hx. unfold msToTimeSpan.
    assert (clampMs x = ofZ 0) as ->.
    { unfold clampMs. destruct Hx as [-> | ->]; [done|]. by rewrite orb_true_r. }
    done.
  - exact Hdigits.
  - intros x Hx.
    destruct (Hdigits x Hx) as (a & b & b' & k & _ & Hb & Hb' & Hk & Hend & Hsec).
    assert (String.length b' + k = 7)%nat as Hlen.
    { rewrite <- Hb, Hb', length_append, length_repeat. done. }
    unfold msToTimeSpan, secText. cbv zeta. rewrite Hsec.
    set (d := daysText largeNumberText (clampMs x)).
    set (h := hourText largeNumberText (clampMs x)).
    set (m := minText largeNumberText (clampMs x)).
    destruct (JsString.indexOf (a +:+ "." +:+ b') "." <? 2).
    + exists (d +:+ h +:+ ":" +:+ m +:+ ":" +:+ "0" +:+ a), b'.
      split; [by rewrite !append_assoc|]. split; [lia|]. intros ?. apply Hend. lia.
    + exists (d +:+ h +:+ ":" +:+ m +:+ ":" +:+ a), b'.
      split; [by rewrite !append_assoc|]. split; [lia|]. intros ?. apply Hend. lia.
  - by vm_compute.
  - intros x Hd. unfold msToTimeSpan, daysText. by rewrite Hd.
Qed.

(** The claim of C4 fails at 0: the text for 0 ms is not "00:00:00", whatever
    the runtime prints for large numbers. *)
Lemma msToTimeSpan_zero_keeps_fraction :
  ¬ ∃ largeNumberText, msToTimeSpan largeNumberText (ofZ 0) = "00:00:00".
Proof. intros [large H]. vm_compute in H. discriminate. Qed.

(** Fractional milliseconds keep their digits: 1.5 ms. *)
Example msToTimeSpan_fractional (largeNumberText : Z → string) :
  msToTimeSpan largeNumberText (Finite (3 # 2)) = "00:00:00.0015".
Proof. by vm_compute. Qed.

End TimeSpanFacts.

(** ** The envelope assembler *)

Module EnvelopeFacts.
Import JsNumber JsValue Store Contracts EnvelopeFactory Vocabulary.

Section Assembly.
Variable decl : Declarations.
Variable largeNumberText : Z → string.
Variable numberText : number → string.
Variable JSON_stringify : value → completion (option string).
Variable getCurrentContext : option CorrelationContext.t.
Variable now : string.

Abbreviation DT := (dataTypes decl).
Abbreviation create :=
  (createEnvelope decl largeNumberText numberText JSON_stringify getCurrentContext now).

Lemma createExceptionData_baseType telemetry d :
  createExceptionData decl largeNumberText telemetry = Normal d → baseType d = EXCEPTION DT.
Proof.
  unfold createExceptionData.
  destruct (Telemetry.exception telemetry); [|done].
  destruct (parseStack _ _); simpl; [|done]. by intros [= <-].
Qed.

Lemma convert_Some telemetry telemetryType d :
  convert decl largeNumberText telemetry telemetryType = Normal (Some d) →
  baseType d = telemetryType ∧ telemetryType ∈ recognized decl.
Proof.
  unfold convert, recognized.
  repeat
    match goal with
    | |- context [String.eqb telemetryType ?b] =>
        destruct (String.eqb_spec telemetryType b) as [Heq|?];
        [ intros (d' & Hd & [= <-])%fmap_Some_Normal;
          split; [|rewrite Heq, !elem_of_cons; tauto];
          first [ by apply createExceptionData_baseType in Hd; rewrite Hd
                | by injection Hd as <- ]
        | ]
    end.
  done.
Qed.

Lemma convert_None telemetry telemetryType :
  telemetryType ∉ recognized decl →
  convert decl largeNumberText telemetry telemetryType = Normal None.
Proof.
  unfold convert, recognized. rewrite !elem_of_cons, elem_of_nil. intros Hnot.
  repeat
    match goal with
    | |- context [String.eqb telemetryType ?b] =>
        destruct (String.eqb_spec telemetryType b) as [Heq|?]; [exfalso; tauto|]
    end.
  done.
Qed.

Lemma applyCommonProperties_baseType d common d' :
  applyCommonProperties numberText JSON_stringify d common = Normal d' →
  baseType d' = baseType d.
Proof.
  unfold applyCommonProperties.
  destruct (Util.validateStringMap _ _ _); simpl; [|done]. by intros [= <-].
Qed.

Lemma substr0_withoutLast4 (s : string) :
  JsString.substr0 s (Z.of_nat (String.length s) - 4) = withoutLast4 s.
Proof. unfold JsString.substr0, withoutLast4. f_equal. lia. Qed.

(** C7: an envelope that [createEnvelope] produces carries the discriminator
    it was asked for, which is one of the six recognized ones, as
    [data.baseType]; its name is "Microsoft.ApplicationInsights.", the
    instrumentation key without its dashes, ".", and the base type without
    its last four characters; its version is 1. *)
Theorem createEnvelope_name_and_baseType
    telemetry telemetryType commonProperties context config σ envelope σ' :
  create telemetry telemetryType commonProperties context config σ = Normal (envelope, σ') →
  telemetryType ∈ recognized decl ∧
  baseType (data envelope) = telemetryType ∧
  name envelope
  = "Microsoft.ApplicationInsights."
    +:+ JsString.removeAll "-" (instrumentationKeyOf config) +:+ "."
    +:+ withoutLast4 telemetryType ∧
  ver envelope = 1.
Proof.
  unfold createEnvelope.
  destruct (convert _ _ _ _) as [[d|]|e] eqn:Hconv; [| |done].
  - apply convert_Some in Hconv as [Hbase Hrec]. rewrite bind_Normal.
    assert (∀ d1 : Data, baseType d1 = telemetryType →
      assembleEnvelope getCurrentContext now telemetry (Some d1) context config σ
      = Normal (envelope, σ') →
      telemetryType ∈ recognized decl ∧ baseType (data envelope) = telemetryType ∧
      name envelope = "Microsoft.ApplicationInsights."
        +:+ JsString.removeAll "-" (instrumentationKeyOf config) +:+ "."
        +:+ withoutLast4 telemetryType ∧ ver envelope = 1) as Hassemble.
    { intros d1 Hd1. unfold assembleEnvelope.
      destruct (getTags _ _ _ _) as [[tags σ0]|]; [|done]. rewrite bind_Normal.
      intros [= <- <-]. simpl. rewrite Hd1. unfold envelopeName.
      by rewrite substr0_withoutLast4. }
    destruct commonProperties as [common|]; [|by apply Hassemble].
    destruct (domainSupportsProperties decl (baseData d)); [|by apply Hassemble].
    destruct (applyCommonProperties _ _ d common) as [d1|] eqn:Happly; [|done].
    apply applyCommonProperties_baseType in Happly.
    apply Hassemble. congruence.
  - rewrite bind_Normal. by destruct commonProperties.
Qed.

(** An unrecognized type leaves [data] at [null], and the reads of
    [data.baseData] and [data.baseType] raise. *)
Lemma createEnvelope_unrecognized
    telemetry telemetryType commonProperties context config σ :
  telemetryType ∉ recognized decl →
  raises (create telemetry telemetryType commonProperties context config σ).
Proof.
  intros Hnot. unfold createEnvelope. rewrite (convert_None _ _ Hnot), bind_Normal.
  destruct commonProperties; by eexists.
Qed.

End Assembly.

(** The theorem of C7 on an empty trace item: the envelope is named after the
    key without dashes and "Message". *)
Lemma createEnvelope_name_and_baseType_witness :
  "MessageData" ∈ recognized Examples.declarations ∧
  baseType (data Examples.messageEnvelope) = "MessageData" ∧
  name Examples.messageEnvelope
  = "Microsoft.ApplicationInsights."
    +:+ JsString.removeAll "-" (instrumentationKeyOf (Some Examples.config)) +:+ "."
    +:+ withoutLast4 "MessageData" ∧
  ver Examples.messageEnvelope = 1.
Proof.
  apply (createEnvelope_name_and_baseType Examples.declarations (fun _ => "")
           (fun _ => "") (fun _ => Normal None) None "2020-01-01T00:00:00.000Z"
           Examples.emptyTelemetry "MessageData" (Some {[ "a" := "b" ]}) None
           (Some Examples.config) ∅ Examples.messageEnvelope Examples.messageStore).
  vm_compute. reflexivity.
Defined.

(** C2 (the code departs from it): with the discriminators of the spec, the
    type "AvailabilityData" is none of the six, and [createEnvelope] raises a
    TypeError on it instead of returning an envelope with an empty body,
    whatever item, properties, context, configuration and runtime it is given. *)
Theorem createEnvelope_unknown_type_raises
    (information error aggregation : number) (supports : Domain → bool)
    (largeNumberText : Z → string) (numberText : number → string)
    (JSON_stringify : value → completion (option string))
    (getCurrentContext : option CorrelationContext.t) (now : string)
    (telemetry : Telemetry.t) (commonProperties : option (gmap string string))
    (context : option Context.t) (config : option Config.t) (σ : store) :
  raises
    (createEnvelope
       {| dataTypes := DataTypes; SeverityLevel_Information := information;
          SeverityLevel_Error := error; DataPointType_Aggregation := aggregation;
          domainSupportsProperties := supports |}
       largeNumberText numberText JSON_stringify getCurrentContext now
       telemetry "AvailabilityData" commonProperties context config σ).
Proof.
  apply createEnvelope_unrecognized. unfold recognized. simpl.
  rewrite !elem_of_cons, elem_of_nil. intros H.
  repeat (destruct H as [H|H]; [discriminate|]). done.
Qed.

(** C10: with an ambient correlation context and no client context, [getTags]
    raises on the read of [context.keys], and so does every call of
    [createEnvelope]. *)
Theorem getTags_requires_context :
  (∀ correlationContext tagOverrides σ,
     getTags (Some correlationContext) None tagOverrides σ
     = Throw (TypeError "Cannot read properties of undefined (reading 'keys')")) ∧
  (∀ decl largeNumberText numberText JSON_stringify correlationContext now
     telemetry telemetryType commonProperties config σ,
     raises
       (createEnvelope decl largeNumberText numberText JSON_stringify
          (Some correlationContext) now telemetry telemetryType commonProperties
          None config σ)).
Proof.
  assert (∀ correlationContext tagOverrides σ,
     getTags (Some correlationContext) None tagOverrides σ
     = Throw (TypeError "Cannot read properties of undefined (reading 'keys')")) as Htags.
  { intros cc tagOverrides σ. unfold getTags. by destruct (alloc σ). }
  split; [exact Htags|].
  intros.
  assert (∀ d : option Data,
    raises (assembleEnvelope (Some correlationContext) now telemetry d None config σ))
    as Hassemble.
  { intros [d|]; unfold assembleEnvelope; [|by eexists]. rewrite Htags. by eexists. }
  unfold createEnvelope.
  destruct (convert _ _ _ _) as [d|e]; [|by eexists]. rewrite bind_Normal.
  destruct commonProperties as [common|]; [|apply Hassemble].
  destruct d as [d|]; [|by eexists].
  destruct (domainSupportsProperties decl (baseData d)); [|apply Hassemble].
  destruct (applyCommonProperties _ _ d common) as [d1|]; [|by eexists].
  apply Hassemble.
Qed.

End EnvelopeFacts.

(** ** The merge of the common properties and the sanitizer *)

Module PropertyFacts.
Import JsNumber JsValue Contracts EnvelopeFactory Util Vocabulary.

Lemma truthy_inherited k : truthy (inherited k) = bool_decide (k ∈ inheritedNames).
Proof.
  unfold inherited, inheritedNames.
  destruct (bool_decide_reflect (k ∈ prototypeMethods)) as [Hin|Hnot]; cbn [truthy].
  - apply eq_sym, bool_decide_eq_true. rewrite elem_of_cons. by right.
  - destruct (String.eqb_spec k "__proto__") as [->|Hne]; cbn [truthy Object_prototype].
    + apply eq_sym, bool_decide_eq_true. rewrite elem_of_cons. by left.
    + apply eq_sym, bool_decide_eq_false. rewrite elem_of_cons. tauto.
Qed.

Lemma mergeCommonProperties_lookup properties commonProperties k :
  mergeCommonProperties (Some properties) commonProperties !! k
  = mergedValue properties commonProperties k.
Proof.
  unfold mergeCommonProperties. revert k.
  apply (map_fold_weak_ind
           (fun r m => ∀ k, r !! k = mergedValue properties m k)).
  - intros k. unfold mergedValue. rewrite lookup_empty.
    destruct (properties !! k) as [v|]; [by destruct (truthy v)|].
    by destruct (bool_decide _).
  - intros i x m r Hfresh IH k.
    assert (lookupValue r i = lookupValue properties i) as Hcur.
    { unfold lookupValue. rewrite IH. unfold mergedValue. rewrite Hfresh.
      destruct (properties !! i) as [v|]; [by destruct (truthy v)|].
      by destruct (bool_decide _). }
    rewrite Hcur. unfold mergedValue, lookupValue.
    destruct (decide (k = i)) as [->|Hne].
    + rewrite lookup_insert_eq.
      destruct (properties !! i) as [v|] eqn:Hp; simpl.
      * destruct (truthy v) eqn:Hv; simpl.
        -- rewrite IH. unfold mergedValue. by rewrite Hp, Hv.
        -- by rewrite lookup_insert_eq.
      * rewrite truthy_inherited.
        destruct (bool_decide (i ∈ inheritedNames)) eqn:Hin; simpl.
        -- rewrite IH. unfold mergedValue. by rewrite Hp, Hin.
        -- by rewrite lookup_insert_eq.
    + rewrite (lookup_insert_ne m) by done.
      destruct (negb _); [rewrite lookup_insert_ne by done|]; apply IH.
Qed.

(** C5 (the code departs from it): a property the item has set to a falsy
    value, the empty string for one, is overwritten by the common property of
    the same name, although the comment on the test says "only override if the
    property has not been set on this item": the body {a:""} merged with the
    common {a:"2"} gives {a:"2"}, also after the sanitizer. The test reads the
    body through its prototype: a property set to a truthy value is kept, and
    a common property named like a member of [Object.prototype] is left out
    of a body that has properties. *)
Theorem mergeCommonProperties_overwrites_set_values :
  (∀ properties commonProperties k v c,
     properties !! k = Some v → truthy v = false → commonProperties !! k = Some c →
     mergeCommonProperties (Some properties) commonProperties !! k = Some (VString c)) ∧
  mergeCommonProperties (Some {[ "a" := VString "" ]}) {[ "a" := "2" ]}
  = {[ "a" := VString "2" ]} ∧
  (∀ numberText JSON_stringify base,
     applyCommonProperties numberText JSON_stringify
       {| baseType := base; baseData := EventData VUndefined VUndefined
                                          (Some {[ "a" := VString "" ]}) |}
       {[ "a" := "2" ]}
     = Normal
         {| baseType := base;
            baseData := EventData VUndefined VUndefined
                          (Some {[ "a" := VString "2" ]}) |}) ∧
  (∀ properties commonProperties k v,
     properties !! k = Some v → truthy v = true →
     mergeCommonProperties (Some properties) commonProperties !! k = Some v) ∧
  mergeCommonProperties (Some {[ "a" := VString "1" ]}) {[ "a" := "2"; "b" := "3" ]}
  = {[ "a" := VString "1"; "b" := VString "3" ]} ∧
  mergeCommonProperties (Some {[ "a" := VString "1" ]}) {[ "constructor" := "x" ]}
  = {[ "a" := VString "1" ]}.
Proof.
  split.
  { intros properties commonProperties k v c Hk Hv Hc.
    rewrite mergeCommonProperties_lookup. unfold mergedValue. by rewrite Hk, Hv, Hc. }
  split; [by vm_compute|]. split; [intros; by vm_compute|]. split.
  { intros properties commonProperties k v Hk Hv.
    rewrite mergeCommonProperties_lookup. unfold mergedValue. by rewrite Hk, Hv. }
  split; by vm_compute.
Qed.

(** *** The sanitizer *)

Section SanitizerFacts.
Variable numberText : number → string.
Variable JSON_stringify : value → completion (option string).

Abbreviation property := (propertyOf numberText JSON_stringify).

Lemma validateField_truncates i x fields acc map :
  fields !! i = None →
  (∀ map0, acc = Normal map0 → truncatedFrom numberText JSON_stringify fields map0) →
  validateField numberText JSON_stringify i x acc = Normal map →
  truncatedFrom numberText JSON_stringify (<[i := x]> fields) map.
Proof.
  unfold validateField, substringMax, truncatedFrom.
  generalize MAX_PROPERTY_LENGTH. intros n Hfresh IH.
  destruct acc as [map0|]; [|intros [=]].
  specialize (IH map0 eq_refl). rewrite bind_Normal.
  destruct (property x) as [[p|]|] eqn:Hprop; [| |intros [=]]; rewrite bind_Normal.
  - destruct p as [| | | |text| | |]; try (intros [=]; fail).
    rewrite bind_Normal. intros [= <-] field t.
    destruct (decide (field = i)) as [->|Hne].
    + rewrite !lookup_insert_eq. split.
      * intros [= <-]. by exists x, text.
      * intros (o & text' & [= <-] & Hp & ->). congruence.
    + rewrite !lookup_insert_ne by done. apply IH.
  - intros [= <-] field t. split.
    + intros Hlookup. destruct (proj1 (IH field t) Hlookup) as (o & text & Ho & Hp & Hs).
      exists o, text. rewrite lookup_insert_ne; [done|]. congruence.
    + intros (o & text & Ho & Hp & Hs). apply IH.
      destruct (decide (field = i)) as [->|Hne].
      * rewrite lookup_insert_eq in Ho. congruence.
      * rewrite lookup_insert_ne in Ho by done. by exists o, text.
Qed.

Lemma validateStringMap_truncatedFrom obj map :
  validateStringMap numberText JSON_stringify obj = Normal (Some map) →
  truncatedFrom numberText JSON_stringify (enumerable obj) map.
Proof.
  destruct obj as [| | | | | | |info fields hidden toJSON]; simpl; try done.
  - intros [= <-] field s. rewrite !lookup_empty. split; [done|].
    by intros (o & text & [=] & _).
  - intros (map0 & Hfold & [= <-])%fmap_Some_Normal. revert map Hfold.
    apply (map_fold_weak_ind
             (fun r m => ∀ map0, r = Normal map0 → truncatedFrom numberText JSON_stringify m map0)).
    + intros map0 [= <-] field s. rewrite !lookup_empty. split; [done|].
      by intros (o & text & [=] & _).
    + intros i x m r Hfresh IH map0 Hstep.
      by apply (validateField_truncates i x m r).
Qed.

End SanitizerFacts.


End PropertyFacts.

(** ** The tag resolver *)

Module TagFacts.
Import Store EnvelopeFactory Vocabulary.









End TagFacts.

(** ** The correlation header *)

Module CorrelationFacts.
Import JsString Util Vocabulary.

Lemma split_nonempty sep s : split sep s ≠ [].
Proof.
  destruct s as [|c s]; simpl; [done|].
  destruct (Ascii.eqb c sep); [done|]. by destruct (split sep s).
Qed.

(** Splitting distributes over a separator in the middle. *)
Lemma split_app sep a b :
  split sep (a +:+ String sep b) = split sep a ++ split sep b.
Proof.
  induction a as [|c a IH]; simpl.
  - by rewrite Ascii.eqb_refl.
  - destruct (Ascii.eqb c sep); [by rewrite IH|].
    rewrite IH. destruct (split sep a) eqn:Ha; [|done].
    by apply split_nonempty in Ha.
Qed.

Lemma split_no_sep sep s : contains sep s = false → split sep s = [s].
Proof.
  induction s as [|c s IH]; simpl; [done|].
  intros [Hc Hs]%orb_false_elim. by rewrite Hc, IH.
Qed.

(** A prefix without separator stays on the first component. *)
Lemma split_prefix sep key r :
  contains sep key = false →
  ∃ x xs, split sep r = x :: xs ∧ split sep (key +:+ r) = (key +:+ x) :: xs.
Proof.
  induction key as [|c key IH]; simpl.
  - intros _. destruct (split sep r) as [|x xs] eqn:Hr; [by apply split_nonempty in Hr|].
    by exists x, xs.
  - intros [Hc Hkey]%orb_false_elim. rewrite Hc.
    destruct (IH Hkey) as (x & xs & Hr & ->). by exists x, xs.
Qed.


Lemma contains_app c a b : contains c (a +:+ b) = contains c a || contains c b.
Proof.
  induction a as [|d a IH]; simpl; [done|]. by rewrite IH, orb_assoc.
Qed.







Section Merge.
Variable requestContextHeader requestContextSourceKey : string.
Hypothesis sourceKey_no_comma : contains "," requestContextSourceKey = false.

Abbreviation key := (sourceKeyPrefix requestContextSourceKey).
Abbreviation found := (hasSourceKey requestContextSourceKey).
Abbreviation include :=
  (safeIncludeCorrelationHeader requestContextHeader requestContextSourceKey).




End Merge.



End CorrelationFacts.

(** ** Excluded domains *)

Module PatternFacts.
Import JsString Regex Util Vocabulary.

Lemma patternSource_cons c p :
  patternSource (String c p)
  = if Ascii.eqb c "*" then ".*" +:+ patternSource p else String c (patternSource p).
Proof.
  unfold patternSource. simpl.
  destruct (Ascii.eqb_spec c "."); [by subst|].
  simpl. by destruct (Ascii.eqb c "*").
Qed.

Lemma patternSource_no_star p s : patternSource p ≠ String "*" s.
Proof.
  destruct p as [|c p]; [done|]. rewrite patternSource_cons.
  destruct (Ascii.eqb_spec c "*"); [done|]. congruence.
Qed.

Lemma RegExp_plainPattern pattern :
  plainPattern pattern = true →
  RegExp (patternSource pattern) = Some (globRegex pattern).
Proof.
  induction pattern as [|c p IH]; [done|].
  simpl plainPattern. intros [Hc Hp]%andb_prop. specialize (IH Hp).
  rewrite patternSource_cons. cbn [globRegex].
  destruct (Ascii.eqb_spec c "*") as [->|Hstar].
  - simpl. by rewrite IH.
  - destruct (Ascii.eqb_spec c ".") as [->|Hdot].
    + cbn [RegExp]. rewrite Ascii.eqb_refl.
      destruct (patternSource p) as [|d src] eqn:Hsrc; [by rewrite IH|].
      destruct (Ascii.eqb_spec d "*") as [->|Hd]; [by apply patternSource_no_star in Hsrc|].
      rewrite IH. by destruct d as [[] [] [] [] [] [] [] []].
    + cbn [RegExp]. simpl in Hc.
      destruct (Ascii.eqb_spec c "."); [done|].
      apply negb_true_iff in Hc. by rewrite Hc, IH.
Qed.

Lemma allDot_app a b : allDot (a +:+ b) = allDot a && allDot b.
Proof. induction a as [|c a IH]; simpl; [done|]. by rewrite IH, andb_assoc. Qed.

Section Matching.
Context {R : Type}.

(** A greedy, unbounded run of [.] can stop after any prefix free of line
    terminators. *)
Lemma rep_dots_is_Some pos s (k : nat → string → option R) :
  is_Some (rep true isDot 0 None pos s k)
  ↔ ∃ s1 s2, s = s1 +:+ s2 ∧ allDot s1 = true
             ∧ is_Some (k (pos + String.length s1)%nat s2).
Proof.
  revert pos. induction s as [|c s IH]; intros pos.
  - simpl. split.
    + intros Hk. exists "", "". by rewrite Nat.add_0_r.
    + intros ([|? ?] & s2 & Hs & _ & Hk); [|done].
      simpl in Hs. subst s2. by rewrite Nat.add_0_r in Hk.
  - cbn [rep canTake decr Nat.pred andb]. split.
    + destruct (isDot c) eqn:Hc.
      * destruct (rep true isDot 0 None (S pos) s k) as [r|] eqn:Hrep.
        -- intros _. destruct (proj1 (IH (S pos))) as (s1 & s2 & -> & Hdots & Hk).
           { by rewrite Hrep. }
           exists (String c s1), s2. simpl. rewrite Hc, Hdots.
           by replace (pos + S (String.length s1))%nat
             with (S pos + String.length s1)%nat by lia.
        -- intros Hk. exists "", (String c s). by rewrite Nat.add_0_r.
      * intros Hk. exists "", (String c s). by rewrite Nat.add_0_r.
    + intros ([|d s1] & s2 & Hs & Hdots & Hk).
      * simpl in Hs. subst s2. rewrite Nat.add_0_r in Hk.
        by destruct (if isDot c then rep true isDot 0 None (S pos) s k else None).
      * simpl in Hs. injection Hs as <- ->.
        simpl in Hdots. apply andb_prop in Hdots as [Hc Hdots]. rewrite Hc.
        destruct (proj2 (IH (S pos))) as [r ->]; [|done].
        exists s1, s2. split; [done|]. split; [done|].
        by replace (S pos + String.length s1)%nat
          with (pos + String.length (String c s1))%nat by (simpl; lia).
Qed.

Lemma isChar_eq c d : isChar c d = true ↔ d = c.
Proof. unfold isChar. rewrite Ascii.eqb_eq. split; congruence. Qed.

(** The expression of a plain pattern consumes exactly the texts the pattern
    reads as. *)
Lemma run_globRegex pattern pos s caps (k : nat → string → captures → option R) :
  plainPattern pattern = true →
  is_Some (run (globRegex pattern) pos s caps k)
  ↔ ∃ s1 s2, s = s1 +:+ s2 ∧ globMatches pattern s1
             ∧ is_Some (k (pos + String.length s1)%nat s2 caps).
Proof.
  revert pos s. induction pattern as [|c p IH]; intros pos s Hplain.
  - simpl. split.
    + intros Hk. exists "", s. rewrite Nat.add_0_r. by repeat split; [constructor|].
    + intros (s1 & s2 & -> & Hm & Hk). inversion Hm; subst.
      by rewrite Nat.add_0_r in Hk.
  - simpl in Hplain. apply andb_prop in Hplain as [Hc Hplain].
    cbn [globRegex].
    destruct (Ascii.eqb_spec c "*") as [->|Hstar]; [|destruct (Ascii.eqb_spec c ".") as [->|Hdot]].
    + cbn [run]. rewrite rep_dots_is_Some. split.
      * intros (s1 & s2 & -> & Hdots & Hrun).
        apply IH in Hrun as (t1 & t2 & -> & Hm & Hk); [|done].
        exists (s1 +:+ t1), t2. rewrite append_assoc. split; [done|].
        split; [by constructor|].
        by rewrite length_append, Nat.add_assoc.
      * intros (s1 & s2 & -> & Hm & Hk).
        inversion Hm as [|p' a t Hdots Ht| |p' d t Hd Ht]; subst; [|done].
        exists a, (t +:+ s2). rewrite append_assoc. split; [done|]. split; [done|].
        apply IH; [done|]. exists t, s2. split; [done|]. split; [done|].
        by rewrite length_append, Nat.add_assoc in Hk.
    + cbn [run]. split.
      * destruct s as [|d s]; [by intros [? [=]]|].
        destruct (isDot d) eqn:Hd; [|by intros [? [=]]].
        intros Hrun. apply IH in Hrun as (t1 & t2 & -> & Hm & Hk); [|done].
        exists (String d t1), t2. split; [done|]. split; [by constructor|].
        by replace (pos + String.length (String d t1))%nat
          with (S pos + String.length t1)%nat by (simpl; lia).
      * intros (s1 & s2 & -> & Hm & Hk).
        inversion Hm as [| |p' d t Hd Ht|p' d t Hd Ht]; subst; [|done].
        simpl. rewrite Hd. apply IH; [done|]. exists t, s2.
        split; [done|]. split; [done|].
        by replace (S pos + String.length t)%nat
          with (pos + String.length (String d t))%nat by (simpl; lia).
    + assert (isSyntaxChar c = false) as Hsyn.
      { simpl in Hc. by apply negb_true_iff in Hc. }
      cbn [run]. split.
      * destruct s as [|d s]; [by intros [? [=]]|].
        destruct (isChar c d) eqn:Hd; [|by intros [? [=]]].
        apply isChar_eq in Hd as ->.
        intros Hrun. apply IH in Hrun as (t1 & t2 & -> & Hm & Hk); [|done].
        exists (String c t1), t2. split; [done|]. split; [by constructor|].
        by replace (pos + String.length (String c t1))%nat
          with (S pos + String.length t1)%nat by (simpl; lia).
      * intros (s1 & s2 & -> & Hm & Hk).
        inversion Hm as [|p' a t Hdots Ht|p' d t Hd Ht|p' d t Hd Ht]; subst; [done..|].
        simpl. rewrite (proj2 (isChar_eq c c) eq_refl).
        apply IH; [done|]. exists t, s2.
        split; [done|]. split; [done|].
        by replace (S pos + String.length t)%nat
          with (pos + String.length (String c t))%nat by (simpl; lia).
Qed.
End Matching.

(** The search tries every start position. *)
Lemma search_is_Some ngroups r pos s :
  is_Some (search ngroups r pos s)
  ↔ ∃ before rest, s = before +:+ rest
      ∧ is_Some (matchAt ngroups r (pos + String.length before)%nat rest).
Proof.
  revert pos. induction s as [|c s IH]; intros pos.
  - simpl. split.
    + destruct (matchAt ngroups r pos "") eqn:Hm; [|by intros [? [=]]].
      intros _. exists "", "". by rewrite Nat.add_0_r, Hm.
    + intros ([|? ?] & rest & Hs & Hm); [|done]. simpl in Hs. subst rest.
      rewrite Nat.add_0_r in Hm. by destruct (matchAt ngroups r pos "").
  - cbn [search]. split.
    + destruct (matchAt ngroups r pos (String c s)) eqn:Hm.
      * intros _. exists "", (String c s). by rewrite Nat.add_0_r, Hm.
      * intros (before & rest & -> & Hrest)%IH.
        exists (String c before), rest. split; [done|].
        by replace (pos + String.length (String c before))%nat
          with (S pos + String.length before)%nat by (simpl; lia).
    + intros ([|d before] & rest & Hs & Hm).
      * simpl in Hs. subst rest. rewrite Nat.add_0_r in Hm.
        by destruct (matchAt ngroups r pos (String c s)).
      * simpl in Hs. injection Hs as <- ->.
        destruct (matchAt ngroups r pos (String c (before +:+ rest))); [done|].
        apply IH. exists before, rest. split; [done|].
        by replace (S pos + String.length before)%nat
          with (pos + String.length (String c before))%nat by (simpl; lia).
Qed.

(** [regex.test(hostname)] for the expression of a plain pattern: the pattern
    is found somewhere in the host name. *)
Lemma test_globRegex pattern hostname :
  plainPattern pattern = true →
  Regex.test 0 (globRegex pattern) hostname = true ↔ globContains pattern hostname.
Proof.
  intros Hplain. unfold Regex.test, exec. rewrite bool_decide_eq_true, search_is_Some.
  unfold matchAt, globContains. split.
  - intros (before & rest & -> & Hrun).
    apply run_globRegex in Hrun as (middle & after & -> & Hm & _); [|done].
    by exists before, middle, after.
  - intros (before & middle & after & -> & Hm).
    exists before, (middle +:+ after). split; [done|].
    apply run_globRegex; [done|]. exists middle, after. by repeat split.
Qed.

Section Exclusion.
Variable urlHostname : string → option string.

Abbreviation canInclude := (canIncludeCorrelationHeader urlHostname).

(** On plain patterns and a target with a host name, the loop answers whether
    none of the patterns is found in the host name. *)
Lemma excludedBy_plain patterns requestUrl hostname :
  urlHostname requestUrl = Some hostname → isEmpty hostname = false →
  Forall (fun pattern => plainPattern pattern = true) patterns →
  excludedBy urlHostname patterns requestUrl
  = Some (negb (existsb (fun pattern => Regex.test 0 (globRegex pattern) hostname) patterns)).
Proof.
  intros Hhost Hne. induction 1 as [|pattern patterns Hplain _ IH]; [done|].
  cbn [excludedBy existsb]. rewrite (RegExp_plainPattern _ Hplain). simpl.
  rewrite Hhost. simpl. rewrite Hne. simpl.
  destruct (Regex.test 0 (globRegex pattern) hostname); [done|]. by rewrite IH.
Qed.

(** C3: with the single pattern "*.excluded.com" the check answers false for
    the host name "api.excluded.com" and true for "excluded.com.evil.org"; in
    general, on patterns made of [*], [.] and ordinary characters, it answers
    false exactly when some pattern is found in the host name, reading [*] as
    any run of characters, the unescaped [.] as any one character and every
    other character as itself. *)
Theorem canIncludeCorrelationHeader_patterns cfg requestUrl hostname :
  requestUrl ≠ "" → urlHostname requestUrl = Some hostname →
  let client := Some {| TelemetryClient.config := Some cfg |} in
  (Config.correlationHeaderExcludedDomains cfg = Some ["*.excluded.com"] →
     (hostname = "api.excluded.com" → canInclude client requestUrl = Some false) ∧
     (hostname = "excluded.com.evil.org" → canInclude client requestUrl = Some true)) ∧
  (∀ patterns,
     Config.correlationHeaderExcludedDomains cfg = Some patterns →
     patterns ≠ [] → hostname ≠ "" →
     Forall (fun pattern => plainPattern pattern = true) patterns →
     ∃ include,
       canInclude client requestUrl = Some include ∧
       (include = false ↔ ∃ pattern, pattern ∈ patterns ∧ globContains pattern hostname)).
Proof.
  intros Hurl Hhost client.
  assert (isEmpty requestUrl = false) as Hurl' by (by destruct requestUrl).
  assert (∀ patterns,
     Config.correlationHeaderExcludedDomains cfg = Some patterns →
     patterns ≠ [] → hostname ≠ "" →
     Forall (fun pattern => plainPattern pattern = true) patterns →
     canInclude client requestUrl
     = Some (negb (existsb (fun pattern => Regex.test 0 (globRegex pattern) hostname)
                     patterns))) as Hgeneral.
  { intros patterns Hcfg Hnil Hh Hplain.
    unfold canIncludeCorrelationHeader. subst client. simpl. rewrite Hcfg, Hurl'.
    destruct patterns as [|pattern patterns]; [done|]. simpl length. simpl orb.
    apply excludedBy_plain; [done| by destruct hostname |done]. }
  split.
  - intros Hcfg. split; intros ->.
    + rewrite (Hgeneral _ Hcfg); [by vm_compute|done|done|].
      by repeat constructor.
    + rewrite (Hgeneral _ Hcfg); [by vm_compute|done|done|].
      by repeat constructor.
  - intros patterns Hcfg Hnil Hh Hplain. eexists. split; [by apply Hgeneral|].
    rewrite negb_false_iff, existsb_exists. split.
    + intros (pattern & Hin & Htest). exists pattern. split; [by apply list_elem_of_In|].
      apply test_globRegex; [|done].
      by apply (proj1 (Forall_forall _ _) Hplain), list_elem_of_In.
    + intros (pattern & Hin & Hglob). exists pattern. split; [by apply list_elem_of_In|].
      apply test_globRegex; [|done].
      by apply (proj1 (Forall_forall _ _) Hplain).
Qed.
End Exclusion.

(** The theorem of C3 for a request to "api.excluded.com". *)
Lemma canIncludeCorrelationHeader_patterns_witness :
  let urlHostname := fun _ : string => Some "api.excluded.com" in
  let client := Some {| TelemetryClient.config := Some Examples.config |} in
  let requestUrl := "https://api.excluded.com/v1" in
  (Config.correlationHeaderExcludedDomains Examples.config = Some ["*.excluded.com"] →
     ("api.excluded.com" = "api.excluded.com" →
        canIncludeCorrelationHeader urlHostname client requestUrl = Some false) ∧
     ("api.excluded.com" = "excluded.com.evil.org" →
        canIncludeCorrelationHeader urlHostname client requestUrl = Some true)) ∧
  (∀ patterns,
     Config.correlationHeaderExcludedDomains Examples.config = Some patterns →
     patterns ≠ [] → "api.excluded.com" ≠ "" →
     Forall (fun pattern => plainPattern pattern = true) patterns →
     ∃ include,
       canIncludeCorrelationHeader urlHostname client requestUrl = Some include ∧
       (include = false
        ↔ ∃ pattern, pattern ∈ patterns ∧ globContains pattern "api.excluded.com")).
Proof.
  apply (canIncludeCorrelationHeader_patterns (fun _ => Some "api.excluded.com")
           Examples.config "https://api.excluded.com/v1" "api.excluded.com").
  - discriminate.
  - reflexivity.
Defined.

(** The two host names of C3, evaluated. *)
Example canIncludeCorrelationHeader_examples :
  let client := Some {| TelemetryClient.config := Some Examples.config |} in
  canIncludeCorrelationHeader (fun _ => Some "api.excluded.com") client
    "https://api.excluded.com/v1" = Some false ∧
  canIncludeCorrelationHeader (fun _ => Some "excluded.com.evil.org") client
    "https://excluded.com.evil.org/" = Some true.
Proof. by vm_compute. Qed.

End PatternFacts.

(** ** The parsed stack *)

Module StackFacts.
Import EnvelopeFactory Vocabulary.

Abbreviation T := exceptionParsedStackThreshold.

Lemma totalSize_app a b : totalSize (a ++ b) = totalSize a + totalSize b.
Proof. unfold totalSize. induction a as [|f a IH]; simpl; [done|]. rewrite IH. lia. Qed.

Lemma outer_0 ps : outer ps 0 = [].
Proof. unfold outer. by rewrite take_0, Nat.sub_0_r, drop_all. Qed.

Lemma outer_half ps k : (2 * k = length ps)%nat → outer ps k = ps.
Proof.
  intros Hk. unfold outer. replace (length ps - k)%nat with k by lia.
  apply take_drop.
Qed.

(** One more frame on each side. *)
Lemma totalSize_outer_S ps k fl fr :
  (2 * k + 2 ≤ length ps)%nat →
  ps !! k = Some fl → ps !! (length ps - 1 - k)%nat = Some fr →
  totalSize (outer ps (S k))
  = totalSize (outer ps k) + (StackFrame.sizeInBytes fl + StackFrame.sizeInBytes fr).
Proof.
  intros Hk Hl Hr. unfold outer.
  rewrite (take_S_r _ _ _ Hl).
  replace (length ps - k)%nat with (S (length ps - S k)) by lia.
  replace (length ps - 1 - k)%nat with (length ps - S k)%nat in Hr by lia.
  rewrite (drop_S _ _ _ Hr). rewrite !totalSize_app. simpl. lia.
Qed.

Lemma sizeAt_lookup ps (i : nat) f :
  ps !! i = Some f → sizeAt ps (Z.of_nat i) = Normal (StackFrame.sizeInBytes f).
Proof.
  intros Hf. unfold sizeAt.
  destruct (Z.ltb_spec (Z.of_nat i) 0); [lia|]. by rewrite Nat2Z.id, Hf.
Qed.

Lemma splice_outer ps (j : nat) :
  (2 * j + 2 ≤ length ps)%nat ∨ (j = 0%nat) →
  splice ps (Z.of_nat j) ((Z.of_nat (length ps) - 1 - Z.of_nat j) - Z.of_nat j + 1)
  = outer ps j.
Proof.
  intros Hj. unfold splice, outer.
  destruct (Z.ltb_spec (Z.of_nat j) 0); [lia|].
  f_equal; [f_equal; lia|]. f_equal. lia.
Qed.

Lemma totalSize_nil_threshold : totalSize [] ≤ T.
Proof. by vm_compute. Qed.

(** How the loop ends when it is entered with [left = k]: either nothing is
    removed and the pointers have met, every pair of frames having fitted, or
    the frames between the two accepted runs are removed and what is left
    fits. The [length ps] turns the loop is given are enough. *)
Lemma truncateLoop_spec ps fuel k :
  (2 * k ≤ length ps)%nat → (length ps ≤ 2 * k + 2 * fuel)%nat →
  totalSize (outer ps (Nat.pred k)) ≤ T →
  ((1 ≤ k)%nat → totalSize (outer ps k) ≤ T) →
  ∃ r,
    truncateLoop fuel ps (Z.of_nat k) (Z.of_nat (length ps) - 1 - Z.of_nat k)
      (totalSize (outer ps k)) (Z.of_nat (Nat.pred k))
      (Z.of_nat (length ps) - 1 - Z.of_nat (Nat.pred k))
    = Normal r ∧
    ((r = ps ∧ ∃ k', (length ps ≤ 2 * k' + 1)%nat ∧ (2 * k' ≤ length ps)%nat ∧
                     ((1 ≤ k')%nat → totalSize (outer ps k') ≤ T)) ∨
     (∃ k', (2 * k' + 2 ≤ length ps)%nat ∧ r = outer ps (Nat.pred k') ∧
            totalSize r ≤ T ∧ T < totalSize (outer ps (S k')) ∧
            totalSize (outer ps k') ≤ T)).
Proof.
  revert k. induction fuel as [|fuel IH]; intros k Hk Hfuel Hacc Hcur.
  - exists ps. split; [done|]. left. split; [done|]. exists k. repeat split; [lia|lia|done].
  - cbn [truncateLoop].
    destruct (Z.ltb_spec (Z.of_nat k) (Z.of_nat (length ps) - 1 - Z.of_nat k)) as [Hlt|Hge].
    + assert (2 * k + 2 ≤ length ps)%nat as Hroom by lia.
      destruct (lookup_lt_is_Some_2 ps k) as [fl Hl]; [lia|].
      destruct (lookup_lt_is_Some_2 ps (length ps - 1 - k)%nat) as [fr Hr]; [lia|].
      rewrite (sizeAt_lookup _ _ _ Hl).
      replace (Z.of_nat (length ps) - 1 - Z.of_nat k)
        with (Z.of_nat (length ps - 1 - k)) by lia.
      rewrite (sizeAt_lookup _ _ _ Hr). rewrite !bind_Normal.
      rewrite <- (totalSize_outer_S ps k fl fr Hroom Hl Hr).
      destruct (Z.gtb_spec (totalSize (outer ps (S k))) T) as [Hover|Hfit].
      * eexists. split; [done|]. right.
        replace (Z.of_nat (length ps) - 1 - Z.of_nat (Nat.pred k) - Z.of_nat (Nat.pred k) + 1)
          with ((Z.of_nat (length ps) - 1 - Z.of_nat (Nat.pred k))
                - Z.of_nat (Nat.pred k) + 1) by lia.
        rewrite splice_outer by (destruct k; simpl; lia).
        exists k. split; [done|]. split; [done|]. split; [done|]. split; [lia|].
        destruct k as [|k]; [rewrite outer_0; apply totalSize_nil_threshold|].
        apply Hcur. lia.
      * replace (Z.of_nat k + 1) with (Z.of_nat (S k)) by lia.
        replace (Z.of_nat (length ps - 1 - k) - 1)
          with (Z.of_nat (length ps) - 1 - Z.of_nat (S k)) by lia.
        replace (Z.of_nat k) with (Z.of_nat (Nat.pred (S k))) at 2 by done.
        replace (Z.of_nat (length ps - 1 - k))
          with (Z.of_nat (length ps) - 1 - Z.of_nat (Nat.pred (S k))) by (simpl; lia).
        apply IH; [lia|lia| |lia].
        simpl. destruct k as [|k]; [by rewrite outer_0|]. apply Hcur. lia.
    + exists ps. split; [done|]. left. split; [done|].
      exists k. repeat split; [lia|lia|done].
Qed.

(** [truncate] returns, and either keeps every frame or keeps the same number
    of frames from both ends, in which case what it keeps fits. *)
Lemma truncate_spec ps :
  ∃ r,
    truncate ps = Normal r ∧
    ((r = ps ∧ ∃ k', (length ps ≤ 2 * k' + 1)%nat ∧ (2 * k' ≤ length ps)%nat ∧
                     ((1 ≤ k')%nat → totalSize (outer ps k') ≤ T)) ∨
     (∃ k', (2 * k' + 2 ≤ length ps)%nat ∧ r = outer ps (Nat.pred k') ∧
            totalSize r ≤ T ∧ T < totalSize (outer ps (S k')) ∧
            totalSize (outer ps k') ≤ T)).
Proof.
  unfold truncate.
  destruct (truncateLoop_spec ps (length ps) 0) as (r & Hr & Hspec); [lia|lia| |lia|].
  { simpl. rewrite outer_0. apply totalSize_nil_threshold. }
  exists r. split; [|done].
  rewrite outer_0 in Hr. simpl in Hr. by rewrite Z.sub_0_r in Hr.
Qed.

(** With an even number of frames over the threshold, frames are removed. *)
Lemma truncate_even_fits ps r :
  Nat.Even (length ps) → T < totalSize ps → truncate ps = Normal r → totalSize r ≤ T.
Proof.
  intros [h Heven] Hover Hr.
  destruct (truncate_spec ps) as (r' & Hr' & [[-> (k' & Hk1 & Hk2 & Hfit)]|(k' & _ & _ & Hfit & _)]).
  - assert (2 * k' = length ps)%nat as Hhalf by lia.
    rewrite (outer_half _ _ Hhalf) in Hfit.
    destruct k' as [|k']; [|lia].
    destruct ps; [|simpl in Hhalf; lia]. revert Hover. by vm_compute.
  - congruence.
Qed.

(** The frames that remain are a run from the start and a run to the end of
    the parsed frames, in their order; when frames were removed, the remaining
    ones fit. *)
Lemma truncate_shape ps r :
  truncate ps = Normal r →
  ∃ i j, (i ≤ j)%nat ∧ r = take i ps ++ drop j ps ∧ (r ≠ ps → totalSize r ≤ T).
Proof.
  intros Hr.
  destruct (truncate_spec ps) as (r' & Hr' & [[-> _]|(k' & Hk & -> & Hfit & _)]).
  - assert (r = ps) as -> by congruence.
    exists 0%nat, 0%nat. rewrite take_0, drop_0. split; [done|]. by split.
  - assert (r = outer ps (Nat.pred k')) as -> by congruence.
    exists (Nat.pred k'), (length ps - Nat.pred k')%nat.
    split; [lia|]. by split.
Qed.

Section Parsing.
Variable largeNumberText : Z → string.

(** The text "undefined", read at the index one past the last line, is no
    frame. *)
Lemma regex_test_undefined : StackFrame.regex_test None = false.
Proof. by vm_compute. Qed.

(** A line that passes the test makes a frame. *)
Lemma new_returns line level :
  StackFrame.regex_test (Some line) = true →
  ∃ frame, StackFrame.new largeNumberText (Some line) level = Normal frame.
Proof.
  unfold StackFrame.regex_test, Regex.test, StackFrame.new. simpl.
  intros [caps Hcaps]%bool_decide_eq_true. rewrite Hcaps. eauto.
Qed.

(** The parsing loop returns, with the sizes of the frames it adds summed. *)
Lemma parseFrames_returns lines level total parsedStack :
  ∃ added,
    parseFrames largeNumberText (map Some lines ++ [None]) level total parsedStack
    = Normal (parsedStack ++ added, total + totalSize added).
Proof.
  revert level total parsedStack.
  induction lines as [|line lines IH]; intros level total parsedStack.
  - cbn [map app parseFrames]. rewrite regex_test_undefined.
    exists []. by rewrite app_nil_r, Z.add_0_r.
  - cbn [map app parseFrames].
    destruct (StackFrame.regex_test (Some line)) eqn:Htest.
    + destruct (new_returns line level Htest) as [frame ->]. rewrite bind_Normal.
      destruct (IH (level + 1) (total + StackFrame.sizeInBytes frame)
                  (parsedStack ++ [frame])) as [added ->].
      exists (frame :: added). rewrite <- app_assoc. simpl. do 2 f_equal. lia.
    + apply IH.
Qed.

(** [parseStack] returns on every string. The frames it returns are a run
    from the top and a run to the bottom of the frames it parsed, in their
    order; they fit the threshold whenever frames were removed, and whenever
    the number of parsed frames is even. *)
Lemma parseStack_spec stack :
  ∃ parsed r,
    parseFrames largeNumberText (map Some (JsString.split StackFrame.LF stack) ++ [None]) 0 0 []
    = Normal (parsed, totalSize parsed) ∧
    parseStack largeNumberText (Some stack) = Normal (Some r) ∧
    (∃ i j, (i ≤ j)%nat ∧ r = take i parsed ++ drop j parsed) ∧
    (r ≠ parsed → totalSize r ≤ T) ∧
    (Nat.Even (length parsed) → totalSize r ≤ T).
Proof.
  destruct (parseFrames_returns (JsString.split StackFrame.LF stack) 0 0 [])
    as [parsed Hparsed].
  simpl in Hparsed. rewrite Z.add_0_l in Hparsed.
  exists parsed. unfold parseStack. rewrite Hparsed, bind_Normal.
  destruct (Z.gtb_spec (totalSize parsed) T) as [Hover|Hfit].
  - destruct (truncate_spec parsed) as (r & Hr & _). rewrite Hr, bind_Normal.
    exists r. split; [done|]. split; [done|].
    destruct (truncate_shape parsed r Hr) as (i & j & Hij & Hshape & Hfit).
    split; [by exists i, j|]. split; [done|].
    intros Heven. by apply (truncate_even_fits parsed).
  - exists parsed. split; [done|]. split; [done|].
    split; [exists 0%nat, 0%nat; by rewrite take_0, drop_0|]. split; [done|]. intros _. lia.
Qed.
End Parsing.

(** C1 (the code departs from it): the stack of three long lines parses to
    three frames of 11078 bytes each; the loop sums the two outer frames,
    which fit, the pointers meet on the middle frame, and [parseStack] returns
    all three frames, 33234 bytes, above the threshold of 32768. *)
Theorem parseStack_odd_stack_exceeds_threshold (largeNumberText : Z → string) :
  measure (parseStack largeNumberText (Some Examples.threeLongLines)) = Some (3%nat, 33234) ∧
  exceptionParsedStackThreshold = 32768 ∧
  exceptionParsedStackThreshold < 33234.
Proof. by vm_compute. Qed.

(** An ordinary stack: the message line is no frame, and the three frames
    come out in order with levels 0, 1 and 2. *)
Example parseStack_sample (largeNumberText : Z → string) :
  parseStack largeNumberText (Some Examples.sampleStack)
  = Normal
      (Some
         [ StackFrame.mk 0 "foo" "at foo (/app/lib/a.js:10:5)" "/app/lib/a.js"
             (JsNumber.IInt 10) 104;
           StackFrame.mk 1 "<no_method>" "at /app/lib/b.js:7:1" "/app/lib/b.js"
             (JsNumber.IInt 7) 104;
           StackFrame.mk 2 "Object.<anonymous>" "at Object.<anonymous> (c.js:123:45)"
             "c.js" (JsNumber.IInt 123) 119 ]).
Proof. by vm_compute. Qed.

(** With a fourth line the second pair does not fit, and the splice removes
    the accepted outer pair as well: nothing is left. *)
Example parseStack_four_long_lines (largeNumberText : Z → string) :
  measure (parseStack largeNumberText (Some Examples.fourLongLines)) = Some (0%nat, 0).
Proof. by vm_compute. Qed.

End StackFacts.

(** * Further properties *)

(** ** trim and getCookie *)

Module TrimFacts.
Import JsString Util Vocabulary CookieVocabulary.

Lemma trimStart_spec s :
  ∃ a, s = a +:+ trimStart s ∧ allSpace a = true ∧ startsWithSpace (trimStart s) = false.
Proof.
  induction s as [|c s (a & Hs & Ha & Hn)]; simpl.
  - by exists "".
  - destruct (isSpace c) eqn:Hc.
    + exists (String c a). simpl. rewrite Hc, Ha. by rewrite <- Hs.
    + exists "". simpl. auto.
Qed.

Lemma trimEnd_spec s :
  ∃ b, s = trimEnd s +:+ b ∧ allSpace b = true ∧ endsWithSpace (trimEnd s) = false.
Proof.
  induction s as [|c s (b & Hs & Hb & Hn)]; simpl.
  - by exists "".
  - destruct (trimEnd s) as [|d t] eqn:Ht.
    + destruct (isSpace c) eqn:Hc.
      * exists (String c b). simpl in *. rewrite Hc, Hb. by rewrite <- Hs.
      * exists b. simpl in *. subst s. auto.
    + exists b. split; [simpl; by rewrite Hs at 1|]. split; [done|].
      simpl in *. done.
Qed.

Lemma trimEnd_startsWithSpace s :
  startsWithSpace s = false → startsWithSpace (trimEnd s) = false.
Proof.
  destruct s as [|c s]; simpl; [done|]. intros Hc.
  destruct (trimEnd s); simpl; by rewrite ?Hc.
Qed.

Lemma trimStart_id s : startsWithSpace s = false → trimStart s = s.
Proof. destruct s as [|c s]; simpl; [done|]. by intros ->. Qed.

Lemma trimEnd_id s : endsWithSpace s = false → trimEnd s = s.
Proof.
  induction s as [|c s IH]; simpl; [done|].
  destruct s as [|d s].
  - simpl. by intros ->.
  - intros H. by rewrite (IH H).
Qed.

(** X3: [trim] of a non-string is empty. On a string it removes a run of
    white space at each end and nothing else: the result neither starts nor
    ends with white space, trimming again changes nothing, and a string
    without white space at its ends is returned as it is. *)
Theorem trim_spec :
  trim None = "" ∧
  ∀ s, (∃ a b, s = a +:+ trim (Some s) +:+ b ∧ allSpace a = true ∧ allSpace b = true) ∧
       startsWithSpace (trim (Some s)) = false ∧
       endsWithSpace (trim (Some s)) = false ∧
       trim (Some (trim (Some s))) = trim (Some s) ∧
       (startsWithSpace s = false → endsWithSpace s = false → trim (Some s) = s).
Proof.
  split; [done|]. intros s. unfold trim.
  destruct (trimStart_spec s) as (a & Hs & Ha & Hn).
  destruct (trimEnd_spec (trimStart s)) as (b & Hs' & Hb & Hn').
  split; [|split; [|split; [|split]]].
  - exists a, b. by rewrite <- Hs', <- Hs.
  - by apply trimEnd_startsWithSpace.
  - done.
  - rewrite (trimStart_id (trimEnd (trimStart s))) by by apply trimEnd_startsWithSpace.
    by apply trimEnd_id.
  - intros H1 H2. rewrite (trimStart_id s H1). by apply trimEnd_id.
Qed.
End TrimFacts.

Module CookieFacts.
Import JsString Util Vocabulary CookieVocabulary CorrelationFacts.


Lemma contains_pair c n v :
  contains c n = false → contains c v = false → contains c "=" = false →
  contains c (cookiePair (n, v)) = false.
Proof.
  intros Hn Hv Hc. unfold cookiePair. cbn [fst snd].
  by rewrite !contains_app, Hn, Hc, Hv.
Qed.

(** The components [split(";")] finds in a header: the first cookie, then
    every other one behind a blank. *)
Lemma split_cookieHeader p rest :
  wellFormed (p :: rest) →
  split ";" (cookieHeader (p :: rest))
  = cookiePair p :: ((fun q => " " +:+ cookiePair q) <$> rest).
Proof.
  revert p. induction rest as [|q rest IH]; intros [n v] Hok.
  - apply Forall_cons in Hok as [[(Hn & _ & _) (Hv & _)] _].
    unfold cookieHeader. simpl. apply split_no_sep. by apply contains_pair.
  - apply Forall_cons in Hok as [[(Hn & _ & _) (Hv & _)] Hrest].
    specialize (IH q Hrest).
    change (cookieHeader ((n, v) :: q :: rest))
      with (cookiePair (n, v) +:+ String ";" (" " +:+ cookieHeader (q :: rest))).
    rewrite split_app, (split_no_sep _ (cookiePair (n, v))) by by apply contains_pair.
    destruct (split_prefix ";" " " (cookieHeader (q :: rest)) eq_refl)
      as (x & xs & Hx & ->).
    rewrite IH in Hx. by injection Hx as <- <-.
Qed.

Lemma trimStart_allSpace a s : allSpace a = true → trimStart (a +:+ s) = trimStart s.
Proof.
  induction a as [|c a IH]; simpl; [done|].
  intros [Hc Ha]%andb_prop. rewrite Hc. auto.
Qed.

Lemma endsWithSpace_app a b : b ≠ "" → endsWithSpace (a +:+ b) = endsWithSpace b.
Proof.
  intros Hb. induction a as [|c a IH]; simpl; [done|].
  destruct (a +:+ b) eqn:Hab; [|done].
  destruct a; simpl in Hab; [done|discriminate].
Qed.

Lemma startsWithSpace_pair n v :
  startsWithSpace n = false → startsWithSpace (cookiePair (n, v)) = false.
Proof. unfold cookiePair. by destruct n. Qed.

Lemma endsWithSpace_pair n v :
  endsWithSpace v = false → endsWithSpace (cookiePair (n, v)) = false.
Proof.
  intros Hv. unfold cookiePair. cbn [fst snd].
  rewrite endsWithSpace_app by done. by destruct v.
Qed.

(** A component of the header trims to its cookie. *)
Lemma trim_component a n v :
  allSpace a = true → cookieName n → cookieValue v →
  trim (Some (a +:+ cookiePair (n, v))) = cookiePair (n, v).
Proof.
  intros Ha (_ & _ & Hn) (_ & Hv). unfold trim.
  rewrite trimStart_allSpace by done.
  rewrite TrimFacts.trimStart_id by by apply startsWithSpace_pair.
  apply TrimFacts.trimEnd_id. by apply endsWithSpace_pair.
Qed.

(** Names without [=] are compared as a whole. *)
Lemma startsWith_pair n v name :
  contains "=" n = false → contains "=" name = false →
  startsWith (cookiePair (n, v)) (name +:+ "=") = bool_decide (n = name).
Proof.
  unfold cookiePair. cbn [fst snd].
  change ("=" +:+ v) with (String "=" v). revert name.
  induction n as [|c n IH]; intros [|d name];
    cbn [startsWith String.append contains].
  - intros _ _. by rewrite Ascii.eqb_refl.
  - intros _ [Hd _]%orb_false_elim.
    rewrite Ascii.eqb_sym, Hd. by case_bool_decide.
  - intros [Hc _]%orb_false_elim _. rewrite Hc. by case_bool_decide.
  - intros [_ Hn]%orb_false_elim [_ Hname]%orb_false_elim.
    rewrite (IH name Hn Hname).
    destruct (Ascii.eqb_spec c d) as [->|Hcd]; simpl.
    + apply bool_decide_ext. split; [by intros ->|by intros [= ->]].
    + case_bool_decide; [|done]. congruence.
Qed.

Lemma substring_skip a b : String.substring (String.length a) (String.length b) (a +:+ b) = b.
Proof.
  induction a as [|c a IH]; simpl; [|done].
  induction b as [|c b IH]; simpl; [done|]. by rewrite IH.
Qed.

(** The value read off a matching component, whose untrimmed text is at
    least as long as the trimmed one. *)
Lemma substring_value name v (k : nat) :
  (String.length (cookiePair (name, v)) ≤ k)%nat →
  substring (cookiePair (name, v)) (Z.of_nat (String.length (name +:+ "="))) (Z.of_nat k) = v.
Proof.
  unfold cookiePair, substring. cbn [fst snd]. intros Hk.
  rewrite <- append_assoc in *.
  set (key := name +:+ "=") in *.
  rewrite (length_append key v) in *.
  replace (Z.to_nat _) with (String.length key) by lia.
  replace (Z.to_nat _) with (String.length v) by lia.
  apply substring_skip.
Qed.

Lemma isEmpty_pair n v : isEmpty (cookiePair (n, v)) = false.
Proof. unfold cookiePair. by destruct n. Qed.

Lemma length_component a n v :
  (String.length (cookiePair (n, v)) ≤ String.length (a +:+ cookiePair (n, v)))%nat.
Proof. rewrite length_append. lia. Qed.

(** A turn of the loop on a cookie of another name goes on to the next. *)
Lemma getCookieLoop_skip name a n v rest :
  allSpace a = true → cookieName n → cookieValue v → cookieName name → n ≠ name →
  getCookieLoop (name +:+ "=") ((a +:+ cookiePair (n, v)) :: rest)
  = getCookieLoop (name +:+ "=") rest.
Proof.
  intros Ha Hn Hv Hname Hne. cbn [getCookieLoop].
  rewrite trim_component by done.
  rewrite startsWith_pair by (apply Hn || apply Hname).
  rewrite bool_decide_eq_false_2 by done. by rewrite andb_false_r.
Qed.

(** A turn of the loop on a cookie of the name returns its value. *)
Lemma getCookieLoop_hit name a v rest :
  allSpace a = true → cookieName name → cookieValue v →
  getCookieLoop (name +:+ "=") ((a +:+ cookiePair (name, v)) :: rest) = v.
Proof.
  intros Ha Hname Hv. cbn [getCookieLoop].
  rewrite trim_component by done.
  rewrite startsWith_pair by apply Hname.
  rewrite bool_decide_eq_true_2 by done. rewrite isEmpty_pair. cbn [negb andb].
  apply substring_value, length_component.
Qed.

Lemma getCookieLoop_spaced name value before after rest :
  wellFormed (before ++ (name, value) :: after) → name ∉ before.*1 →
  getCookieLoop (name +:+ "=")
    (((fun q => " " +:+ cookiePair q) <$> (before ++ (name, value) :: after)) ++ rest)
  = value.
Proof.
  induction before as [|[n v] before IH]; intros Hok Hnot.
  - apply Forall_cons in Hok as [[Hn Hv] _]. by apply getCookieLoop_hit.
  - apply Forall_cons in Hok as [[Hn Hv] Hok].
    assert (cookieName name ∧ cookieValue value) as [Hname _].
    { apply Forall_app in Hok as [_ Hok]. by apply Forall_cons in Hok as [? _]. }
    apply not_elem_of_cons in Hnot as [Hne Hnot]. cbn [fst] in Hne.
    cbn [fmap list_fmap app].
    change (list_fmap _ _ ?f ?l) with (f <$> l).
    rewrite getCookieLoop_skip by done. by apply IH.
Qed.

Lemma getCookieLoop_spaced_absent name l :
  cookieName name → wellFormed l → name ∉ l.*1 →
  getCookieLoop (name +:+ "=") ((fun q => " " +:+ cookiePair q) <$> l) = "".
Proof.
  intros Hname. induction l as [|[n v] l IH]; intros Hok Hnot; [done|].
  apply Forall_cons in Hok as [[Hn Hv] Hok].
  apply not_elem_of_cons in Hnot as [Hne Hnot]. cbn [fst] in Hne.
  cbn [fmap list_fmap]. change (list_fmap _ _ ?f ?l) with (f <$> l).
  rewrite getCookieLoop_skip by done. by apply IH.
Qed.

Lemma name_test name :
  name ≠ "" → negb (isEmpty name) && (0 <? Z.of_nat (String.length name)) = true.
Proof. by destruct name. Qed.

(** X1: in a Cookie header of well-formed cookies joined by "; ", [getCookie]
    returns the value of the first cookie that has the given non-empty name,
    whatever cookies follow it. *)
Theorem getCookie_finds_first_cookie name value before after :
  name ≠ "" →
  wellFormed (before ++ (name, value) :: after) →
  name ∉ before.*1 →
  getCookie name (Some (cookieHeader (before ++ (name, value) :: after))) = value.
Proof.
  intros Hne Hok Hnot. unfold getCookie. rewrite name_test by done.
  destruct before as [|[n v] before].
  - cbn [app] in *. rewrite split_cookieHeader by done.
    apply Forall_cons in Hok as [[Hn Hv] _].
    by apply (getCookieLoop_hit name "" value).
  - cbn [app] in *. rewrite split_cookieHeader by done.
    pose proof Hok as Hok'.
    apply Forall_cons in Hok as [[Hn Hv] Hok].
    assert (cookieName name ∧ cookieValue value) as [Hname _].
    { apply Forall_app in Hok as [_ Hok]. by apply Forall_cons in Hok as [? _]. }
    apply not_elem_of_cons in Hnot as [Hnn Hnot]. cbn [fst] in Hnn.
    rewrite (getCookieLoop_skip name "" n v) by done.
    rewrite <- (app_nil_r (_ <$> _)). by apply getCookieLoop_spaced.
Qed.

(** X2: [getCookie] returns the empty string for the empty name, for a
    missing header, and, on a well-formed header, for a cookie name (a name
    without ";" and "=" and without white space in front) that no cookie of
    the header has. *)
Theorem getCookie_absent :
  (∀ cookie, getCookie "" cookie = "") ∧
  (∀ name, getCookie name None = "") ∧
  (∀ name l,
     cookieName name → wellFormed l → name ∉ l.*1 →
     getCookie name (Some (cookieHeader l)) = "").
Proof.
  split; [by intros [?|]|]. split; [done|].
  intros name l Hname Hok Hnot. unfold getCookie.
  destruct (negb (isEmpty name) && _); [|done].
  destruct l as [|[n v] l].
  - cbn. unfold trim. by destruct (name +:+ "=").
  - rewrite split_cookieHeader by done.
    apply Forall_cons in Hok as [[Hn Hv] Hok].
    apply not_elem_of_cons in Hnot as [Hnn Hnot]. cbn [fst] in Hnn.
    rewrite (getCookieLoop_skip name "" n v) by done.
    by apply getCookieLoop_spaced_absent.
Qed.

Lemma getCookie_finds_first_cookie_witness :
  getCookie "ai_user"
    (Some (cookieHeader ([("ai_session", "s1|2|3")] ++ ("ai_user", "u7|2020") :: [("ai_user", "old")])))
  = "u7|2020".
Proof.
  apply getCookie_finds_first_cookie.
  - done.
  - repeat constructor.
  - by vm_compute; intros [= ?]%list_elem_of_singleton.
Defined.
End CookieFacts.

(** ** int32ArrayToBase64 *)

Module Base64Facts.
Import JsString JsNumber Util Vocabulary Base64Vocabulary.

Lemma triple_ind {A : Type} (P : list A → Prop) :
  P [] → (∀ a, P [a]) → (∀ a b, P [a; b]) →
  (∀ a b c l, P l → P (a :: b :: c :: l)) → ∀ l, P l.
Proof.
  intros H0 H1 H2 H3.
  assert (∀ l, P l ∧ (∀ a, P (a :: l)) ∧ (∀ a b, P (a :: b :: l))) as H.
  { induction l as [|x l (IH0 & IH1 & IH2)]; [done|].
    split; [apply IH1|]. split; [intros a; apply IH2|]. intros a b. by apply H3. }
  intros l. apply H.
Qed.

Lemma forall_range (P : Z → bool) (n : Z) :
  forallb P (seqZ 0 n) = true → ∀ z, 0 ≤ z < n → P z = true.
Proof.
  intros H z Hz. rewrite forallb_forall in H. apply H.
  apply list_elem_of_In, elem_of_seqZ. lia.
Qed.

Lemma forall_range2 (P : Z → Z → bool) (n m : Z) :
  forallb (fun x => forallb (P x) (seqZ 0 m)) (seqZ 0 n) = true →
  ∀ x y, 0 ≤ x < n → 0 ≤ y < m → P x y = true.
Proof.
  intros H x y Hx Hy.
  apply (forall_range (P x) m); [|done].
  by apply (forall_range (fun x => forallb (P x) (seqZ 0 m)) n).
Qed.

(** The toBase64 text is the digits of the groups, then the padding. *)
Lemma toBase64_groups bytes :
  Buffer.toBase64 bytes = text (Buffer.digit <$> groups bytes) +:+ padding bytes.
Proof.
  induction bytes as [| | |b0 b1 b2 rest IH] using triple_ind; try done.
  cbn [Buffer.toBase64 groups fmap list_fmap text]. rewrite IH.
  cbn [String.append]. do 4 f_equal.
  unfold padding. cbn [length].
  replace (S (S (S (length rest))) mod 3)%nat with (length rest mod 3)%nat; [done|].
  change (S (S (S (length rest)))) with (3 + length rest)%nat.
  rewrite Nat.add_comm.
  by rewrite <- (Nat.Div0.mod_add (length rest) 1 3).
Qed.

Lemma digit_not_pad n : Buffer.digit n ≠ Buffer.pad.
Proof.
  unfold Buffer.digit.
  destruct (nth_in_or_default (Z.to_nat n) Buffer.alphabet "A"%char) as [Hin| ->]; [|done].
  revert Hin. generalize (nth (Z.to_nat n) Buffer.alphabet "A"%char). intros c Hin.
  apply list_elem_of_In in Hin. revert c Hin. apply Forall_forall.
  repeat (constructor; [done|]). constructor.
Qed.

Lemma contains_digits l : contains Buffer.pad (text (Buffer.digit <$> l)) = false.
Proof.
  induction l as [|x l IH]; [done|].
  cbn [fmap list_fmap text contains]. rewrite IH, orb_false_r.
  apply Ascii.eqb_neq, digit_not_pad.
Qed.

Lemma indexOfFrom_app i c body t :
  contains c body = false →
  indexOfFrom i c (body +:+ t) = indexOfFrom (i + Z.of_nat (String.length body)) c t.
Proof.
  revert i. induction body as [|d body IH]; intros i; cbn [contains String.append String.length].
  - intros _. f_equal. lia.
  - intros [Hd Hbody]%orb_false_elim. cbn [indexOfFrom]. rewrite Hd, IH by done.
    f_equal. lia.
Qed.

Lemma substring_0_app a b : String.substring 0 (String.length a) (a +:+ b) = a.
Proof.
  induction a as [|c a IH]; cbn [String.length String.append String.substring].
  - by destruct b.
  - by rewrite IH.
Qed.

(** What [s.substr(0, s.indexOf("="))] keeps of base64 text: nothing when
    there is no padding, and the text before the padding otherwise. *)
Lemma substr_unpadded bytes :
  let s := Buffer.toBase64 bytes in
  substr s 0 (indexOf s "=")
  = if decide (length bytes mod 3 = 0)%nat then ""
    else text (Buffer.digit <$> groups bytes).
Proof.
  cbn zeta. rewrite toBase64_groups.
  set (body := text (Buffer.digit <$> groups bytes)).
  unfold indexOf. rewrite indexOfFrom_app by apply contains_digits.
  unfold padding, substr. cbn [Z.ltb Z.compare].
  rewrite Z.min_l by lia. rewrite Z.sub_0_r. change (Z.to_nat 0) with 0%nat.
  pose proof (Nat.mod_upper_bound (length bytes) 3 ltac:(done)) as Hlt.
  destruct (length bytes mod 3)%nat as [|[|[|k]]] eqn:Hmod; [| | |lia].
  - rewrite decide_True by done. cbn [indexOfFrom].
    rewrite Z.min_l by lia. change (Z.to_nat ((-1) `max` 0)) with 0%nat. by destruct (body +:+ "").
  - rewrite decide_False by done. cbn [indexOfFrom Ascii.eqb Bool.eqb]. cbn [andb].
    rewrite length_append. rewrite Z.min_l by lia.
    replace (Z.to_nat _) with (String.length body) by lia.
    apply substring_0_app.
  - rewrite decide_False by done. cbn [indexOfFrom Ascii.eqb Bool.eqb]. cbn [andb].
    rewrite length_append. rewrite Z.min_l by lia.
    replace (Z.to_nat _) with (String.length body) by lia.
    apply substring_0_app.
Qed.

Lemma sextet_digit x : isSextet x → sextet (Buffer.digit x) = Some x.
Proof.
  intros Hx.
  apply (forall_range
           (fun x => bool_decide (sextet (Buffer.digit x) = Some x)) 64) in Hx;
    [by apply bool_decide_eq_true_1 in Hx|].
  by vm_compute.
Qed.

Lemma sextets_digits l :
  Forall isSextet l → sextets (text (Buffer.digit <$> l)) = Some l.
Proof.
  induction 1 as [|x l Hx Hl IH]; [done|].
  cbn [fmap list_fmap text sextets]. change (list_fmap _ _ ?f ?l) with (f <$> l).
  by rewrite sextet_digit, IH.
Qed.

Lemma firstChecks_all :
  forallb (fun x => forallb (firstChecks x) (seqZ 0 256)) (seqZ 0 256) = true.
Proof. vm_compute. reflexivity. Qed.

Lemma secondChecks_all :
  forallb (fun x => forallb (secondChecks x) (seqZ 0 256)) (seqZ 0 256) = true.
Proof. vm_compute. reflexivity. Qed.

Lemma group_first b0 b1 :
  isByte b0 → isByte b1 →
  isSextet (Z.shiftr b0 2) ∧ isSextet (s1 b0 b1) ∧
  Z.lor (Z.shiftl (Z.shiftr b0 2) 2) (Z.shiftr (s1 b0 b1) 4) = b0 ∧
  isSextet (Z.shiftl (Z.land b0 3) 4) ∧
  Z.lor (Z.shiftl (Z.shiftr b0 2) 2) (Z.shiftr (Z.shiftl (Z.land b0 3) 4) 4) = b0 ∧
  Z.land (s1 b0 b1) 15 = Z.shiftr b1 4.
Proof.
  intros H0 H1.
  pose proof (forall_range2 firstChecks 256 256 firstChecks_all b0 b1 H0 H1) as Hc.
  unfold firstChecks in Hc. unfold isSextet.
  rewrite !andb_true_iff, !Z.eqb_eq, !Z.ltb_lt, !Z.leb_le in Hc. tauto.
Qed.

Lemma group_second b1 b2 :
  isByte b1 → isByte b2 →
  isSextet (s2 b1 b2) ∧ isSextet (Z.land b2 63) ∧
  Z.lor (Z.shiftl (Z.shiftr b1 4) 4) (Z.shiftr (s2 b1 b2) 2) = b1 ∧
  Z.lor (Z.shiftl (Z.land (s2 b1 b2) 3) 6) (Z.land b2 63) = b2 ∧
  isSextet (Z.shiftl (Z.land b1 15) 2) ∧
  Z.lor (Z.shiftl (Z.shiftr b1 4) 4) (Z.shiftr (Z.shiftl (Z.land b1 15) 2) 2) = b1.
Proof.
  intros H1 H2.
  pose proof (forall_range2 secondChecks 256 256 secondChecks_all b1 b2 H1 H2) as Hc.
  unfold secondChecks in Hc. unfold isSextet.
  rewrite !andb_true_iff, !Z.eqb_eq, !Z.ltb_lt, !Z.leb_le in Hc. tauto.
Qed.

(** The groups of a list of bytes are six-bit values, and read back as the bytes. *)
Lemma decode_groups bytes :
  Forall isByte bytes →
  Forall isSextet (groups bytes) ∧ decode (groups bytes) = Some bytes.
Proof.
  induction bytes as [|b0|b0 b1|b0 b1 b2 rest IH] using triple_ind.
  - done.
  - intros [H0 _]%Forall_cons.
    destruct (group_first b0 0 H0 ltac:(done)) as (? & _ & _ & ? & ? & _).
    cbn [groups decode]. split; [by repeat (apply Forall_cons; split; [done|])|].
    by f_equal; f_equal.
  - intros [H0 [H1 _]%Forall_cons]%Forall_cons.
    destruct (group_first b0 b1 H0 H1) as (? & ? & ? & _ & _ & Hs1).
    destruct (group_second b1 0 H1 ltac:(done)) as (_ & _ & _ & _ & ? & ?).
    cbn [groups decode]. fold (s1 b0 b1).
    split; [by repeat (apply Forall_cons; split; [done|])|].
    rewrite Hs1. by repeat f_equal.
  - intros [H0 [H1 [H2 Hrest]%Forall_cons]%Forall_cons]%Forall_cons.
    destruct (IH Hrest) as [IHs IHd].
    destruct (group_first b0 b1 H0 H1) as (? & ? & ? & _ & _ & Hs1).
    destruct (group_second b1 b2 H1 H2) as (? & ? & ? & ? & _ & _).
    cbn [groups decode]. fold (s1 b0 b1) (s2 b1 b2).
    split; [by repeat (apply Forall_cons; split; [done|])|].
    rewrite IHd. cbn [mbind option_bind]. rewrite Hs1. by repeat f_equal.
Qed.

Lemma fromBase64_groups bytes :
  Forall isByte bytes → fromBase64 (text (Buffer.digit <$> groups bytes)) = Some bytes.
Proof.
  intros Hb. destruct (decode_groups bytes Hb) as [Hs Hd].
  unfold fromBase64. by rewrite sextets_digits.
Qed.

Lemma length_text l : String.length (text l) = length l.
Proof. induction l as [|c l IH]; cbn; [done|by rewrite IH]. Qed.

Lemma length_groups bytes :
  Z.of_nat (length (groups bytes)) = (4 * Z.of_nat (length bytes) + 2) / 3.
Proof.
  induction bytes as [|b0|b0 b1|b0 b1 b2 rest IH] using triple_ind; try done.
  cbn [groups length].
  replace (4 * Z.of_nat (S (S (S (length rest)))) + 2)
    with ((4 * Z.of_nat (length rest) + 2) + 4 * 3) by lia.
  rewrite Z.div_add by done. lia.
Qed.

Lemma land_255_byte x : isByte (Z.land x 255).
Proof.
  unfold isByte. change 255 with (Z.ones 8). rewrite Z.land_ones by done.
  apply Z.mod_pos_bound. done.
Qed.

Lemma land_255_idemp x : Z.land (Z.land x 255) 255 = Z.land x 255.
Proof. by rewrite <- Z.land_assoc. Qed.

Lemma codeUnits_app a b : codeUnits (a +:+ b) = codeUnits a ++ codeUnits b.
Proof. induction a as [|c a IH]; cbn; [done|by rewrite IH]. Qed.

Lemma codeUnits_fromCharCode x : isByte x → codeUnits (fromCharCode x) = [x].
Proof.
  unfold isByte. intros Hx. unfold fromCharCode, code. cbn [codeUnits].
  rewrite N_ascii_embedding by lia.
  f_equal. lia.
Qed.

Lemma fromBinary_int32AsString v : Buffer.fromBinary (int32AsString v) = bytes4 v.
Proof.
  unfold Buffer.fromBinary, int32AsString, toChar.
  rewrite !codeUnits_app, !codeUnits_fromCharCode by apply land_255_byte.
  cbn [app fmap list_fmap]. unfold bytes4. by rewrite !land_255_idemp.
Qed.

Lemma fromBinary_app a b :
  Buffer.fromBinary (a +:+ b) = Buffer.fromBinary a ++ Buffer.fromBinary b.
Proof. unfold Buffer.fromBinary. by rewrite codeUnits_app, fmap_app. Qed.

Lemma join_empty_cons x l : join "" (x :: l) = x +:+ join "" l.
Proof. destruct l; cbn [join]; [by rewrite append_empty_r|done]. Qed.

(** The bytes the buffer holds: four for each number, the most significant first. *)
Lemma fromBinary_join array :
  Buffer.fromBinary (join "" (int32AsString <$> array)) = bytesOf array.
Proof.
  induction array as [|v array IH]; [done|].
  cbn [fmap list_fmap]. change (list_fmap _ _ ?f ?l) with (f <$> l).
  rewrite join_empty_cons, fromBinary_app, fromBinary_int32AsString, IH. done.
Qed.

Lemma bytesOf_bytes array : Forall isByte (bytesOf array).
Proof.
  induction array as [|v array IH]; [by constructor|].
  unfold bytesOf. cbn [mbind list_bind]. apply Forall_app. split; [|done].
  unfold bytes4. repeat (apply Forall_cons; split; [apply land_255_byte|]). done.
Qed.

Lemma length_bytesOf array : length (bytesOf array) = (4 * length array)%nat.
Proof.
  induction array as [|v array IH]; [done|].
  unfold bytesOf in *. cbn [mbind list_bind]. rewrite length_app, IH. cbn. lia.
Qed.

Lemma bytesOf_mod array : (length (bytesOf array) mod 3 = length array mod 3)%nat.
Proof.
  rewrite length_bytesOf.
  replace (4 * length array)%nat with (length array + length array * 3)%nat by lia.
  by rewrite Nat.Div0.mod_add.
Qed.

(** X4: [int32ArrayToBase64] returns the empty string for an array whose
    length is a multiple of three: the base64 text of its bytes has no
    padding, so [indexOf("=")] is -1 and [substr(0, -1)] is empty. *)
Theorem int32ArrayToBase64_multiple_of_three array :
  (length array mod 3 = 0)%nat → int32ArrayToBase64 array = "".
Proof.
  intros Hmod. unfold int32ArrayToBase64. cbn zeta.
  rewrite fromBinary_join.
  etrans; [apply (substr_unpadded (bytesOf array))|].
  rewrite decide_True; [done|]. by rewrite bytesOf_mod.
Qed.

Lemma int32ArrayToBase64_multiple_of_three_witness :
  int32ArrayToBase64 [ofZ 1; ofZ (-2); ofZ 305419896] = "".
Proof. apply int32ArrayToBase64_multiple_of_three. reflexivity. Defined.

(** X5: for an array whose length is not a multiple of three, the result of
    [int32ArrayToBase64] has no [=], reads back as base64 without padding to
    the bytes of the numbers taken as 32-bit integers, most significant byte
    first, and has (16 n + 2) / 3 characters for n numbers. *)
Theorem int32ArrayToBase64_round_trip array :
  (length array mod 3 ≠ 0)%nat →
  contains "=" (int32ArrayToBase64 array) = false ∧
  fromBase64 (int32ArrayToBase64 array) = Some (bytesOf array) ∧
  Z.of_nat (String.length (int32ArrayToBase64 array))
  = (16 * Z.of_nat (length array) + 2) / 3.
Proof.
  intros Hmod.
  assert (int32ArrayToBase64 array = text (Buffer.digit <$> groups (bytesOf array))) as ->.
  { unfold int32ArrayToBase64. cbn zeta. rewrite fromBinary_join.
    etrans; [apply (substr_unpadded (bytesOf array))|].
    rewrite decide_False; [done|]. by rewrite bytesOf_mod. }
  split; [apply contains_digits|]. split; [apply fromBase64_groups, bytesOf_bytes|].
  rewrite length_text, length_fmap, length_groups, length_bytesOf.
  f_equal. lia.
Qed.

Lemma int32ArrayToBase64_round_trip_witness :
  contains "=" (int32ArrayToBase64 [ofZ 305419896; ofZ (-1)]) = false ∧
  fromBase64 (int32ArrayToBase64 [ofZ 305419896; ofZ (-1)])
  = Some (bytesOf [ofZ 305419896; ofZ (-1)]) ∧
  Z.of_nat (String.length (int32ArrayToBase64 [ofZ 305419896; ofZ (-1)]))
  = (16 * Z.of_nat (length [ofZ 305419896; ofZ (-1)]) + 2) / 3.
Proof. apply int32ArrayToBase64_round_trip. by vm_compute. Defined.

Example int32ArrayToBase64_examples :
  int32ArrayToBase64 [ofZ 305419896; ofZ (-1)] = "EjRWeP////8" ∧
  int32ArrayToBase64 [ofZ 0] = "AAAAAA" ∧
  int32ArrayToBase64 [] = "".
Proof. by vm_compute. Qed.
End Base64Facts.

(** ** Rounding to a double *)

Module NumberFacts.
Import JsNumber NumberVocabulary.
Local Open Scope Q_scope.

Lemma pow2_pos e : 0 < pow2 e.
Proof. apply Qpower_0_lt. done. Qed.

Lemma pow2_add a b : pow2 (a + b) == pow2 a * pow2 b.
Proof. apply Qpower_plus. done. Qed.

Lemma pow2_Z e : (0 <= e)%Z → pow2 e == inject_Z (2 ^ e).
Proof. intros He. unfold pow2. by rewrite Zpower_Qpower. Qed.

Lemma pow2_le a b : (a <= b)%Z → pow2 a <= pow2 b.
Proof. intros H. apply Qpower_le_compat_l; [done|]. done. Qed.

Lemma pow2_lt a b : (a < b)%Z → pow2 a < pow2 b.
Proof. intros H. apply Qpower_lt_compat_l; [done|]. reflexivity. Qed.

Lemma pow2_S a : pow2 (a + 1) == 2 * pow2 a.
Proof. rewrite pow2_add. change (pow2 1) with 2. ring. Qed.

(** A positive integer lies between two powers of two. *)
Lemma log2_bounds (n : Z) :
  (0 < n)%Z → pow2 (Z.log2 n) <= inject_Z n ∧ inject_Z n < pow2 (Z.log2 n + 1).
Proof.
  intros Hn. destruct (Z.log2_spec n Hn) as [Hlo Hhi].
  pose proof (Z.log2_nonneg n) as H0.
  rewrite !pow2_Z by lia. rewrite <- Zle_Qle, <- Zlt_Qlt.
  replace (Z.log2 n + 1)%Z with (Z.succ (Z.log2 n)) by lia. done.
Qed.

Lemma Q_num_den (a : Q) : a * inject_Z (Zpos (Qden a)) == inject_Z (Qnum a).
Proof. destruct a as [n d]. unfold Qeq, Qmult, inject_Z. simpl. lia. Qed.

(** [floorLog2] finds the power of two at or below a positive rational. *)
Lemma floorLog2_spec (a : Q) :
  0 < a → pow2 (floorLog2 a) <= a ∧ a < pow2 (floorLog2 a + 1).
Proof.
  intros Ha.
  assert (0 < Qnum a)%Z as Hn by (destruct a as [n d]; unfold Qlt in Ha; simpl in *; lia).
  destruct (log2_bounds (Qnum a) Hn) as [Hn1 Hn2].
  destruct (log2_bounds (Zpos (Qden a)) ltac:(done)) as [Hd1 Hd2].
  pose proof (Q_num_den a) as Hnd.
  set (ln := Z.log2 (Qnum a)) in *. set (ld := Z.log2 (Zpos (Qden a))) in *.
  set (n := inject_Z (Qnum a)) in *. set (d := inject_Z (Zpos (Qden a))) in *.
  assert (pow2 (ln - ld) * pow2 ld == pow2 ln) as He0.
  { rewrite <- pow2_add. by replace (ln - ld + ld)%Z with ln by lia. }
  pose proof (pow2_S ln) as HSn. pose proof (pow2_S ld) as HSd.
  pose proof (pow2_S (ln - ld)) as HSe.
  pose proof (pow2_S (ln - ld - 1)) as HSe'.
  replace (ln - ld - 1 + 1)%Z with (ln - ld)%Z in HSe' by lia.
  pose proof (pow2_pos ld) as Pd. pose proof (pow2_pos (ln - ld)) as Pe.
  pose proof (pow2_pos (ln - ld - 1)) as Pe'.
  assert (a < pow2 (ln - ld + 1)) as Hup.
  { rewrite HSe. apply Qnot_le_lt. intros Hc. nra. }
  assert (pow2 (ln - ld - 1) <= a) as Hlow.
  { apply Qnot_lt_le. intros Hc. nra. }
  unfold floorLog2. fold ln ld.
  destruct (Qle_bool (pow2 (ln - ld)) a) eqn:Hcmp.
  - apply Qle_bool_iff in Hcmp. done.
  - split; [done|]. replace (ln - ld - 1 + 1)%Z with (ln - ld)%Z by lia.
    apply Qnot_le_lt. intros Hc. apply Qle_bool_iff in Hc. congruence.
Qed.

Lemma floorLog2_unique (a : Q) (e : Z) :
  pow2 e <= a → a < pow2 (e + 1) → floorLog2 a = e.
Proof.
  intros Hlo Hhi.
  assert (0 < a) as Ha by (pose proof (pow2_pos e); lra).
  destruct (floorLog2_spec a Ha) as [Hlo' Hhi'].
  destruct (Z.lt_trichotomy (floorLog2 a) e) as [Hlt|[Heq|Hgt]]; [|done|].
  - pose proof (pow2_le (floorLog2 a + 1) e ltac:(lia)). lra.
  - pose proof (pow2_le (e + 1) (floorLog2 a) ltac:(lia)). lra.
Qed.

Lemma Qabs_nonneg_eq (q : Q) : 0 <= q → Qabs q = q.
Proof.
  destruct q as [n d]. unfold Qle, Qabs. simpl. intros H.
  f_equal. apply Z.abs_eq. lia.
Qed.

(** Rounding a positive rational: a whole number of units in the last place,
    within half a unit of the rational. *)
Lemma round53_pos (q : Q) :
  0 < q →
  ∃ m : Z,
    round53 q == inject_Z m * pow2 (ulpExp q) ∧
    q / pow2 (ulpExp q) - (1 # 2) <= inject_Z m ∧
    inject_Z m <= q / pow2 (ulpExp q) + (1 # 2).
Proof.
  intros Hq. unfold round53.
  assert (Qcompare q 0 = Gt) as -> by by apply Qgt_alt.
  cbv zeta. rewrite (Qabs_nonneg_eq q) by lra. fold (ulpExp q).
  set (scaled := q / pow2 (ulpExp q)).
  pose proof (Qfloor_le scaled) as Hfl. pose proof (Qlt_floor scaled) as Hfu.
  rewrite inject_Z_plus in Hfu. change (inject_Z 1) with 1 in Hfu.
  clearbody scaled.
  destruct (Qcompare_spec (scaled - inject_Z (Qfloor scaled)) (1 # 2)) as [He|Hl|Hg].
  - destruct (Z.even (Qfloor scaled)).
    + exists (Qfloor scaled). rewrite Qred_correct. split; [reflexivity|]. lra.
    + exists (Qfloor scaled + 1)%Z. rewrite Qred_correct. split; [reflexivity|].
      rewrite inject_Z_plus. change (inject_Z 1) with 1. lra.
  - exists (Qfloor scaled). rewrite Qred_correct. split; [reflexivity|]. lra.
  - exists (Qfloor scaled + 1)%Z. rewrite Qred_correct. split; [reflexivity|].
    rewrite inject_Z_plus. change (inject_Z 1) with 1. lra.
Qed.

(** Rounding does not cross a whole number of units in the last place. *)
Lemma round53_ge (q : Q) (lo : Z) :
  0 < q → inject_Z lo * pow2 (ulpExp q) <= q →
  inject_Z lo * pow2 (ulpExp q) <= round53 q.
Proof.
  intros Hq Hlo. destruct (round53_pos q Hq) as (m & -> & Hm1 & Hm2).
  pose proof (pow2_pos (ulpExp q)) as Hu.
  set (u := pow2 (ulpExp q)) in *.
  assert (q / u * u == q) as Hdiv by (field; lra).
  set (scaled := q / u) in *.
  assert (inject_Z lo <= scaled) as Hlo'.
  { apply Qnot_lt_le. intros Hc. nra. }
  assert (lo <= m)%Z as Hlm.
  { apply Z.lt_succ_r, Z.succ_lt_mono. rewrite Zlt_Qlt.
    rewrite <- !Z.add_1_r, !inject_Z_plus. change (inject_Z 1) with 1. lra. }
  rewrite Zle_Qle in Hlm. nra.
Qed.

Lemma round53_le (q : Q) (hi : Z) :
  0 < q → q <= inject_Z hi * pow2 (ulpExp q) →
  round53 q <= inject_Z hi * pow2 (ulpExp q).
Proof.
  intros Hq Hhi. destruct (round53_pos q Hq) as (m & -> & Hm1 & Hm2).
  pose proof (pow2_pos (ulpExp q)) as Hu.
  set (u := pow2 (ulpExp q)) in *.
  assert (q / u * u == q) as Hdiv by (field; lra).
  set (scaled := q / u) in *.
  assert (scaled <= inject_Z hi) as Hhi'.
  { apply Qnot_lt_le. intros Hc. nra. }
  assert (m <= hi)%Z as Hmh.
  { apply Z.lt_succ_r. rewrite Zlt_Qlt.
    rewrite <- !Z.add_1_r, !inject_Z_plus. change (inject_Z 1) with 1. lra. }
  rewrite Zle_Qle in Hmh. nra.
Qed.

Lemma round53_zero (q : Q) : q == 0 → round53 q = 0.
Proof.
  intros H0. unfold round53.
  by assert (Qcompare q 0 = Eq) as -> by by apply Qeq_alt.
Qed.

Lemma round53_nonneg (q : Q) : 0 <= q → 0 <= round53 q.
Proof.
  intros Hq. destruct (Qlt_le_dec 0 q) as [Hpos|Hle].
  - pose proof (round53_ge q 0 Hpos) as H.
    assert (inject_Z 0 * pow2 (ulpExp q) == 0) as H0 by ring.
    rewrite H0 in H. apply H. lra.
  - rewrite round53_zero; lra.
Qed.

(** Rounding does not exceed a power of two the rational does not exceed. *)
Lemma round53_le_pow2 (q : Q) (k : Z) :
  (-1074 <= k)%Z → q <= pow2 k → round53 q <= pow2 k.
Proof.
  intros Hk Hq. pose proof (pow2_pos k) as Pk.
  destruct (Qlt_le_dec 0 q) as [Hpos|Hle].
  - destruct (floorLog2_spec q Hpos) as [Hlo _].
    assert (floorLog2 q <= k)%Z as He.
    { apply Z.le_ngt. intros Hc.
      pose proof (pow2_le (k + 1) (floorLog2 q) ltac:(lia)).
      pose proof (pow2_lt k (k + 1) ltac:(lia)). lra. }
    assert (ulpExp q <= k)%Z as Hu by (unfold ulpExp; lia).
    assert (pow2 k == inject_Z (2 ^ (k - ulpExp q)) * pow2 (ulpExp q)) as Hk2.
    { rewrite <- pow2_Z by lia. rewrite <- pow2_add.
      by replace (k - ulpExp q + ulpExp q)%Z with k by lia. }
    rewrite Hk2 in *. by apply round53_le.
  - destruct (Qlt_le_dec q 0) as [Hneg|Hz].
    + (* a negative rational rounds to a negative number *)
      unfold round53. assert (Qcompare q 0 = Lt) as -> by by apply Qlt_alt.
      cbv beta zeta iota. rewrite Qred_correct. fold (ulpExp (Qabs q)).
      pose proof (pow2_pos (ulpExp (Qabs q))) as Pu.
      assert (0 <= Qfloor (Qabs q / pow2 (ulpExp (Qabs q))))%Z as Hf.
      { change 0%Z with (Qfloor 0). apply Qfloor_resp_le.
        pose proof (Qabs_nonneg q). apply Qle_shift_div_l; lra. }
      set (f := Qfloor _) in *.
      set (m := match _ ?= _ with Lt => _ | _ => _ end).
      assert (0 <= m)%Z as Hm.
      { subst m. destruct (_ ?= _); [destruct (Z.even _)|..]; lia. }
      rewrite Zle_Qle in Hm. change (inject_Z 0) with 0 in Hm.
      pose proof (Qmult_le_0_compat _ _ Hm (Qlt_le_weak _ _ Pu)). lra.
    + rewrite round53_zero; lra.
Qed.

Lemma Qfloor_unique (q : Q) (z : Z) :
  inject_Z z <= q → q < inject_Z z + 1 → Qfloor q = z.
Proof.
  intros Hlo Hhi.
  pose proof (Qfloor_le q) as H1. pose proof (Qlt_floor q) as H2.
  rewrite inject_Z_plus in H2. change (inject_Z 1) with 1 in H2.
  assert (inject_Z z < inject_Z (Qfloor q) + 1) as Ha by lra.
  assert (inject_Z (Qfloor q) < inject_Z z + 1) as Hb by lra.
  change 1 with (inject_Z 1) in Ha, Hb. rewrite <- inject_Z_plus in Ha, Hb.
  rewrite <- Zlt_Qlt in Ha, Hb. lia.
Qed.

Lemma pow2_half e : pow2 (e - 1) == pow2 e * (1 # 2).
Proof.
  pose proof (pow2_S (e - 1)) as H. replace (e - 1 + 1)%Z with e in H by lia. lra.
Qed.

(** Rounding moves a positive rational by half a unit in the last place at most. *)
Lemma round53_error (q : Q) :
  0 < q →
  q - pow2 (ulpExp q - 1) <= round53 q ∧ round53 q <= q + pow2 (ulpExp q - 1).
Proof.
  intros Hq. destruct (round53_pos q Hq) as (m & -> & Hm1 & Hm2).
  rewrite pow2_half. pose proof (pow2_pos (ulpExp q)) as Hu.
  set (u := pow2 (ulpExp q)) in *.
  assert (q / u * u == q) as Hdiv by (field; lra).
  set (scaled := q / u) in *. split; nra.
Qed.

(** A rational that is a whole number of units in the last place is a double. *)
Lemma round53_exact (q : Q) (k : Z) :
  0 < q → q == inject_Z k * pow2 (ulpExp q) → round53 q == q.
Proof.
  intros Hq Hk.
  pose proof (round53_ge q k Hq ltac:(lra)). pose proof (round53_le q k Hq ltac:(lra)). lra.
Qed.

(** The unit in the last place below a power of two. *)
Lemma ulpExp_le (q : Q) (e : Z) :
  0 < q → q < pow2 (e + 1) → (-1074 <= e - 52)%Z → (ulpExp q <= e - 52)%Z.
Proof.
  intros Hq Hlt He. destruct (floorLog2_spec q Hq) as [Hlo _].
  assert (floorLog2 q <= e)%Z.
  { apply Z.le_ngt. intros Hc.
    pose proof (pow2_le (e + 1) (floorLog2 q) ltac:(lia)). lra. }
  unfold ulpExp. lia.
Qed.

(** Whole numbers below 2^53 are doubles. *)
Lemma round53_whole (q : Q) (k : Z) :
  q == inject_Z k → (0 <= k < 2 ^ 53)%Z → round53 q == inject_Z k.
Proof.
  intros Hq Hk. destruct (Z.eq_dec k 0%Z) as [->|Hne]; [by rewrite round53_zero|].
  assert (0 < q) as Hpos.
  { rewrite Hq. change 0 with (inject_Z 0). rewrite <- Zlt_Qlt. lia. }
  assert (ulpExp q <= 0)%Z as Hu.
  { pose proof (ulpExp_le q 52 Hpos) as H.
    assert (q < pow2 (52 + 1)) as Hlt.
    { rewrite Hq, pow2_Z by done. rewrite <- Zlt_Qlt. lia. }
    specialize (H Hlt ltac:(done)). lia. }
  rewrite <- Hq.
  apply (round53_exact _ (k * 2 ^ (- ulpExp q))); [done|].
  rewrite inject_Z_mult, <- pow2_Z by lia. rewrite <- Qmult_assoc, <- pow2_add.
  replace (- ulpExp q + ulpExp q)%Z with 0%Z by lia.
  change (pow2 0) with 1. rewrite Hq. ring.
Qed.

(** The floor of a rounded quotient of whole numbers is their integer quotient,
    when the quotient is below [2^(e+1)] and the divisor well below the
    inverse of the unit in the last place. *)
Lemma floor_round53_div (n c e : Z) :
  (0 <= n)%Z → (0 < c)%Z → (n < c * 2 ^ (e + 1))%Z → (0 <= e <= 52)%Z →
  inject_Z c * pow2 (e - 53) < 1 →
  Qfloor (round53 (inject_Z n / inject_Z c)) = (n / c)%Z.
Proof.
  intros Hn Hc Hbound He Hfine.
  pose proof (Z.div_mod n c ltac:(lia)) as Hdm.
  pose proof (Z.mod_pos_bound n c Hc) as Hmod.
  set (k := (n / c)%Z) in *. set (f := (n mod c)%Z) in *.
  assert (0 <= k)%Z as Hk by (subst k; apply Z.div_pos; lia).
  assert (0 < inject_Z c) as Hc' by (change 0 with (inject_Z 0); rewrite <- Zlt_Qlt; lia).
  assert (inject_Z n / inject_Z c == inject_Z k + inject_Z f / inject_Z c) as Hq.
  { rewrite Hdm, inject_Z_plus, inject_Z_mult. field. lra. }
  assert (inject_Z n / inject_Z c < pow2 (e + 1)) as Hlt.
  { apply Qlt_shift_div_r; [done|]. rewrite pow2_Z by lia.
    rewrite <- inject_Z_mult, <- Zlt_Qlt. lia. }
  assert (k < 2 ^ 53)%Z as Hk53.
  { assert (k < 2 ^ (e + 1))%Z as Hke by (subst k; apply Z.div_lt_upper_bound; lia).
    assert (2 ^ (e + 1) <= 2 ^ 53)%Z by (apply Z.pow_le_mono_r; lia). lia. }
  destruct (Z.eq_dec f 0%Z) as [Hf0|Hfne].
  - assert (inject_Z n / inject_Z c == inject_Z k) as Hq'.
    { rewrite Hq, Hf0. field. lra. }
    rewrite (round53_whole _ k Hq') by lia. apply Qfloor_Z.
  - assert (0 < inject_Z f) as Hf by (change 0 with (inject_Z 0); rewrite <- Zlt_Qlt; lia).
    assert (inject_Z f + 1 <= inject_Z c) as Hfc.
    { change 1 with (inject_Z 1). rewrite <- inject_Z_plus, <- Zle_Qle. lia. }
    assert (0 <= inject_Z k) as Hk' by (change 0 with (inject_Z 0); rewrite <- Zle_Qle; lia).
    set (q := inject_Z n / inject_Z c) in *.
    assert (0 < inject_Z f / inject_Z c) as Hfrac by (apply Qlt_shift_div_l; lra).
    assert (inject_Z f / inject_Z c + 1 / inject_Z c <= 1) as Hfrac'.
    { assert (inject_Z f / inject_Z c + 1 / inject_Z c == (inject_Z f + 1) / inject_Z c) as ->
        by (field; lra).
      apply Qle_shift_div_r; lra. }
    assert (0 < q) as Hqpos by lra.
    pose proof (ulpExp_le q e Hqpos Hlt ltac:(lia)) as Hu.
    apply Qfloor_unique.
    + pose proof (round53_ge q (k * 2 ^ (- ulpExp q)) Hqpos) as Hge.
      assert (inject_Z (k * 2 ^ (- ulpExp q)) * pow2 (ulpExp q) == inject_Z k) as Hgrid.
      { rewrite inject_Z_mult, <- pow2_Z by lia. rewrite <- Qmult_assoc, <- pow2_add.
        replace (- ulpExp q + ulpExp q)%Z with 0%Z by lia. change (pow2 0) with 1. ring. }
      rewrite Hgrid in Hge. apply Hge. lra.
    + destruct (round53_error q Hqpos) as [_ Hup].
      pose proof (pow2_le (ulpExp q - 1) (e - 53) ltac:(lia)) as Hpe.
      assert (pow2 (e - 53) < 1 / inject_Z c) as Hinv.
      { apply Qlt_shift_div_l; [done|]. lra. }
      lra.
Qed.
(** A whole number below 2^53 is a double, and is read back as it is. *)
Lemma floor_ofQ_whole (z : Z) : (0 <= z < 2 ^ 53)%Z → floor (ofQ (inject_Z z)) = IInt z.
Proof.
  intros Hz. pose proof (round53_whole (inject_Z z) z ltac:(reflexivity) Hz) as Hr.
  unfold ofQ.
  assert (Qle_bool (pow2 1024) (Qabs (round53 (inject_Z z))) = false) as ->.
  { apply not_true_is_false. rewrite Qle_bool_iff, Hr.
    rewrite Qabs_pos by (change 0%Q with (inject_Z 0); rewrite <- Zle_Qle; lia).
    pose proof (pow2_lt 53 1024 ltac:(lia)) as Hp. rewrite (pow2_Z 53) in Hp by lia.
    assert (inject_Z z < inject_Z (2 ^ 53))%Q by (rewrite <- Zlt_Qlt; lia). lra. }
  cbn [floor]. f_equal. rewrite Hr. apply Qfloor_Z.
Qed.
End NumberFacts.

(** ** random32, randomu32 and w3cTraceId *)

Module TraceIdFacts.
Import JsString JsNumber Util NumberVocabulary TraceVocabulary NumberFacts.

Lemma wrap32_range z : - 2 ^ 31 ≤ wrap32 z < 2 ^ 31.
Proof. unfold wrap32. pose proof (Z.mod_pos_bound (z + 2 ^ 31) (2 ^ 32)). lia. Qed.

Lemma wrap32_small z : - 2 ^ 31 ≤ z < 2 ^ 31 → wrap32 z = z.
Proof. intros Hz. unfold wrap32. rewrite Z.mod_small; lia. Qed.

Lemma toInt32_range x : - 2 ^ 31 ≤ toInt32 x < 2 ^ 31.
Proof. destruct x; cbn [toInt32]; [done..|apply wrap32_range]. Qed.

Lemma ofQ_small (q : Q) :
  (0 <= q)%Q → (q <= 16)%Q → ofQ q = Finite (round53 q).
Proof.
  intros H0 H16. unfold ofQ. cbv zeta.
  pose proof (round53_nonneg q H0) as Hn.
  pose proof (round53_le_pow2 q 4 ltac:(done) H16) as Hle.
  rewrite Qabs_nonneg_eq by done.
  destruct (Qle_bool (pow2 1024) (round53 q)) eqn:Hc; [|done].
  apply Qle_bool_iff in Hc.
  assert (pow2 4 < pow2 1024)%Q by by apply pow2_lt. lra.
Qed.

(** The index of the clock-sequence digit, for a draw in [0, 1). *)
Lemma clock_index (r : Q) :
  (0 <= r)%Q → (r < 1)%Q →
  8 ≤ toInt32 (add (ofZ 8) (mul (Finite r) (ofZ 4))) ≤ 12.
Proof.
  intros H0 H1. unfold mul, add, ofZ.
  change (inject_Z 4) with 4%Q. change (inject_Z 8) with 8%Q.
  rewrite (ofQ_small (r * 4)) by lra.
  pose proof (round53_nonneg (r * 4) ltac:(lra)) as Hn.
  pose proof (round53_le_pow2 (r * 4) 2 ltac:(done) ltac:(change (pow2 2) with 4%Q; lra)) as Hle.
  change (pow2 2) with 4%Q in Hle.
  set (v := round53 (r * 4)) in *.
  rewrite (ofQ_small (8 + v)) by lra.
  set (q := (8 + v)%Q).
  assert (8 <= q)%Q as Hq8 by (subst q; lra).
  assert (q <= 12)%Q as Hq12 by (subst q; lra).
  assert (floorLog2 q = 3) as Hlog.
  { apply floorLog2_unique; [change (pow2 3) with 8%Q; lra|].
    change (pow2 (3 + 1)) with 16%Q. lra. }
  assert (ulpExp q = -49) as Hu by (unfold ulpExp; rewrite Hlog; done).
  pose proof (round53_ge q (8 * 2 ^ 49) ltac:(lra)) as Hge.
  pose proof (round53_le q (12 * 2 ^ 49) ltac:(lra)) as Hle'.
  rewrite Hu in Hge, Hle'.
  assert (inject_Z (8 * 2 ^ 49) * pow2 (-49) == 8)%Q as E8 by reflexivity.
  assert (inject_Z (12 * 2 ^ 49) * pow2 (-49) == 12)%Q as E12 by reflexivity.
  rewrite E8 in Hge. rewrite E12 in Hle'.
  specialize (Hge Hq8). specialize (Hle' Hq12).
  set (w := round53 q) in *. cbn [toInt32]. unfold integerPart.
  assert (Qle_bool 0 w = true) as -> by (apply Qle_bool_iff; lra).
  assert (8 ≤ Qfloor w ≤ 12) as Hf.
  { split.
    - change 8 with (Qfloor 8). by apply Qfloor_resp_le.
    - change 12 with (Qfloor 12). by apply Qfloor_resp_le. }
  rewrite wrap32_small; lia.
Qed.

Lemma hexAt_digit (i : Z) :
  0 ≤ i < 16 → ∃ c, hexAt i = String c "" ∧ isHexChar c = true.
Proof.
  intros Hi.
  assert (i = 0 ∨ i = 1 ∨ i = 2 ∨ i = 3 ∨ i = 4 ∨ i = 5 ∨ i = 6 ∨ i = 7 ∨ i = 8 ∨ i = 9
          ∨ i = 10 ∨ i = 11 ∨ i = 12 ∨ i = 13 ∨ i = 14 ∨ i = 15) as Hcases by lia.
  repeat (destruct Hcases as [->|Hcases]; [eexists; split; reflexivity|]).
  subst i. eexists; split; reflexivity.
Qed.

Lemma hexAt_nibble (x : Z) :
  ∃ c, hexAt (Z.land x 15) = String c "" ∧ isHexChar c = true.
Proof.
  apply hexAt_digit. change 15 with (Z.ones 4). rewrite Z.land_ones by done.
  apply Z.mod_pos_bound. done.
Qed.

Lemma hexAt_clock (i : Z) :
  8 ≤ i ≤ 12 → ∃ c, hexAt i = String c "" ∧ c ∈ ["8"; "9"; "a"; "b"; "c"]%char.
Proof.
  intros Hi.
  assert (i = 8 ∨ i = 9 ∨ i = 10 ∨ i = 11 ∨ i = 12) as Hcases by lia.
  clear Hi.
  repeat (destruct Hcases as [->|Hcases];
          [eexists; split; [reflexivity|rewrite !elem_of_cons; auto 10]|]).
  subst i. eexists; split; [reflexivity|rewrite !elem_of_cons; auto 10].
Qed.

(** The eight characters of one turn are hexadecimal digits. *)
Lemma octet_hex (tmp : Z) :
  ∃ c0 c1 c2 c3 c4 c5 c6 c7,
    octet tmp
    = String c0 (String c1 (String c2 (String c3 (String c4 (String c5 (String c6 (String c7 "")))))))
    ∧ isHexChar c0 = true ∧ isHexChar c1 = true ∧ isHexChar c2 = true
    ∧ isHexChar c3 = true ∧ isHexChar c4 = true ∧ isHexChar c5 = true
    ∧ isHexChar c6 = true ∧ isHexChar c7 = true.
Proof.
  unfold octet.
  destruct (hexAt_nibble tmp) as (c0 & -> & H0).
  destruct (hexAt_nibble (Z.shiftr tmp 4)) as (c1 & -> & H1).
  destruct (hexAt_nibble (Z.shiftr tmp 8)) as (c2 & -> & H2).
  destruct (hexAt_nibble (Z.shiftr tmp 12)) as (c3 & -> & H3).
  destruct (hexAt_nibble (Z.shiftr tmp 16)) as (c4 & -> & H4).
  destruct (hexAt_nibble (Z.shiftr tmp 20)) as (c5 & -> & H5).
  destruct (hexAt_nibble (Z.shiftr tmp 24)) as (c6 & -> & H6).
  destruct (hexAt_nibble (Z.shiftr tmp 28)) as (c7 & -> & H7).
  by exists c0, c1, c2, c3, c4, c5, c6, c7.
Qed.

Lemma isHexChar_4 : isHexChar "4" = true.
Proof. done. Qed.

Lemma isHexChar_clock c : c ∈ ["8"; "9"; "a"; "b"; "c"]%char → isHexChar c = true.
Proof. intros H. repeat (apply elem_of_cons in H as [->|H]; [done|]). by apply elem_of_nil in H. Qed.

Section TraceId.
Variable Math_random : nat → Q.

(** X7: when the fifth draw is in [0, 1), [w3cTraceId] takes five draws and
    returns 32 lower-case hexadecimal characters with a "4" at index 12 and
    one of 8, 9, a, b, c at index 16; [isValidW3CId] accepts the result. *)
Theorem w3cTraceId_valid (draws : nat) :
  (0 <= Math_random (draws + 4)%nat)%Q → (Math_random (draws + 4)%nat < 1)%Q →
  ∃ id,
    w3cTraceId Math_random draws = (id, (draws + 5)%nat) ∧
    String.length id = 32%nat ∧
    allHex id = true ∧
    String.get 12 id = Some "4"%char ∧
    (∃ c, String.get 16 id = Some c ∧ c ∈ ["8"; "9"; "a"; "b"; "c"]%char) ∧
    isValidW3CId id = true.
Proof.
  intros H0 H1. unfold w3cTraceId. cbn [octLoop]. unfold random32.
  destruct (octet_hex (toInt32 (mul (ofZ 4294967296) (Finite (Math_random draws)))))
    as (a0 & a1 & a2 & a3 & a4 & a5 & a6 & a7 & -> & ? & ? & ? & ? & ? & ? & ? & ?).
  destruct (octet_hex (toInt32 (mul (ofZ 4294967296) (Finite (Math_random (S draws))))))
    as (b0 & b1 & b2 & b3 & b4 & b5 & b6 & b7 & -> & ? & ? & ? & ? & ? & ? & ? & ?).
  destruct (octet_hex (toInt32 (mul (ofZ 4294967296) (Finite (Math_random (S (S draws)))))))
    as (c0 & c1 & c2 & c3 & c4 & c5 & c6 & c7 & -> & ? & ? & ? & ? & ? & ? & ? & ?).
  destruct (octet_hex (toInt32 (mul (ofZ 4294967296) (Finite (Math_random (S (S (S draws))))))))
    as (d0 & d1 & d2 & d3 & d4 & d5 & d6 & d7 & -> & ? & ? & ? & ? & ? & ? & ? & ?).
  replace (S (S (S (S draws)))) with (draws + 4)%nat by lia.
  destruct (hexAt_clock _ (clock_index _ H0 H1)) as (k & -> & Hk).
  replace (draws + 5)%nat with (S (draws + 4)) by lia.
  match goal with
  | |- ∃ id, (?e, _) = _ ∧ _ =>
      let v := eval vm_compute in e in
      assert (e = v) as -> by (vm_compute; reflexivity)
  end.
  eexists. split; [reflexivity|].
  pose proof (isHexChar_clock k Hk) as Hkh.
  split; [reflexivity|]. split.
  { cbn [allHex]. rewrite isHexChar_4.
    repeat match goal with H : isHexChar _ = true |- _ => rewrite H; clear H end.
    reflexivity. }
  split; [reflexivity|]. split; [by exists k|].
  unfold isValidW3CId. cbn [String.length Nat.eqb andb].
  apply negb_true_iff, String.eqb_neq. congruence.
Qed.

(** The draw 1 - 2^-52 makes the clock-sequence digit a "c": 8 + 4r rounds
    up to 12. *)
Example w3cTraceId_clock_c :
  let r : Q := (1 - (1 # 2 ^ 52))%Q in
  (0 <= r)%Q ∧ (r < 1)%Q ∧
  hexAt (toInt32 (add (ofZ 8) (mul (Finite r) (ofZ 4)))) = "c" ∧
  (w3cTraceId (fun _ => r) 0).1 = "ffffffffffff4fffcfffffffffffffff".
Proof. cbv zeta. split; [done|]. split; [done|]. split; by vm_compute. Qed.
End TraceId.

(** The theorem of X7 when every draw is one half. *)
Lemma w3cTraceId_valid_witness :
  ∃ id,
    w3cTraceId (fun _ => 1 # 2)%Q 0 = (id, (0 + 5)%nat) ∧
    String.length id = 32%nat ∧
    allHex id = true ∧
    String.get 12 id = Some "4"%char ∧
    (∃ c, String.get 16 id = Some c ∧ c ∈ ["8"; "9"; "a"; "b"; "c"]%char) ∧
    isValidW3CId id = true.
Proof. apply (w3cTraceId_valid (fun _ => 1 # 2)%Q 0); done. Defined.

Section Random32.
Variable Math_random : nat → Q.

(** X6: whatever [Math.random] draws, [random32] returns an integer of
    [-2^31, 2^31) and [randomu32] one of [0, 2^32), each with one draw. *)
Theorem random32_range (draws : nat) :
  (- 2 ^ 31 ≤ (random32 Math_random draws).1 < 2 ^ 31 ∧
   (random32 Math_random draws).2 = S draws) ∧
  (0 ≤ (randomu32 Math_random draws).1 < 2 ^ 32 ∧
   (randomu32 Math_random draws).2 = S draws).
Proof.
  unfold randomu32, random32. cbn [fst snd].
  pose proof (toInt32_range (mul (ofZ 4294967296) (Finite (Math_random draws)))).
  lia.
Qed.
End Random32.
End TraceIdFacts.

(** ** validateStringMap: when it returns *)

Module SerializationFacts.
Import JsNumber JsValue Util Vocabulary SanitizerVocabulary.

Section Sanitizer.
Variable numberText : number → string.
Variable JSON_stringify : value → completion (option string).

Abbreviation property := (propertyOf numberText JSON_stringify).
Abbreviation validate := (validateStringMap numberText JSON_stringify).
Abbreviation ok := (serializable numberText JSON_stringify).

Lemma validateField_returns field v acc :
  returns (validateField numberText JSON_stringify field v acc) ↔ returns acc ∧ ok v.
Proof.
  unfold validateField, returns, serializable, substringMax.
  generalize MAX_PROPERTY_LENGTH. intros n.
  destruct acc as [map|e]; [|split; [by intros [? [=]]|by intros [[? [=]] _]]].
  rewrite bind_Normal.
  destruct (property v) as [[p|]|e]; rewrite ?bind_Normal.
  - destruct p as [| | | |s| | |]; rewrite ?bind_Normal;
      try (split; [by intros [? [=]]|by intros [_ [[=]|[? [=]]]]]).
    split; [intros _; split; [by eexists|right; by eexists]|by eexists].
  - split; [intros _; split; [by eexists|by left]|by eexists].
  - split; [by intros [? [=]]|by intros [_ [[=]|[? [=]]]]].
Qed.

Lemma fold_returns (fields : gmap string value) :
  returns (map_fold (validateField numberText JSON_stringify) (Normal ∅) fields)
  ↔ ∀ field v, fields !! field = Some v → ok v.
Proof.
  apply (map_fold_weak_ind
           (fun r (m : gmap string value) => returns r ↔ ∀ field v, m !! field = Some v → ok v)).
  - split; [by intros _ field v; rewrite lookup_empty|by eexists].
  - intros i x m r Hfresh IH. rewrite validateField_returns, IH. split.
    + intros [Hm Hx] field v. destruct (decide (field = i)) as [->|Hne].
      * rewrite lookup_insert_eq. by intros [= <-].
      * rewrite lookup_insert_ne by done. apply Hm.
    + intros H. split.
      * intros field v Hf. apply (H field). rewrite lookup_insert_ne; [done|]. congruence.
      * apply (H i). by rewrite lookup_insert_eq.
Qed.

Lemma returns_fmap {A B : Type} (f : A → B) (c : completion A) :
  returns (f <$> c) ↔ returns c.
Proof.
  unfold returns. destruct c as [a|e]; cbn; [split; by eexists|].
  split; by intros [? [=]].
Qed.

Lemma raises_not_returns {A : Type} (c : completion A) : raises c ↔ ¬ returns c.
Proof.
  unfold raises, returns. destruct c as [a|e].
  - split; [by intros [? [=]]|intros H; destruct H; by eexists].
  - split; [by intros _ [? [=]]|by eexists].
Qed.

(** X8: on an object, [validateStringMap] returns exactly when every
    enumerable field is a function or has a text that is a string; it raises
    when a field is an object, neither an array nor an Error, whose [toJSON]
    raises or returns a number or a boolean. *)
Theorem validateStringMap_returns_iff info fields hidden toJSON :
  (returns (validate (VObject info fields hidden toJSON))
   ↔ ∀ field v, fields !! field = Some v → ok v) ∧
  (∀ field info' fields' hidden' outcome,
     fields !! field = Some (VObject info' fields' hidden' (Some outcome)) →
     isArrayObject info' = false → instanceOfError info' = false →
     (raises outcome ∨ (∃ x, outcome = Normal (VNumber x)) ∨ (∃ b, outcome = Normal (VBool b))) →
     raises (validate (VObject info fields hidden toJSON))).
Proof.
  assert (returns (validate (VObject info fields hidden toJSON))
          ↔ ∀ field v, fields !! field = Some v → ok v) as Hiff.
  { cbn [validateStringMap]. rewrite returns_fmap. apply fold_returns. }
  split; [done|].
  intros field info' fields' hidden' outcome Hfield Harr Herr Hout.
  apply raises_not_returns. rewrite Hiff. intros Hall.
  specialize (Hall _ _ Hfield). revert Hall.
  unfold serializable, propertyOf, isPrimitive, isArray, extractObject, isError.
  rewrite Harr, Herr.
  destruct Hout as [[e ->]|[[x ->]|[b ->]]]; cbn; by intros [[=]|[? [=]]].
Qed.

Lemma property_string s : property (VString s) = Normal (Some (VString s)).
Proof. done. Qed.

(** X9: the map [validateStringMap] returns, given back to it as a plain
    object of strings, is returned as it is. *)
Theorem validateStringMap_idempotent obj map :
  validate obj = Normal (Some map) →
  validate (plainObject (stringBag map)) = Normal (Some map).
Proof.
  intros Hmap.
  pose proof (PropertyFacts.validateStringMap_truncatedFrom _ _ _ _ Hmap) as Hfrom.
  assert (∀ field s, map !! field = Some s → JsString.prefix MAX_PROPERTY_LENGTH s = s) as Hshort.
  { intros field s Hs. apply Hfrom in Hs as (o & text & _ & _ & ->).
    apply prefix_all. rewrite length_prefix. lia. }
  assert (returns (validate (plainObject (stringBag map)))) as [r Hr].
  { unfold plainObject. cbn [validateStringMap]. rewrite returns_fmap. apply fold_returns.
    intros field v. unfold stringBag. rewrite lookup_fmap.
    destruct (map !! field) as [s|]; [|done]. intros [= <-]. right. by exists s. }
  rewrite Hr. destruct r as [map'|].
  2:{ unfold plainObject in Hr. cbn [validateStringMap] in Hr.
      by destruct (map_fold _ _ _). }
  pose proof (PropertyFacts.validateStringMap_truncatedFrom _ _ _ _ Hr) as Hfrom'.
  do 2 f_equal. apply map_eq. intros field. apply option_eq. intros s.
  rewrite (Hfrom' field s). unfold plainObject, stringBag. cbn [enumerable]. split.
  - intros (o & text & Ho & Hp & ->). rewrite lookup_fmap in Ho.
    destruct (map !! field) as [t|] eqn:Ht; [|done]. injection Ho as <-.
    rewrite property_string in Hp. injection Hp as <-.
    by rewrite (Hshort field t Ht).
  - intros Hs. exists (VString s), s. rewrite lookup_fmap, Hs.
    by rewrite (Hshort field s Hs).
Qed.
End Sanitizer.

(** The theorem of X9 at [Examples.longBag]: the bag of the cut text is
    sanitized to itself. *)
Lemma validateStringMap_idempotent_witness :
  validateStringMap (fun _ => "") (fun _ => Normal None)
    (plainObject
       (stringBag {[ "long" := JsString.prefix MAX_PROPERTY_LENGTH Examples.longText ]}))
  = Normal (Some {[ "long" := JsString.prefix MAX_PROPERTY_LENGTH Examples.longText ]}).
Proof.
  apply (validateStringMap_idempotent (fun _ => "") (fun _ => Normal None) Examples.longBag).
  vm_compute. reflexivity.
Defined.
End SerializationFacts.

(** ** canIncludeCorrelationHeader and safeIncludeCorrelationHeader: the edges *)

Module ExclusionFacts.
Import JsString Regex Util Vocabulary PatternFacts.

Section Exclusion.
Variable urlHostname : string → option string.
Abbreviation canInclude := (canIncludeCorrelationHeader urlHostname).

(** X10: [canIncludeCorrelationHeader] allows the header without a client,
    without a config, without excluded domains (none or an empty list) and for
    an empty URL. A pattern is plain when it is made of "*", "." and
    characters without a meaning in a regular expression, so that [RegExp]
    accepts it. With excluded domains whose first pattern is plain and a
    non-empty URL that has no host name it refuses; with excluded domains
    that are all plain, an empty pattern among them refuses every host. *)
Theorem canIncludeCorrelationHeader_edge_cases :
  (∀ requestUrl,
     canInclude None requestUrl = Some true ∧
     canInclude (Some {| TelemetryClient.config := None |}) requestUrl = Some true) ∧
  (∀ cfg requestUrl,
     Config.correlationHeaderExcludedDomains cfg = None
     ∨ Config.correlationHeaderExcludedDomains cfg = Some [] →
     canInclude (Some {| TelemetryClient.config := Some cfg |}) requestUrl = Some true) ∧
  (∀ client, canInclude client "" = Some true) ∧
  (∀ cfg pattern patterns requestUrl,
     Config.correlationHeaderExcludedDomains cfg = Some (pattern :: patterns) →
     plainPattern pattern = true → requestUrl ≠ "" →
     isFalsyString (urlHostname requestUrl) = true →
     canInclude (Some {| TelemetryClient.config := Some cfg |}) requestUrl = Some false) ∧
  (∀ cfg patterns requestUrl hostname,
     Config.correlationHeaderExcludedDomains cfg = Some patterns →
     Forall (fun pattern => plainPattern pattern = true) patterns →
     "" ∈ patterns → requestUrl ≠ "" → urlHostname requestUrl = Some hostname →
     canInclude (Some {| TelemetryClient.config := Some cfg |}) requestUrl = Some false).
Proof.
  split; [done|]. split.
  { intros cfg requestUrl [H|H]; unfold canIncludeCorrelationHeader; cbn; by rewrite H. }
  split.
  { intros [[[cfg|]]|]; unfold canIncludeCorrelationHeader; cbn; [|done..].
    destruct (Config.correlationHeaderExcludedDomains cfg); [|done].
    by rewrite orb_true_r. }
  split.
  - intros cfg pattern patterns requestUrl Hcfg Hplain Hurl Hhost.
    unfold canIncludeCorrelationHeader. cbn. rewrite Hcfg.
    assert (isEmpty requestUrl = false) as -> by by destruct requestUrl.
    cbn [length Nat.eqb orb excludedBy]. rewrite (RegExp_plainPattern _ Hplain).
    cbn. by rewrite Hhost.
  - intros cfg patterns requestUrl hostname Hcfg Hplain Hin Hurl Hhost.
    unfold canIncludeCorrelationHeader. cbn. rewrite Hcfg.
    assert (isEmpty requestUrl = false) as -> by by destruct requestUrl.
    destruct patterns as [|pattern patterns]; [by apply elem_of_nil in Hin|].
    cbn [length Nat.eqb orb].
    destruct (isEmpty hostname) eqn:Hempty.
    + apply Forall_cons in Hplain as [Hp _].
      cbn [excludedBy]. rewrite (RegExp_plainPattern _ Hp). cbn.
      rewrite Hhost. cbn. by rewrite Hempty.
    + rewrite (excludedBy_plain urlHostname _ _ hostname) by done.
      f_equal. apply negb_false_iff, existsb_exists.
      exists "". split; [by apply list_elem_of_In|].
      apply test_globRegex; [done|]. exists "", "", hostname. split; [done|]. constructor.
Qed.
End Exclusion.
End ExclusionFacts.

Module HeaderFacts.
Import JsString Util Vocabulary HeaderVocabulary.

Section Header.
Variable requestContextHeader requestContextSourceKey : string.
Abbreviation include :=
  (safeIncludeCorrelationHeader requestContextHeader requestContextSourceKey).
Abbreviation found := (hasSourceKey requestContextSourceKey).

(** X11: when [safeIncludeCorrelationHeader] returns, no header other than
    the request-context header has changed. The request is unchanged when the
    header's text already has the source key; otherwise the request-context
    header is that text followed by a comma, the key, "=" and the correlation
    id, or the key, "=" and the correlation id alone when there is no text. *)
Theorem safeIncludeCorrelationHeader_writes_one_header client request correlationHeader request' :
  include client request correlationHeader = Normal request' →
  (∀ name, name ≠ requestContextHeader → request' !! name = request !! name) ∧
  match headerText correlationHeader with
  | Some header =>
      if found header then request' = request
      else ∃ correlationId,
             correlationIdOf client = Normal correlationId ∧
             request' !! requestContextHeader
             = Some (header +:+ "," +:+ requestContextSourceKey +:+ "=" +:+ correlationId)
  | None =>
      ∃ correlationId,
        correlationIdOf client = Normal correlationId ∧
        request' !! requestContextHeader
        = Some (requestContextSourceKey +:+ "=" +:+ correlationId)
  end.
Proof.
  unfold safeIncludeCorrelationHeader, addCorrelationIdHeaderFromString, setHeader.
  assert (∀ text, (correlationId ← correlationIdOf client;
                   Normal (<[requestContextHeader := text correlationId]> request))
                  = Normal request' →
          (∀ name, name ≠ requestContextHeader → request' !! name = request !! name) ∧
          ∃ correlationId, correlationIdOf client = Normal correlationId ∧
            request' !! requestContextHeader = Some (text correlationId)) as Hset.
  { intros text. destruct (correlationIdOf client) as [cid|e]; [|done].
    rewrite bind_Normal. intros [= <-]. split.
    - intros name Hne. by rewrite lookup_insert_ne.
    - exists cid. by rewrite lookup_insert_eq. }
  destruct correlationHeader as [s|l|[s|e]|]; cbn [headerText].
  - destruct (found s); cbn [negb]; [by intros [= <-]|].
    apply (Hset (fun cid => s +:+ "," +:+ requestContextSourceKey +:+ "=" +:+ cid)).
  - destruct (found (join "," l)); cbn [negb]; [by intros [= <-]|].
    apply (Hset (fun cid => join "," l +:+ "," +:+ requestContextSourceKey +:+ "=" +:+ cid)).
  - destruct (found s); cbn [negb]; [by intros [= <-]|].
    apply (Hset (fun cid => s +:+ "," +:+ requestContextSourceKey +:+ "=" +:+ cid)).
  - apply (Hset (fun cid => requestContextSourceKey +:+ "=" +:+ cid)).
  - apply (Hset (fun cid => requestContextSourceKey +:+ "=" +:+ cid)).
Qed.

(** X12: without a client, or with a client without a config,
    [safeIncludeCorrelationHeader] raises, unless the header's text already
    has the source key, in which case the request is returned unchanged. *)
Theorem safeIncludeCorrelationHeader_without_config client request correlationHeader :
  client = None ∨ client = Some {| TelemetryClient.config := None |} →
  match headerText correlationHeader with
  | Some header =>
      if found header then include client request correlationHeader = Normal request
      else raises (include client request correlationHeader)
  | None => raises (include client request correlationHeader)
  end.
Proof.
  intros Hclient.
  assert (raises (correlationIdOf client)) as [e He].
  { destruct Hclient as [-> | ->]; by eexists. }
  unfold safeIncludeCorrelationHeader, addCorrelationIdHeaderFromString, raises.
  destruct correlationHeader as [s|l|[s|e']|]; cbn [headerText];
    rewrite ?He; try (by eexists);
    match goal with |- context [found ?h] => destruct (found h) end;
    cbn [negb]; rewrite ?He; first [done|by eexists].
Qed.
End Header.

Lemma safeIncludeCorrelationHeader_writes_one_header_witness :
  let client := Some {| TelemetryClient.config := Some Examples.config |} in
  let request : gmap string string := {[ "accept" := "*/*" ]} in
  let request' : gmap string string :=
    <["request-context" := "a=b,c=d,appId=cid-v1:abc"]> request in
  (∀ name, name ≠ "request-context" → request' !! name = request !! name) ∧
  ∃ correlationId,
    correlationIdOf client = Normal correlationId ∧
    request' !! "request-context"
    = Some ("a=b,c=d" +:+ "," +:+ "appId" +:+ "=" +:+ correlationId).
Proof.
  apply (safeIncludeCorrelationHeader_writes_one_header "request-context" "appId"
           (Some {| TelemetryClient.config := Some Examples.config |})
           {[ "accept" := "*/*" ]} (HeaderArray ["a=b"; "c=d"])).
  reflexivity.
Defined.

Lemma safeIncludeCorrelationHeader_without_config_witness :
  raises (safeIncludeCorrelationHeader "request-context" "appId" None ∅ HeaderAbsent).
Proof.
  apply (safeIncludeCorrelationHeader_without_config "request-context" "appId" None ∅
           HeaderAbsent).
  by left.
Defined.
End HeaderFacts.

(** ** makeRequest *)

Module RequestFacts.
Import JsString Util Vocabulary RequestVocabulary.

Section Request.
Variable url_parse : string → Url.t.
Variable Agent : Type.
Variable tlsRestrictedAgent : Agent.

Abbreviation make := (makeRequest url_parse Agent tlsRestrictedAgent).

Lemma effectiveUrl_eq requestUrl :
  (if negb (isEmpty requestUrl) && startsWith requestUrl "//"
   then "https:" +:+ requestUrl else requestUrl) = effectiveUrl requestUrl.
Proof. unfold effectiveUrl. by destruct requestUrl. Qed.

Lemma isProtocol_exclusive u : isProtocol u "https:" = true → isProtocol u "http:" = false.
Proof.
  unfold isProtocol. destruct (Url.protocol u) as [p|]; [|done].
  intros ->%String.eqb_eq. done.
Qed.

(** X13: [makeRequest] calls [https.request] only for an [https:] target
    with no proxy in effect, then with the target's host, port and path, the
    caller's headers and the configured https agent or else the TLS-restricted
    one. Every other request goes through [http.request], with the
    configured http agent or else the caller's. *)
Theorem makeRequest_transport config requestUrl requestOptions :
  let target := url_parse (effectiveUrl requestUrl) in
  match make config requestUrl requestOptions with
  | https_request _ options =>
      isProtocol target "https:" = true ∧
      proxyInEffect url_parse config target = None ∧
      agent Agent options = Some (default tlsRestrictedAgent (httpsAgent Agent config)) ∧
      host Agent options = Url.hostname target ∧
      port Agent options = Url.port target ∧
      path Agent options = Url.pathname target ∧
      headers Agent options = headers Agent requestOptions
  | http_request _ options =>
      (isProtocol target "https:" = false ∨ is_Some (proxyInEffect url_parse config target)) ∧
      agent Agent options
      = match httpAgent Agent config with
        | Some a => Some a
        | None => agent Agent requestOptions
        end
  end.
Proof.
  cbv zeta. unfold makeRequest, proxyInEffect, configuredProxy.
  rewrite effectiveUrl_eq.
  set (target := url_parse (effectiveUrl requestUrl)).
  destruct (isProtocol target "https:") eqn:Hs.
  - rewrite (isProtocol_exclusive _ Hs).
    destruct (orUndefined (proxyHttpsUrl Agent config)) as [proxy|]; cbn [fmap option_fmap option_map].
    + destruct (isProtocol (url_parse _) "https:"); cbn [andb negb].
      * destruct (httpsAgent Agent config); cbn; done.
      * destruct (httpAgent Agent config); cbn; eauto.
    + cbn [andb negb]. destruct (httpsAgent Agent config); cbn; done.
  - destruct (isProtocol target "http:");
      [destruct (orUndefined (proxyHttpUrl Agent config)) as [proxy|]|];
      cbn [fmap option_fmap option_map];
      try destruct (isProtocol (url_parse _) "https:"); cbn [andb negb];
      destruct (httpAgent Agent config); cbn; eauto.
Qed.

(** X14: with a proxy configured for the target's protocol that is not
    itself [https:], [makeRequest] sends an http request to the proxy's host
    and port (80 by default), with the whole URL as the path and a [Host]
    header naming the target. With an [https:] proxy, or none, it behaves as
    under the same configuration without proxies. *)
Theorem makeRequest_proxy config requestUrl requestOptions :
  let target := url_parse (effectiveUrl requestUrl) in
  match configuredProxy config target with
  | Some proxy =>
      if isProtocol (url_parse proxy) "https:"
      then make config requestUrl requestOptions
           = make (withoutProxies config) requestUrl requestOptions
      else make config requestUrl requestOptions
           = http_request Agent
               {| host := Url.hostname (url_parse proxy);
                  port := Some (orElse (default "" (Url.port (url_parse proxy))) "80");
                  path := Some (effectiveUrl requestUrl);
                  headers := Some (<["Host" := Url.hostname target]>
                                     (default ∅ (headers Agent requestOptions)));
                  agent := match httpAgent Agent config with
                           | Some a => Some a
                           | None => agent Agent requestOptions
                           end;
                  otherOptions := otherOptions Agent requestOptions |}
  | None =>
      make config requestUrl requestOptions
      = make (withoutProxies config) requestUrl requestOptions
  end.
Proof.
  cbv zeta. unfold makeRequest, configuredProxy, withoutProxies.
  rewrite effectiveUrl_eq.
  set (target := url_parse (effectiveUrl requestUrl)).
  cbn [proxyHttpUrl proxyHttpsUrl httpAgent httpsAgent orUndefined].
  destruct (isProtocol target "https:") eqn:Hs.
  - rewrite (isProtocol_exclusive _ Hs).
    destruct (orUndefined (proxyHttpsUrl Agent config)) as [proxy|]; cbn [fmap option_fmap option_map].
    + destruct (isProtocol (url_parse _) "https:"); cbn [andb negb]; [done|].
      destruct (httpAgent Agent config); cbn; done.
    + done.
  - destruct (isProtocol target "http:");
      [destruct (orUndefined (proxyHttpUrl Agent config)) as [proxy|]|];
      cbn [fmap option_fmap option_map]; [|done..].
    destruct (isProtocol (url_parse _) "https:"); cbn [andb negb]; [done|].
    destruct (httpAgent Agent config); cbn; done.
Qed.
End Request.
End RequestFacts.

(** ** parseStack: the frames and the truncation *)

Module ParseFacts.
Import JsString EnvelopeFactory Vocabulary StackVocabulary StackFacts.

Section Parsing.
Variable largeNumberText : Z → string.

Lemma digitsValue_nonneg s acc : 0 ≤ acc → 0 ≤ JsNumber.digitsValue acc s.
Proof.
  revert acc. induction s as [|c s IH]; intros acc Hacc; cbn [JsNumber.digitsValue]; [done|].
  destruct (isDigit c) eqn:Hc; [|done]. apply IH.
  unfold isDigit in Hc. apply andb_prop in Hc as [Hlo _]. apply N.leb_le in Hlo. lia.
Qed.

(** The double nearest to a rational that is not negative is not negative. *)
Lemma floor_ofQ_nonneg (q : Q) : (0 <= q)%Q → nonNegative (JsNumber.floor (JsNumber.ofQ q)).
Proof.
  intros Hq. unfold JsNumber.ofQ.
  destruct (Qle_bool _ _).
  - cbn. destruct (Qcompare q 0) eqn:Hc; [done| |done].
    apply Qlt_alt in Hc. lra.
  - cbn. pose proof (NumberFacts.round53_nonneg q Hq) as Hr.
    exact (Qfloor_resp_le _ _ Hr).
Qed.

Lemma orZero_nonneg n : n = JsNumber.INaN ∨ nonNegative n → nonNegative (JsNumber.orZero n).
Proof.
  intros [->|Hn]; [done|]. destruct n as [| |z]; [done|done|].
  cbn. by destruct (z =? 0).
Qed.

Lemma orElse_nonempty a b : b ≠ "" → orElse a b ≠ "".
Proof. intros Hb. unfold orElse. by destruct a. Qed.

(** The fields of a frame made from a line. *)
Lemma new_fields line level frame :
  StackFrame.new largeNumberText (Some line) level = Normal frame →
  StackFrame.level frame = level ∧
  StackFrame.assembly frame = Util.trim (Some line) ∧
  StackFrame.method frame ≠ "" ∧ StackFrame.fileName frame ≠ "" ∧
  nonNegative (StackFrame.line frame).
Proof.
  unfold StackFrame.new.
  destruct (Regex.exec StackFrame.ngroups StackFrame.regex line) as [caps|]; [|done].
  intros [= <-]. cbn. split; [done|]. split; [done|].
  split; [by apply orElse_nonempty|]. split; [by apply orElse_nonempty|].
  apply orZero_nonneg.
  destruct (Regex.group line caps 5) as [digits|]; [|by left].
  unfold JsNumber.parseInt. destruct digits as [|c digits]; [by left|].
  destruct (isDigit c); [|by left]. right. apply floor_ofQ_nonneg.
  change 0%Q with (inject_Z 0). rewrite <- Zle_Qle. by apply digitsValue_nonneg.
Qed.

(** The parsing loop makes one frame of each line that passes the pattern,
    in order, numbering them from [level] on. *)
Lemma parseFrames_frames lines level total parsedStack :
  ∃ added,
    parseFrames largeNumberText (map Some lines ++ [None]) level total parsedStack
    = Normal (parsedStack ++ added, total + totalSize added) ∧
    length added
    = length (List.filter (fun line => StackFrame.regex_test (Some line)) lines) ∧
    ∀ (i : nat) line,
      List.filter (fun line => StackFrame.regex_test (Some line)) lines !! i = Some line →
      ∃ frame, added !! i = Some frame ∧
               StackFrame.new largeNumberText (Some line) (level + Z.of_nat i) = Normal frame.
Proof.
  revert level total parsedStack.
  induction lines as [|line lines IH]; intros level total parsedStack.
  - cbn [map app parseFrames List.filter]. rewrite regex_test_undefined.
    exists []. by rewrite app_nil_r, Z.add_0_r.
  - cbn [map app parseFrames List.filter].
    destruct (StackFrame.regex_test (Some line)) eqn:Htest.
    + destruct (new_returns largeNumberText line level Htest) as [frame Hframe].
      rewrite Hframe, bind_Normal.
      destruct (IH (level + 1) (total + StackFrame.sizeInBytes frame)
                  (parsedStack ++ [frame])) as (added & -> & Hlen & Hall).
      exists (frame :: added). rewrite <- app_assoc.
      split; [simpl; do 2 f_equal; lia|]. split; [by cbn; rewrite Hlen|].
      intros [|i] l; cbn.
      * intros [= <-]. exists frame. by rewrite Z.add_0_r.
      * intros Hl. destruct (Hall i l Hl) as (f & Hf & Hnew). exists f. split; [done|].
        by replace (level + Z.of_nat (S i)) with (level + 1 + Z.of_nat i) by lia.
    + apply IH.
Qed.

(** X15: [parseStack] of anything but a string is [undefined], and of a
    string it returns. It parses one frame for each line that passes the frame
    pattern, in order, the i-th built by the frame constructor at level i,
    with a method and a file name that are not empty and a line number that
    is not negative. The result is that list when its size is within the
    threshold, and its truncation otherwise. *)
Theorem parseStack_frames :
  parseStack largeNumberText None = Normal None ∧
  ∀ stack,
    ∃ parsed r,
      parseStack largeNumberText (Some stack) = Normal (Some r) ∧
      length parsed = length (frameLines stack) ∧
      (∀ (i : nat) line,
         frameLines stack !! i = Some line →
         ∃ frame,
           parsed !! i = Some frame ∧
           StackFrame.new largeNumberText (Some line) (Z.of_nat i) = Normal frame ∧
           StackFrame.level frame = Z.of_nat i ∧
           StackFrame.assembly frame = Util.trim (Some line) ∧
           StackFrame.method frame ≠ "" ∧ StackFrame.fileName frame ≠ "" ∧
           nonNegative (StackFrame.line frame)) ∧
      (totalSize parsed ≤ exceptionParsedStackThreshold → r = parsed) ∧
      (exceptionParsedStackThreshold < totalSize parsed → truncate parsed = Normal r).
Proof.
  split; [done|]. intros stack.
  destruct (parseFrames_frames (split StackFrame.LF stack) 0 0 [])
    as (parsed & Hparsed & Hlen & Hall).
  cbn [app] in Hparsed. rewrite Z.add_0_l in Hparsed.
  unfold parseStack. rewrite Hparsed, bind_Normal.
  assert (∀ (i : nat) line,
            frameLines stack !! i = Some line →
            ∃ frame,
              parsed !! i = Some frame ∧
              StackFrame.new largeNumberText (Some line) (Z.of_nat i) = Normal frame ∧
              StackFrame.level frame = Z.of_nat i ∧
              StackFrame.assembly frame = Util.trim (Some line) ∧
              StackFrame.method frame ≠ "" ∧ StackFrame.fileName frame ≠ "" ∧
              nonNegative (StackFrame.line frame)) as Hframes.
  { intros i line Hline. destruct (Hall i line Hline) as (frame & Hf & Hnew).
    rewrite Z.add_0_l in Hnew. exists frame. split; [done|]. split; [done|].
    by apply new_fields in Hnew. }
  destruct (Z.gtb_spec (totalSize parsed) exceptionParsedStackThreshold) as [Hover|Hfit].
  - destruct (truncate_spec parsed) as (r & Hr & _). rewrite Hr, bind_Normal.
    exists parsed, r. split; [done|]. split; [done|]. split; [done|]. split; [lia|done].
  - exists parsed, parsed. split; [done|]. split; [done|]. split; [done|]. split; [done|lia].
Qed.
End Parsing.

(** The loop entered with [left = j], the pairs from [j + 1] to [k] fitting
    and the pair [k + 1] not: the frames between the outermost [k - 1] pairs
    are removed. *)
Lemma truncateLoop_first_excess ps fuel k j :
  (j ≤ k)%nat → (2 * k + 2 ≤ length ps)%nat → (k - j < fuel)%nat →
  (∀ i, (j < i ≤ k)%nat → totalSize (outer ps i) ≤ exceptionParsedStackThreshold) →
  exceptionParsedStackThreshold < totalSize (outer ps (S k)) →
  truncateLoop fuel ps (Z.of_nat j) (Z.of_nat (length ps) - 1 - Z.of_nat j)
    (totalSize (outer ps j)) (Z.of_nat (Nat.pred j))
    (Z.of_nat (length ps) - 1 - Z.of_nat (Nat.pred j))
  = Normal (outer ps (Nat.pred k)).
Proof.
  revert j. induction fuel as [|fuel IH]; intros j Hj Hk Hfuel Hfit Hover; [lia|].
  cbn [truncateLoop].
  destruct (Z.ltb_spec (Z.of_nat j) (Z.of_nat (length ps) - 1 - Z.of_nat j)); [|lia].
  destruct (lookup_lt_is_Some_2 ps j) as [fl Hl]; [lia|].
  destruct (lookup_lt_is_Some_2 ps (length ps - 1 - j)%nat) as [fr Hr]; [lia|].
  rewrite (sizeAt_lookup _ _ _ Hl).
  replace (Z.of_nat (length ps) - 1 - Z.of_nat j)
    with (Z.of_nat (length ps - 1 - j)) by lia.
  rewrite (sizeAt_lookup _ _ _ Hr), !bind_Normal.
  rewrite <- (totalSize_outer_S ps j fl fr ltac:(lia) Hl Hr).
  destruct (Nat.eq_dec j k) as [->|Hne].
  - destruct (Z.gtb_spec (totalSize (outer ps (S k))) exceptionParsedStackThreshold); [|lia].
    rewrite splice_outer; [done|]. destruct k; simpl; lia.
  - destruct (Z.gtb_spec (totalSize (outer ps (S j))) exceptionParsedStackThreshold) as [Hc|_].
    { specialize (Hfit (S j) ltac:(lia)). lia. }
    replace (Z.of_nat j + 1) with (Z.of_nat (S j)) by lia.
    replace (Z.of_nat (length ps - 1 - j) - 1)
      with (Z.of_nat (length ps) - 1 - Z.of_nat (S j)) by lia.
    replace (Z.of_nat j) with (Z.of_nat (Nat.pred (S j))) at 2 by done.
    replace (Z.of_nat (length ps - 1 - j))
      with (Z.of_nat (length ps) - 1 - Z.of_nat (Nat.pred (S j))) by (simpl; lia).
    apply IH; [lia|lia|lia| |done]. intros i Hi. apply Hfit. lia.
Qed.

(** The loop entered with [left = j], every pair from [j + 1] on fitting:
    nothing is removed. *)
Lemma truncateLoop_all_fit ps fuel j acceptedLeft acceptedRight :
  (2 * j ≤ length ps)%nat →
  (∀ i, (j < i)%nat → (2 * i ≤ length ps)%nat →
        totalSize (outer ps i) ≤ exceptionParsedStackThreshold) →
  truncateLoop fuel ps (Z.of_nat j) (Z.of_nat (length ps) - 1 - Z.of_nat j)
    (totalSize (outer ps j)) acceptedLeft acceptedRight
  = Normal ps.
Proof.
  revert j acceptedLeft acceptedRight.
  induction fuel as [|fuel IH]; intros j aL aR Hj Hfit; [done|].
  cbn [truncateLoop].
  destruct (Z.ltb_spec (Z.of_nat j) (Z.of_nat (length ps) - 1 - Z.of_nat j)); [|done].
  destruct (lookup_lt_is_Some_2 ps j) as [fl Hl]; [lia|].
  destruct (lookup_lt_is_Some_2 ps (length ps - 1 - j)%nat) as [fr Hr]; [lia|].
  rewrite (sizeAt_lookup _ _ _ Hl).
  replace (Z.of_nat (length ps) - 1 - Z.of_nat j)
    with (Z.of_nat (length ps - 1 - j)) by lia.
  rewrite (sizeAt_lookup _ _ _ Hr), !bind_Normal.
  rewrite <- (totalSize_outer_S ps j fl fr ltac:(lia) Hl Hr).
  destruct (Z.gtb_spec (totalSize (outer ps (S j))) exceptionParsedStackThreshold) as [Hc|_].
  { specialize (Hfit (S j) ltac:(lia) ltac:(lia)). lia. }
  replace (Z.of_nat j + 1) with (Z.of_nat (S j)) by lia.
  replace (Z.of_nat (length ps - 1 - j) - 1)
    with (Z.of_nat (length ps) - 1 - Z.of_nat (S j)) by lia.
  apply IH; [lia|]. intros i Hi. apply Hfit. lia.
Qed.

(** X16: the truncation returns the list as it is when every number of
    pairs of outermost frames fits within the threshold. When the pairs up to
    the k-th fit and k + 1 pairs do not, it returns the outermost k - 1
    pairs, 2 (k - 1) frames: the last pair that fitted is removed with the
    middle. *)
Theorem truncate_drops_an_accepted_pair (ps : list StackFrame.t) :
  ((∀ j, (2 * j ≤ length ps)%nat →
         totalSize (outer ps j) ≤ exceptionParsedStackThreshold) →
   truncate ps = Normal ps) ∧
  (∀ k : nat,
     (2 * k + 2 ≤ length ps)%nat →
     (∀ j, (j ≤ k)%nat → totalSize (outer ps j) ≤ exceptionParsedStackThreshold) →
     exceptionParsedStackThreshold < totalSize (outer ps (S k)) →
     truncate ps = Normal (outer ps (Nat.pred k)) ∧
     length (outer ps (Nat.pred k)) = (2 * Nat.pred k)%nat).
Proof.
  split.
  - intros Hfit. unfold truncate.
    pose proof (truncateLoop_all_fit ps (length ps) 0 0 (Z.of_nat (length ps) - 1)) as H.
    rewrite outer_0 in H. cbn in H. rewrite Z.sub_0_r in H.
    apply H; [lia|]. intros i _. apply Hfit.
  - intros k Hk Hfit Hover. split.
    + unfold truncate.
      pose proof (truncateLoop_first_excess ps (length ps) k 0) as H.
      rewrite outer_0 in H. cbn in H. rewrite Z.sub_0_r in H.
      apply H; [lia|lia|lia| |done]. intros i Hi. apply Hfit. lia.
    + unfold outer. rewrite length_app, length_take, length_drop. lia.
Qed.

(** The theorem of X16 on eight frames of 6000 bytes: two pairs fit and three
    do not, and one frame is left at each end. *)
Lemma truncate_drops_an_accepted_pair_witness :
  let frame level :=
    {| StackFrame.level := level; StackFrame.method := "m"; StackFrame.assembly := "a";
       StackFrame.fileName := "f"; StackFrame.line := JsNumber.IInt 1;
       StackFrame.sizeInBytes := 6000 |} in
  truncate (frame <$> [0; 1; 2; 3; 4; 5; 6; 7]) = Normal [frame 0; frame 7] ∧
  truncate (frame <$> [0; 1; 2; 3; 4]) = Normal (frame <$> [0; 1; 2; 3; 4]).
Proof.
  intros frame. split.
  - destruct (truncate_drops_an_accepted_pair (frame <$> [0; 1; 2; 3; 4; 5; 6; 7]))
      as [_ Hdrop].
    destruct (Hdrop 2%nat) as [Hr _]; [cbn; lia| |by vm_compute|exact Hr].
    intros [|[|[|j]]] Hj; [by vm_compute..|lia].
  - destruct (truncate_drops_an_accepted_pair (frame <$> [0; 1; 2; 3; 4])) as [Hkeep _].
    apply Hkeep. intros [|[|[|j]]] Hj; [by vm_compute..|cbn in Hj; lia].
Defined.
End ParseFacts.

(** ** createEnvelope: when it returns, and its properties *)

Module AssemblyFacts.
Import JsNumber JsValue Store Contracts EnvelopeFactory Util Vocabulary.
Import SerializationFacts StackFacts.

Section Assembly.
Variable decl : Declarations.
Variable largeNumberText : Z → string.
Variable numberText : number → string.
Variable JSON_stringify : value → completion (option string).
Variable getCurrentContext : option CorrelationContext.t.
Variable now : string.

Abbreviation DT := (dataTypes decl).
Abbreviation create :=
  (createEnvelope decl largeNumberText numberText JSON_stringify getCurrentContext now).
Abbreviation validate := (validateStringMap numberText JSON_stringify).

Lemma createExceptionData_returns telemetry :
  match Telemetry.exception telemetry with
  | Some _ =>
      ∃ d, createExceptionData decl largeNumberText telemetry = Normal d ∧
           baseType d = EXCEPTION DT ∧
           properties (baseData d) = Telemetry.properties telemetry
  | None => raises (createExceptionData decl largeNumberText telemetry)
  end.
Proof.
  unfold createExceptionData.
  destruct (Telemetry.exception telemetry) as [exception|]; [|by eexists].
  destruct (Telemetry.err_stack exception) as [stack|].
  - destruct (parseStack_spec largeNumberText stack) as (parsed & r & _ & -> & _).
    rewrite bind_Normal. by eexists.
  - cbn. by eexists.
Qed.

(** Every converter hands the properties of the item on. *)
Lemma convert_properties telemetry telemetryType d :
  convert decl largeNumberText telemetry telemetryType = Normal (Some d) →
  properties (baseData d) = Telemetry.properties telemetry.
Proof.
  unfold convert.
  repeat
    match goal with
    | |- context [String.eqb telemetryType ?b] =>
        destruct (String.eqb telemetryType b);
        [ intros (d' & Hd & [= <-])%fmap_Some_Normal;
          first [ by injection Hd as <-
                | pose proof (createExceptionData_returns telemetry) as He;
                  destruct (Telemetry.exception telemetry);
                  [destruct He as (d'' & Hd'' & _ & Hp); congruence
                  |destruct He as [e He]; congruence] ]
        | ]
    end.
  done.
Qed.

(** When the six discriminators differ, the switch converts exactly the
    recognized types, and only an exception item without its error fails. *)
Lemma convert_returns_iff telemetry telemetryType :
  NoDup (recognized decl) →
  (∃ d, convert decl largeNumberText telemetry telemetryType = Normal (Some d))
  ↔ telemetryType ∈ recognized decl
    ∧ (telemetryType = EXCEPTION DT → is_Some (Telemetry.exception telemetry)).
Proof.
  intros Hnodup. split.
  - intros [d Hd]. destruct (EnvelopeFacts.convert_Some _ _ _ _ _ Hd) as [Hbase Hin].
    split; [done|]. intros ->. revert Hd. unfold convert.
    unfold recognized in Hnodup.
    apply NoDup_cons in Hnodup as [H1 Hnodup]. apply NoDup_cons in Hnodup as [H2 Hnodup].
    apply NoDup_cons in Hnodup as [H3 Hnodup]. apply NoDup_cons in Hnodup as [H4 Hnodup].
    destruct (String.eqb_spec (EXCEPTION DT) (MESSAGE DT)) as [E|_];
      [exfalso; apply H1; rewrite E, !elem_of_cons; auto 10|].
    destruct (String.eqb_spec (EXCEPTION DT) (REMOTE_DEPENDENCY DT)) as [E|_];
      [exfalso; apply H2; rewrite E, !elem_of_cons; auto 10|].
    destruct (String.eqb_spec (EXCEPTION DT) (EVENT DT)) as [E|_];
      [exfalso; apply H3; rewrite E, !elem_of_cons; auto 10|].
    rewrite String.eqb_refl.
    pose proof (createExceptionData_returns telemetry) as He.
    destruct (Telemetry.exception telemetry); [by eexists|].
    destruct He as [e ->]. done.
  - intros [Hin Hexc]. unfold convert.
    repeat
      match goal with
      | |- context [String.eqb telemetryType ?b] =>
          destruct (String.eqb_spec telemetryType b) as [Heq|?];
          [ first [ by eexists
                  | pose proof (createExceptionData_returns telemetry) as He;
                    destruct (Hexc Heq) as [x Hx]; rewrite Hx in He;
                    destruct He as (d & -> & _); by eexists ]
          | ]
      end.
    unfold recognized in Hin. rewrite !elem_of_cons, elem_of_nil in Hin. tauto.
Qed.

(** When the six discriminators differ, the exception type reaches the
    exception converter. *)
Lemma convert_exception telemetry :
  NoDup (recognized decl) →
  convert decl largeNumberText telemetry (EXCEPTION DT)
  = Some <$> createExceptionData decl largeNumberText telemetry.
Proof.
  intros Hnodup. unfold convert. unfold recognized in Hnodup.
  apply NoDup_cons in Hnodup as [H1 Hnodup]. apply NoDup_cons in Hnodup as [H2 Hnodup].
  apply NoDup_cons in Hnodup as [H3 Hnodup].
  destruct (String.eqb_spec (EXCEPTION DT) (MESSAGE DT)) as [E|_];
    [exfalso; apply H1; rewrite E, !elem_of_cons; auto 10|].
  destruct (String.eqb_spec (EXCEPTION DT) (REMOTE_DEPENDENCY DT)) as [E|_];
    [exfalso; apply H2; rewrite E, !elem_of_cons; auto 10|].
  destruct (String.eqb_spec (EXCEPTION DT) (EVENT DT)) as [E|_];
    [exfalso; apply H3; rewrite E, !elem_of_cons; auto 10|].
  by rewrite String.eqb_refl.
Qed.

Lemma getTags_returns_iff context tagOverrides σ :
  returns (getTags getCurrentContext context tagOverrides σ)
  ↔ (is_Some getCurrentContext → is_Some context).
Proof.
  unfold getTags, returns. destruct (alloc σ) as [newTags σ0].
  destruct getCurrentContext as [cc|]; [destruct context as [c|]|].
  - split; [by eauto|by eexists].
  - split; [by intros [? [=]]|]. intros H. destruct H as [? [=]]. by eexists.
  - split; [by intros _ [? [=]]|by eexists].
Qed.

Lemma assembleEnvelope_returns_iff telemetry d context config σ :
  returns (assembleEnvelope getCurrentContext now telemetry (Some d) context config σ)
  ↔ (is_Some getCurrentContext → is_Some context).
Proof.
  rewrite <- (getTags_returns_iff context (Telemetry.tagOverrides telemetry) σ).
  unfold assembleEnvelope, returns.
  destruct (getTags _ _ _ _) as [[tags σ']|e]; cbn.
  - split; by eexists.
  - split; by intros [? [=]].
Qed.

(** X18: [createEnvelope] returns exactly when the telemetry type is one of
    the recognized ones, an exception item has its exception, the merge of the
    item's and the common properties can be sanitized, and a context is given
    whenever there is a correlation context. *)
Theorem createEnvelope_returns_iff telemetry telemetryType commonProperties context config σ :
  NoDup (recognized decl) →
  (∀ d, domainSupportsProperties decl d = true) →
  returns (create telemetry telemetryType commonProperties context config σ)
  ↔ telemetryType ∈ recognized decl
    ∧ (telemetryType = EXCEPTION DT → is_Some (Telemetry.exception telemetry))
    ∧ (∀ common, commonProperties = Some common →
         returns (validate
                    (plainObject
                       (mergeCommonProperties (Telemetry.properties telemetry) common))))
    ∧ (is_Some getCurrentContext → is_Some context).
Proof.
  intros Hnodup Hsupports.
  pose proof (convert_returns_iff telemetry telemetryType Hnodup) as Hconv.
  unfold createEnvelope.
  destruct (convert decl largeNumberText telemetry telemetryType) as [[d|]|e] eqn:Hconvert.
  - rewrite bind_Normal. pose proof (convert_properties _ _ _ Hconvert) as Hprops.
    destruct (proj1 Hconv ltac:(by eexists)) as [Hin Hexc].
    destruct commonProperties as [common|].
    + rewrite Hsupports. unfold applyCommonProperties. rewrite Hprops. cbn [bagValue].
      fold (plainObject (mergeCommonProperties (Telemetry.properties telemetry) common)).
      destruct (validate _) as [sanitized|e] eqn:Hvalidate;
        cbn [mbind completion_bind fmap completion_fmap].
      * rewrite assembleEnvelope_returns_iff. split; [|tauto].
        intros Hctx. split; [done|]. split; [done|]. split; [|done].
        intros ? [= <-]. rewrite Hvalidate. by eexists.
      * split; [by intros [? [=]]|]. intros (_ & _ & Hv & _).
        specialize (Hv common eq_refl). rewrite Hvalidate in Hv. by destruct Hv as [? [=]].
    + rewrite bind_Normal, assembleEnvelope_returns_iff. split; [|tauto].
      intros Hctx. by repeat split.
  - rewrite bind_Normal. split.
    + destruct commonProperties; cbn; by intros [? [=]].
    + intros (Hin & Hexc & _). by destruct (proj2 Hconv (conj Hin Hexc)) as [? [=]].
  - split; [by intros [? [=]]|].
    intros (Hin & Hexc & _). by destruct (proj2 Hconv (conj Hin Hexc)) as [? [=]].
Qed.

(** X17: when [createEnvelope] returns an envelope for an item given common
    properties, the properties of the envelope are the sanitized merge of the
    item's properties and the common ones, and every value has at most 8192
    characters. A common property other than "__proto__" is there, cut to
    8192 characters, when the item has no properties, and when the item's
    properties read at its key, through the prototype, give a falsy value:
    so for a key that is no member of [Object.prototype] and that the item
    does not set to a truthy value. A common property named like a member of
    [Object.prototype] that the item's properties do not have themselves is
    left out. *)
Theorem createEnvelope_properties
    telemetry telemetryType common context config σ envelope σ' :
  (∀ d, domainSupportsProperties decl d = true) →
  create telemetry telemetryType (Some common) context config σ = Normal (envelope, σ') →
  ∃ map,
    validate (plainObject (mergeCommonProperties (Telemetry.properties telemetry) common))
    = Normal (Some map) ∧
    properties (baseData (data envelope)) = Some (stringBag map) ∧
    (∀ k s, map !! k = Some s → Z.of_nat (String.length s) ≤ 8192) ∧
    (Telemetry.properties telemetry = None →
     ∀ k c, common !! k = Some c → k ≠ "__proto__" →
            map !! k = Some (JsString.prefix MAX_PROPERTY_LENGTH c)) ∧
    (∀ body, Telemetry.properties telemetry = Some body →
       (∀ k c, common !! k = Some c → k ≠ "__proto__" →
               truthy (lookupValue body k) = false →
               map !! k = Some (JsString.prefix MAX_PROPERTY_LENGTH c)) ∧
       (∀ k c, common !! k = Some c → k ∉ inheritedNames →
               (∀ v, body !! k = Some v → truthy v = false) →
               map !! k = Some (JsString.prefix MAX_PROPERTY_LENGTH c)) ∧
       (∀ k, k ∈ inheritedNames → body !! k = None → map !! k = None)).
Proof.
  intros Hsupports. unfold createEnvelope.
  destruct (convert decl largeNumberText telemetry telemetryType) as [[d|]|e] eqn:Hconvert;
    [|done..].
  rewrite bind_Normal, Hsupports. pose proof (convert_properties _ _ _ Hconvert) as Hprops.
  unfold applyCommonProperties. rewrite Hprops. cbn [bagValue].
  fold (plainObject (mergeCommonProperties (Telemetry.properties telemetry) common)).
  destruct (validate _) as [sanitized|e] eqn:Hvalidate; [|done].
  destruct (fmap_Some_Normal _ _ Hvalidate) as (map & _ & ->).
  cbn [mbind completion_bind fmap completion_fmap]. unfold assembleEnvelope.
  destruct (getTags getCurrentContext context (Telemetry.tagOverrides telemetry) σ)
    as [[tags σ'']|e]; [|done].
  cbn [mbind completion_bind]. intros [= <- <-]. cbn [data baseData].
  exists map. split; [done|]. split; [by destruct (baseData d)|].
  pose proof (PropertyFacts.validateStringMap_truncatedFrom _ _ _ _ Hvalidate) as Hfrom.
  split.
  - intros k s Hk. apply Hfrom in Hk as (o & text & _ & _ & ->).
    rewrite length_prefix. unfold MAX_PROPERTY_LENGTH. lia.
  - split.
    + intros Hnone k c Hc _. apply Hfrom. exists (VString c), c. split; [|done].
      unfold plainObject. cbn [enumerable]. rewrite Hnone.
      cbn [mergeCommonProperties]. unfold stringBag. by rewrite lookup_fmap, Hc.
    + intros body Hbody. rewrite Hbody in Hfrom.
      assert (∀ k c, common !! k = Some c → truthy (lookupValue body k) = false →
                     map !! k = Some (JsString.prefix MAX_PROPERTY_LENGTH c)) as Hfalsy.
      { intros k c Hc Hk. apply Hfrom. exists (VString c), c. split; [|done].
        unfold plainObject. cbn [enumerable].
        rewrite PropertyFacts.mergeCommonProperties_lookup. unfold mergedValue.
        unfold lookupValue in Hk.
        destruct (body !! k) as [v|]; [by rewrite Hk, Hc|].
        rewrite PropertyFacts.truthy_inherited in Hk. by rewrite Hk, Hc. }
      split; [by intros k c Hc _; apply Hfalsy|]. split.
      * intros k c Hc Hk Hown. apply (Hfalsy k c Hc). unfold lookupValue.
        destruct (body !! k) as [v|]; [by apply Hown|].
        rewrite PropertyFacts.truthy_inherited. by apply bool_decide_eq_false.
      * intros k Hk Hown. destruct (map !! k) as [s|] eqn:Hs; [|done].
        apply Hfrom in Hs as (o & text & Ho & _). revert Ho.
        unfold plainObject. cbn [enumerable].
        rewrite PropertyFacts.mergeCommonProperties_lookup. unfold mergedValue.
        rewrite Hown. by rewrite bool_decide_eq_true_2.
Qed.
End Assembly.

(** The theorem of X18 on an empty trace item with the common property
    a = "b". *)
Lemma createEnvelope_returns_iff_witness :
  returns
    (createEnvelope Examples.declarations (fun _ => "") (fun _ => "") (fun _ => Normal None)
       None "2020-01-01T00:00:00.000Z" Examples.emptyTelemetry "MessageData"
       (Some {[ "a" := "b" ]}) None (Some Examples.config) ∅)
  ↔ "MessageData" ∈ recognized Examples.declarations
    ∧ ("MessageData" = EXCEPTION (dataTypes Examples.declarations)
       → is_Some (Telemetry.exception Examples.emptyTelemetry))
    ∧ (∀ common, Some ({[ "a" := "b" ]} : gmap string string) = Some common →
         returns (validateStringMap (fun _ => "") (fun _ => Normal None)
                    (plainObject
                       (mergeCommonProperties
                          (Telemetry.properties Examples.emptyTelemetry) common))))
    ∧ (is_Some (None : option CorrelationContext.t) → is_Some (None : option Context.t)).
Proof.
  apply (createEnvelope_returns_iff Examples.declarations (fun _ => "") (fun _ => "")
           (fun _ => Normal None) None "2020-01-01T00:00:00.000Z" Examples.emptyTelemetry
           "MessageData" (Some {[ "a" := "b" ]}) None (Some Examples.config) ∅).
  - apply (bool_decide_unpack _). vm_compute. reflexivity.
  - intros d. reflexivity.
Defined.

(** The theorem of X17 on an item with the properties a = "1" and b = "":
    of the common properties a = "2", b = "3", c = "4" and constructor = "x",
    the envelope has b and c, keeps its own a, and has no constructor. *)
Lemma createEnvelope_properties_witness :
  let common : gmap string string :=
    {[ "a" := "2"; "b" := "3"; "c" := "4"; "constructor" := "x" ]} in
  ∃ envelope σ' map,
    createEnvelope Examples.declarations (fun _ => "") (fun _ => "") (fun _ => Normal None)
      None "2020-01-01T00:00:00.000Z" Examples.propertiesTelemetry "MessageData"
      (Some common) None (Some Examples.config) ∅ = Normal (envelope, σ') ∧
    properties (baseData (data envelope)) = Some (stringBag map) ∧
    map !! "a" = Some "1" ∧ map !! "b" = Some "3" ∧ map !! "c" = Some "4" ∧
    map !! "constructor" = None.
Proof.
  intros common.
  assert (∃ r,
            createEnvelope Examples.declarations (fun _ => "") (fun _ => "")
              (fun _ => Normal None) None "2020-01-01T00:00:00.000Z"
              Examples.propertiesTelemetry "MessageData" (Some common) None
              (Some Examples.config) ∅ = Normal r) as [[envelope σ'] Hcreate].
  { vm_compute. by eexists. }
  destruct (createEnvelope_properties Examples.declarations (fun _ => "") (fun _ => "")
              (fun _ => Normal None) None "2020-01-01T00:00:00.000Z"
              Examples.propertiesTelemetry "MessageData" common None
              (Some Examples.config) ∅ envelope σ'
              ltac:(by intros d) Hcreate) as (map & Hmap & Hprops & _ & _ & Hbody).
  destruct (Hbody _ eq_refl) as (_ & Hset & Hout).
  exists envelope, σ', map. split; [done|]. split; [done|]. split; [|split; [|split]].
  - revert Hmap. vm_compute. by intros [= <-].
  - apply (Hset "b" "3"); [done|by apply (bool_decide_unpack _)|].
    intros v. vm_compute. by intros [= <-].
  - apply (Hset "c" "4"); [done|by apply (bool_decide_unpack _)|].
    intros v. vm_compute. by intros [=].
  - apply Hout; [by apply (bool_decide_unpack _)|done].
Defined.
End AssemblyFacts.

(** ** msToTimeSpan on whole milliseconds *)

Module WholeTimeFacts.
Import JsString JsNumber Util Vocabulary NumberVocabulary TimeVocabulary NumberFacts.

Lemma allFrom_spec P count z0 z :
  allFrom P count z0 = true → z0 ≤ z < z0 + Z.of_nat count → P z = true.
Proof.
  revert z0. induction count as [|count IH]; intros z0; cbn [allFrom]; [lia|].
  intros [HP Hrest]%andb_prop Hz.
  destruct (decide (z = z0)) as [->|Hne]; [done|].
  apply (IH (z0 + 1)); [done|lia].
Qed.

Lemma secOfCount_all :
  allFrom (fun c => String.eqb (secOfCount c)
                      (twoDigits (c / 1000) +:+ "." +:+ threeDigits (c mod 1000)))
    (Z.to_nat 60000) 0 = true.
Proof. vm_cast_no_check (eq_refl true). Qed.

Lemma secOfCount_digits (c : Z) :
  0 ≤ c < 60000 →
  secOfCount c = twoDigits (c / 1000) +:+ "." +:+ threeDigits (c mod 1000).
Proof.
  intros Hc. apply String.eqb_eq.
  apply (allFrom_spec _ _ _ c secOfCount_all). lia.
Qed.

Lemma pad2_all :
  allFrom (fun n => String.eqb (pad2 (decimal (Z.to_N n))) (twoDigits n)) 60 0 = true.
Proof. vm_cast_no_check (eq_refl true). Qed.

Lemma pad2_digits (n : Z) : 0 ≤ n < 60 → pad2 (decimal (Z.to_N n)) = twoDigits n.
Proof.
  intros Hn. apply String.eqb_eq. apply (allFrom_spec _ _ _ n pad2_all). lia.
Qed.

Section Whole.
Variable largeNumberText : Z → string.
Local Open Scope Q_scope.

(** Below 10^21, [toFixed] prints the integer nearest to [y * 10^f]. *)
Lemma toFixed_nonneg (y : Q) (f : nat) :
  0 <= y → y < inject_Z (10 ^ 21) →
  toFixed largeNumberText (Finite y) f
  = printFixed (Qfloor (y * inject_Z (10 ^ Z.of_nat f) + (1 # 2))) f.
Proof.
  intros H0 Hlt. unfold toFixed, printFixed.
  rewrite (Qabs_nonneg_eq y H0).
  assert (Qle_bool (inject_Z (10 ^ 21)) y = false) as ->.
  { destruct (Qle_bool _ y) eqn:Hc; [|done]. apply Qle_bool_iff in Hc. lra. }
  destruct (Qcompare_spec y 0) as [_|Hneg|_]; [done|lra|done].
Qed.

(** The integral fields: the floor of the rounded quotient, printed. *)
Lemma integral_field (ms c e : Z) :
  (0 <= ms)%Z → (0 < c)%Z → (ms < c * 2 ^ (e + 1))%Z → (0 <= e <= 52)%Z →
  inject_Z c * pow2 (e - 53) < 1 →
  floor (div (ofZ ms) c) = IInt (ms / c).
Proof.
  intros. unfold floor, div, ofZ. f_equal. by apply floor_round53_div with (e := e).
Qed.

Lemma integralText_small (z : Z) :
  (0 <= z < 2 ^ 53)%Z → integralText largeNumberText (IInt z) = decimal (Z.to_N z).
Proof.
  intros Hz. unfold integralText, toText, maxSafe.
  destruct (Z.ltb_spec z 0); [lia|]. destruct (Z.ltb_spec z (2 ^ 53)); [done|lia].
Qed.

(** The seconds within the minute, as the division and the remainder leave
    them: the exact value, up to the rounding of the division. *)
Lemma seconds_value (ms : Z) :
  (0 <= ms < 2 ^ 29 * 1000)%Z →
  ∃ y, rem (div (ofZ ms) 1000) 60 = Finite y ∧ 0 <= y ∧ y < 60 ∧
       Qfloor (y * inject_Z (10 ^ 7) + (1 # 2)) = (ms mod 60000 * 10 ^ 4)%Z.
Proof.
  intros Hms.
  pose proof (Z.div_mod ms 60000 ltac:(lia)) as Hdm.
  pose proof (Z.mod_pos_bound ms 60000 ltac:(lia)) as Hmod.
  assert (0 <= ms / 60000)%Z as HM by (apply Z.div_pos; lia).
  remember (ms / 60000)%Z as M eqn:HMdef. remember (ms mod 60000)%Z as S eqn:HSdef.
  remember (inject_Z ms / inject_Z 1000) as q eqn:Hqdef.
  assert (q == inject_Z 60 * inject_Z M + inject_Z S * (1 # 1000)) as Hq.
  { subst q. rewrite Hdm at 1. rewrite inject_Z_plus, inject_Z_mult.
    change (inject_Z 60000) with 60000. change (inject_Z 1000) with 1000.
    change (inject_Z 60) with 60. field. }
  change (inject_Z 60) with 60 in Hq.
  assert (0 <= inject_Z M) as HM' by (change 0 with (inject_Z 0); by rewrite <- Zle_Qle).
  assert (0 <= inject_Z S) as HS0 by (change 0 with (inject_Z 0); rewrite <- Zle_Qle; lia).
  assert (inject_Z S <= 59999) as HS1 by (change 59999 with (inject_Z 59999); rewrite <- Zle_Qle; lia).
  remember (round53 q) as x eqn:Hxdef.
  assert (0 <= q) as Hq0 by lra.
  pose proof (round53_nonneg q Hq0) as Hx0. rewrite <- Hxdef in Hx0.
  set (δ := 1 # 33554432).
  assert ((S = 0%Z ∧ x == q) ∨ ((1 <= S)%Z ∧ q - δ <= x ∧ x <= q + δ)) as Hx.
  { destruct (Z.eq_dec S 0%Z) as [HS|HS].
    - left. split; [done|]. rewrite Hxdef.
      assert (q == inject_Z (60 * M)) as Hw.
      { rewrite Hq, HS, inject_Z_mult. change (inject_Z 0) with 0.
        change (inject_Z 60) with 60. field. }
      rewrite (round53_whole q (60 * M) Hw) by lia. by rewrite Hw.
    - right. split; [lia|].
      assert (1 <= inject_Z S) as HS2 by (change 1 with (inject_Z 1); rewrite <- Zle_Qle; lia).
      assert (0 < q) as Hqpos by lra.
      assert (q < pow2 (28 + 1)) as Hlt.
      { rewrite Hqdef. apply Qlt_shift_div_r; [done|]. rewrite pow2_Z by done.
        rewrite <- inject_Z_mult, <- Zlt_Qlt. lia. }
      pose proof (ulpExp_le q 28 Hqpos Hlt ltac:(done)) as Hu.
      destruct (round53_error q Hqpos) as [Hlo Hhi]. rewrite <- Hxdef in Hlo, Hhi.
      pose proof (pow2_le (ulpExp q - 1) (-25) ltac:(lia)) as Hpe.
      assert (pow2 (-25) == δ) as Hδ by reflexivity. lra. }
  assert (60 * inject_Z M <= x ∧ x < 60 * inject_Z M + 60) as [HxM HxM'].
  { unfold δ in Hx. destruct Hx as [[HS Hxq]|(HS & Hlo & Hhi)].
    - rewrite HS in Hq. change (inject_Z 0) with 0 in Hq. lra.
    - assert (1 <= inject_Z S) as HS2 by (change 1 with (inject_Z 1); by rewrite <- Zle_Qle).
      lra. }
  assert (Qfloor (x / inject_Z 60) = M) as Hfloor.
  { apply Qfloor_unique; change (inject_Z 60) with 60.
    - apply Qle_shift_div_l; lra.
    - apply Qlt_shift_div_r; lra. }
  exists (Qred (x - inject_Z (M * 60))).
  split.
  { unfold div, rem, ofZ. rewrite <- Hqdef, <- Hxdef.
    destruct (Qcompare_spec x 0) as [_|Hneg|_]; [|lra|]; by rewrite Hfloor. }
  rewrite Qred_correct, inject_Z_mult. change (inject_Z 60) with 60.
  split; [lra|]. split; [lra|].
  apply Qfloor_unique; rewrite inject_Z_mult, ?Qred_correct;
    change (inject_Z (10 ^ 7)) with 10000000; change (inject_Z (10 ^ 4)) with 10000;
    unfold δ in Hx; destruct Hx as [[HS Hxq]|(HS & Hlo & Hhi)];
    try (rewrite HS in *; change (inject_Z 0) with 0 in *); lra.
Qed.

(** The seconds field of a whole number of milliseconds. *)
Lemma secText_whole (ms : Z) :
  (0 <= ms < 2 ^ 29 * 1000)%Z →
  secText largeNumberText (ofZ ms)
  = twoDigits (ms / 1000 mod 60) +:+ "." +:+ threeDigits (ms mod 1000).
Proof.
  intros Hms. destruct (seconds_value ms Hms) as (y & Hy & Hy0 & Hy60 & Hcount).
  unfold secText, secFixed. rewrite Hy.
  rewrite toFixed_nonneg by (try done; change (inject_Z (10 ^ 21)) with 1000000000000000000000; lra).
  change (Z.of_nat 7) with 7%Z. rewrite Hcount.
  fold (secOfCount (ms mod 60000)).
  pose proof (Z.mod_pos_bound ms 60000 ltac:(lia)) as Hmod.
  rewrite secOfCount_digits by lia. f_equal; [|f_equal]; f_equal.
  - Z.div_mod_to_equations. lia.
  - Z.div_mod_to_equations. lia.
Qed.

Lemma two_digit_field (ms c e m : Z) :
  (0 <= ms)%Z → (0 < c)%Z → (ms < c * 2 ^ (e + 1))%Z → (0 <= e <= 52)%Z →
  inject_Z c * pow2 (e - 53) < 1 → (0 < m <= 60)%Z →
  pad2 (integralText largeNumberText (irem (floor (div (ofZ ms) c)) m))
  = twoDigits (ms / c mod m).
Proof.
  intros Hms Hc Hbound He Hfine Hm.
  rewrite (integral_field ms c e) by done. cbn [irem].
  assert (0 <= ms / c)%Z by (apply Z.div_pos; lia).
  rewrite Z.rem_mod_nonneg by lia.
  pose proof (Z.mod_pos_bound (ms / c) m ltac:(lia)).
  rewrite integralText_small by lia. apply pad2_digits. lia.
Qed.

(** X19: for a whole number of milliseconds from 0 to below 2^29 seconds,
    [msToTimeSpan] prints hh:mm:ss.fff with exactly three digits after the
    point, preceded by the days and a point when there is a day or more. *)
Theorem msToTimeSpan_whole_milliseconds (ms : Z) :
  (0 <= ms < 2 ^ 29 * 1000)%Z →
  msToTimeSpan largeNumberText (ofZ ms) = timeSpanText ms.
Proof.
  intros Hms. unfold msToTimeSpan, timeSpanText.
  assert (clampMs (ofZ ms) = ofZ ms) as ->.
  { unfold clampMs, ofZ. cbn [isNaN ltZero orb].
    destruct (Qcompare_spec (inject_Z ms) 0) as [_|Hneg|_]; [done| |done].
    change 0 with (inject_Z 0) in Hneg. rewrite <- Zlt_Qlt in Hneg. lia. }
  rewrite secText_whole by done.
  unfold hourText, minText.
  rewrite (two_digit_field ms (1000 * 60 * 60) 17 24) by (try done; lia).
  rewrite (two_digit_field ms (1000 * 60) 23 60) by (try done; lia).
  unfold daysText, days.
  rewrite (integral_field ms (1000 * 60 * 60 * 24) 12) by (try done; lia).
  cbn [gtZero]. change (1000 * 60 * 60 * 24)%Z with 86400000%Z.
  change (1000 * 60 * 60)%Z with 3600000%Z. change (1000 * 60)%Z with 60000%Z.
  destruct (Z.ltb_spec 0 (ms / 86400000)) as [Hd|Hd]; [|done].
  rewrite integralText_small; [done|].
  split; [lia|]. apply Z.div_lt_upper_bound; lia.
Qed.
End Whole.

Lemma msToTimeSpan_whole_milliseconds_witness :
  msToTimeSpan (fun _ => "") (ofZ 93784005) = timeSpanText 93784005.
Proof. apply msToTimeSpan_whole_milliseconds. done. Defined.

Example timeSpanText_examples :
  timeSpanText 93784005 = "1.02:03:04.005" ∧ timeSpanText 0 = "00:00:00.000" ∧
  timeSpanText 59999 = "00:00:59.999".
Proof. done. Qed.
End WholeTimeFacts.

(** ** The frame pattern on the lines of a V8 stack trace *)

Module EngineFacts.
Import JsString Regex Vocabulary FrameVocabulary.

Section Engine.
Context {R : Type}.
Implicit Types k : nat → string → option R.

(** A quantifier that matches has consumed a run of its class. *)
Lemma rep_sound g p lo hi pos s k :
  is_Some (rep g p lo hi pos s k) →
  ∃ s1 s2, s = s1 +:+ s2 ∧ allChars p s1 = true
           ∧ is_Some (k (pos + String.length s1)%nat s2).
Proof.
  revert lo hi pos. induction s as [|c s IH]; intros lo hi pos.
  - assert (is_Some (k pos "") →
            ∃ s1 s2, "" = s1 +:+ s2 ∧ allChars p s1 = true
                     ∧ is_Some (k (pos + String.length s1)%nat s2)) as Hhere.
    { intros Hk. exists "", "". by rewrite Nat.add_0_r. }
    destruct g; cbn [rep]; destruct lo.
    + exact Hhere.
    + by intros [? [=]].
    + destruct (k pos "") eqn:Hk; [|by intros [? [=]]].
      intros _. by apply Hhere.
    + by intros [? [=]].
  - assert (is_Some (k pos (String c s)) →
            ∃ s1 s2, String c s = s1 +:+ s2 ∧ allChars p s1 = true
                     ∧ is_Some (k (pos + String.length s1)%nat s2)) as Hhere.
    { intros Hk. exists "", (String c s). by rewrite Nat.add_0_r. }
    assert (is_Some (if canTake hi && p c then rep g p (Nat.pred lo) (decr hi) (S pos) s k
                     else None) →
            ∃ s1 s2, String c s = s1 +:+ s2 ∧ allChars p s1 = true
                     ∧ is_Some (k (pos + String.length s1)%nat s2)) as Hnext.
    { destruct (canTake hi); cbn [andb]; [|by intros [? [=]]].
      destruct (p c) eqn:Hc; [|by intros [? [=]]].
      intros (s1 & s2 & -> & Hs1 & Hk)%IH.
      exists (String c s1), s2. cbn. rewrite Hc, Hs1.
      by replace (pos + S (String.length s1))%nat with (S pos + String.length s1)%nat by lia. }
    destruct g; cbn [rep].
    + destruct (if canTake hi && p c then _ else None) eqn:Hn.
      * intros _. by apply Hnext.
      * destruct lo; [done|by intros [? [=]]].
    + destruct lo; [|done].
      destruct (k pos (String c s)) eqn:Hk; [intros _; by apply Hhere|done].
Qed.

Lemma rep_none g p lo hi pos s k :
  (∀ s1 s2, s = s1 +:+ s2 → allChars p s1 = true → k (pos + String.length s1)%nat s2 = None) →
  rep g p lo hi pos s k = None.
Proof.
  intros Hall. destruct (rep g p lo hi pos s k) as [r|] eqn:Hrep; [|done].
  destruct (rep_sound g p lo hi pos s k) as (s1 & s2 & Hs & Hp & Hk); [by rewrite Hrep|].
  rewrite (Hall s1 s2 Hs Hp) in Hk. by destruct Hk.
Qed.

(** A greedy quantifier settles on the longest run after which the rest of
    the expression matches. *)
Lemma rep_greedy_first p lo pos s1 s2 k r :
  allChars p s1 = true → (lo ≤ String.length s1)%nat →
  k (pos + String.length s1)%nat s2 = Some r →
  (∀ t1 t2, s2 = t1 +:+ t2 → t1 ≠ "" → allChars p t1 = true →
            k (pos + String.length s1 + String.length t1)%nat t2 = None) →
  rep true p lo None pos (s1 +:+ s2) k = Some r.
Proof.
  revert lo pos. induction s1 as [|c s1 IH]; intros lo pos Hp Hlo Hk Hlonger.
  - cbn in Hlo. assert (lo = 0%nat) as -> by lia. cbn [String.append].
    rewrite Nat.add_0_r in Hk. cbn [String.length] in Hlonger.
    destruct s2 as [|d s2]; cbn [rep]; [done|]. cbn [canTake decr andb].
    destruct (p d) eqn:Hd; [|done].
    rewrite rep_none; [done|].
    intros t1 t2 -> Ht1.
    replace (S pos + String.length t1)%nat
      with (pos + 0 + String.length (String d t1))%nat by (cbn; lia).
    apply Hlonger; [done|done|]. cbn. by rewrite Hd.
  - cbn in Hp. apply andb_prop in Hp as [Hc Hp]. cbn [String.append rep canTake decr andb].
    rewrite Hc. rewrite (IH (Nat.pred lo) (S pos)); [done|done|cbn in Hlo; lia| |].
    + by replace (S pos + String.length s1)%nat
        with (pos + String.length (String c s1))%nat by (cbn; lia).
    + intros t1 t2 Hs Ht1 Hpt.
      replace (S pos + String.length s1 + String.length t1)%nat
        with (pos + String.length (String c s1) + String.length t1)%nat by (cbn; lia).
      by apply Hlonger.
Qed.

(** A lazy quantifier settles on the shortest run after which the rest of
    the expression matches. *)
Lemma rep_lazy_first p pos s1 s2 k r :
  allChars p s1 = true →
  k (pos + String.length s1)%nat s2 = Some r →
  (∀ t1 t2, s1 = t1 +:+ t2 → t2 ≠ "" → k (pos + String.length t1)%nat (t2 +:+ s2) = None) →
  rep false p 0 None pos (s1 +:+ s2) k = Some r.
Proof.
  revert pos. induction s1 as [|c s1 IH]; intros pos Hp Hk Hshorter.
  - cbn [String.append]. rewrite Nat.add_0_r in Hk.
    destruct s2; cbn [rep]; by rewrite Hk.
  - cbn in Hp. apply andb_prop in Hp as [Hc Hp]. cbn [String.append rep canTake decr andb].
    pose proof (Hshorter "" (String c s1) eq_refl ltac:(done)) as Hnow.
    rewrite Nat.add_0_r in Hnow. cbn [String.append] in Hnow. rewrite Hnow, Hc.
    apply IH; [done| |].
    + by replace (S pos + String.length s1)%nat
        with (pos + String.length (String c s1))%nat by (cbn; lia).
    + intros t1 t2 -> Ht2.
      replace (S pos + String.length t1)%nat
        with (pos + String.length (String c t1))%nat by (cbn; lia).
      by apply (Hshorter (String c t1) t2).
Qed.
End Engine.
End EngineFacts.

Module FrameFacts.
Import JsString Regex Vocabulary CookieVocabulary FrameVocabulary StackFrame EngineFacts.

Lemma count_app c a b : count c (a +:+ b) = (count c a + count c b)%nat.
Proof. induction a as [|d a IH]; cbn; [done|]. rewrite IH. lia. Qed.

Lemma count_allChars p c s : p c = false → allChars p s = true → count c s = 0%nat.
Proof.
  intros Hc. induction s as [|d s IH]; cbn; [done|].
  intros [Hd Hs]%andb_prop. rewrite (IH Hs).
  destruct (Ascii.eqb_spec d c) as [->|]; [congruence|done].
Qed.

Lemma contains_allChars p c s : p c = false → allChars p s = true → contains c s = false.
Proof.
  intros Hc. induction s as [|d s IH]; cbn; [done|].
  intros [Hd Hs]%andb_prop. rewrite (IH Hs).
  destruct (Ascii.eqb_spec d c) as [->|]; [congruence|done].
Qed.

Lemma isChar_true a c : isChar a c = true → c = a.
Proof. unfold isChar. by intros ->%Ascii.eqb_eq. Qed.

Section Tails.
Context {R : Type}.
Implicit Types k : nat → string → captures → option R.

Lemma tail7_sound pos s caps k : is_Some (run tail7 pos s caps k) → s = ")" ∨ s = "".
Proof.
  unfold tail7. cbn [run lit seqs].
  destruct s as [|c [|d s]]; [by right| |].
  - destruct (isChar ")" c) eqn:Hc; [apply isChar_true in Hc as ->; by left|].
    by intros [? [=]].
  - destruct (isChar ")" c); by intros [? [=]].
Qed.

Lemma tail6_sound pos s caps k :
  is_Some (run tail6 pos s caps k) → count ":" s = 0%nat ∧ count "(" s = 0%nat.
Proof.
  unfold tail6, digits. cbn [run].
  intros (d & z & -> & Hd & Hz%tail7_sound)%rep_sound.
  rewrite !count_app, !(count_allChars isDigit _ d) by done.
  by destruct Hz as [->| ->].
Qed.

Lemma tail5_sound pos s caps k :
  is_Some (run tail5 pos s caps k) → count ":" s = 2%nat ∧ count "(" s = 0%nat.
Proof.
  unfold tail5, digits. cbn [run lit].
  destruct s as [|c s]; [by intros [? [=]]|].
  destruct (isChar ":" c) eqn:Hc; [apply isChar_true in Hc as ->|by intros [? [=]]].
  intros (d & z & -> & Hd & Hz)%rep_sound.
  destruct z as [|c z]; [by destruct Hz as [? [=]]|].
  destruct (isChar ":" c) eqn:Hc; [apply isChar_true in Hc as ->|by destruct Hz as [? [=]]].
  apply tail6_sound in Hz as [Hz1 Hz2].
  cbn [count]. rewrite !count_app, !(count_allChars isDigit _ d) by done.
  cbn [count]. rewrite Hz1, Hz2. done.
Qed.

Lemma tail4_sound pos s caps k :
  is_Some (run tail4 pos s caps k) → count "(" s = 0%nat.
Proof.
  unfold tail4. cbn [run].
  intros (f & z & -> & Hf & [_ Hz]%tail5_sound)%rep_sound.
  by rewrite count_app, (count_allChars isLocationChar _ f), Hz.
Qed.

Lemma tail4_fails pos s caps k : count "(" s ≠ 0%nat → run tail4 pos s caps k = None.
Proof.
  intros Hs. apply eq_None_not_Some. by intros ?%tail4_sound.
Qed.

(** While the opening parenthesis of the location is ahead, the expression
    does not match from its third group on. *)
Lemma tail3_fails pos t w caps k : t ≠ "" → run tail3 pos (t +:+ " (" +:+ w) caps k = None.
Proof.
  destruct t as [|a t]; [done|]. intros _.
  assert (∀ t' : string, count "(" (t' +:+ " (" +:+ w) ≠ 0%nat) as Hcount.
  { intros t'. rewrite count_app. cbn. lia. }
  unfold tail3. cbn [run lit String.append].
  rewrite !tail4_fails by apply Hcount.
  destruct t as [|c t]; cbn [String.append].
  - change (isChar "(" " ") with false. by destruct (isChar "@" a), (isSpace a).
  - rewrite !tail4_fails by apply Hcount.
    by destruct (isChar "@" a), (isSpace a), (isChar "(" c).
Qed.

Lemma tail7_run pos close caps k r :
  close = ")" ∨ close = "" →
  k (pos + String.length close)%nat ""
    (<[7%nat := Some (pos, (pos + String.length close)%nat)]> caps) = Some r →
  run tail7 pos close caps k = Some r.
Proof.
  intros [-> | ->] Hk; unfold tail7; cbn [run lit seqs String.length] in *.
  - change (isChar ")" ")") with true. cbv iota.
    rewrite Nat.add_1_r in Hk. by rewrite Hk.
  - by rewrite Nat.add_0_r in Hk.
Qed.

Lemma tail6_run pos col close caps k r :
  col ≠ "" → allChars isDigit col = true → close = ")" ∨ close = "" →
  (let p7 := (pos + String.length col)%nat in
   k (p7 + String.length close)%nat ""
     (<[7%nat := Some (p7, (p7 + String.length close)%nat)]>
        (<[6%nat := Some (pos, p7)]> caps)) = Some r) →
  run tail6 pos (col +:+ close) caps k = Some r.
Proof.
  intros Hne Hcol Hclose Hk. unfold tail6, digits. cbn [run].
  apply rep_greedy_first; [done|destruct col; [done|cbn; lia]| |].
  - by apply tail7_run.
  - intros [|c t1] t2 Heq Ht1 Hp; [done|].
    destruct Hclose as [-> | ->]; [|done]. injection Heq as <- _.
    by vm_compute in Hp.
Qed.

Lemma tail5_run pos ln col close caps k r :
  ln ≠ "" → allChars isDigit ln = true → col ≠ "" → allChars isDigit col = true →
  close = ")" ∨ close = "" →
  (let p5 := S pos in
   let p6 := S (p5 + String.length ln) in
   let p7 := (p6 + String.length col)%nat in
   k (p7 + String.length close)%nat ""
     (<[7%nat := Some (p7, (p7 + String.length close)%nat)]>
        (<[6%nat := Some (p6, p7)]>
           (<[5%nat := Some (p5, (p5 + String.length ln)%nat)]> caps))) = Some r) →
  run tail5 pos (":" +:+ ln +:+ ":" +:+ col +:+ close) caps k = Some r.
Proof.
  intros Hne Hln Hne' Hcol Hclose Hk. unfold tail5, digits. cbn [run lit String.append].
  change (isChar ":" ":") with true. cbv iota.
  apply rep_greedy_first; [done|destruct ln; [done|cbn; lia]| |].
  - cbn [String.append]. change (isChar ":" ":") with true. cbv iota.
    by apply tail6_run.
  - intros [|c t1] t2 Heq Ht1 Hp; [done|]. injection Heq as <- _.
    by vm_compute in Hp.
Qed.

Lemma count_location ln col close :
  allChars isDigit ln = true → allChars isDigit col = true → close = ")" ∨ close = "" →
  count ":" (":" +:+ ln +:+ ":" +:+ col +:+ close) = 2%nat.
Proof.
  intros Hln Hcol Hclose. cbn [String.append count].
  rewrite count_app, (count_allChars isDigit _ ln) by done. cbn [String.append count].
  rewrite count_app, (count_allChars isDigit _ col) by done.
  by destruct Hclose as [-> | ->].
Qed.

(** The fourth group runs to the last colon but one. *)
Lemma tail4_run pos file ln col close caps k r :
  file ≠ "" → allChars isLocationChar file = true →
  ln ≠ "" → allChars isDigit ln = true → col ≠ "" → allChars isDigit col = true →
  close = ")" ∨ close = "" →
  k (locationEnd pos file ln col close) "" (locationCaptures pos file ln col close caps)
  = Some r →
  run tail4 pos (locationText file ln col close) caps k = Some r.
Proof.
  intros Hne Hfile Hne' Hln Hne'' Hcol Hclose Hk. unfold tail4, locationText. cbn [run].
  apply rep_greedy_first; [done|destruct file; [done|cbn; lia]| |].
  - apply tail5_run; [done..|]. exact Hk.
  - intros t1 t2 Heq Ht1 _. apply eq_None_not_Some. intros [Ht2 _]%tail5_sound.
    pose proof (count_location ln col close Hln Hcol Hclose) as Hcount.
    rewrite Heq, count_app, Ht2 in Hcount.
    destruct t1 as [|c t1]; [done|]. injection Heq as <- _. cbn in Hcount. lia.
Qed.

Lemma tail3_named pos file ln col caps k r :
  file ≠ "" → allChars isLocationChar file = true →
  ln ≠ "" → allChars isDigit ln = true → col ≠ "" → allChars isDigit col = true →
  k (locationEnd (S (S pos)) file ln col ")") ""
    (locationCaptures (S (S pos)) file ln col ")" (<[3%nat := Some (pos, S (S pos))]> caps))
    = Some r →
  run tail3 pos (" (" +:+ locationText file ln col ")") caps k = Some r.
Proof.
  intros Hne Hfile Hne' Hln Hne'' Hcol Hk. unfold tail3. cbn [run lit String.append].
  change (isChar "@" " ") with false. change (isSpace " ") with true.
  change (isChar "(" "(") with true. cbv iota.
  rewrite (tail4_run _ _ _ _ _ _ _ r); [done..|by left|done].
Qed.

Lemma tail3_anonymous pos file ln col caps k r :
  file ≠ "" → allChars isLocationChar file = true →
  ln ≠ "" → allChars isDigit ln = true → col ≠ "" → allChars isDigit col = true →
  k (locationEnd (S pos) file ln col "") ""
    (locationCaptures (S pos) file ln col "" (<[3%nat := Some (pos, S pos)]> caps))
    = Some r →
  run tail3 pos (" " +:+ locationText file ln col "") caps k = Some r.
Proof.
  intros Hne Hfile Hne' Hln Hne'' Hcol Hk. unfold tail3. cbn [run lit String.append].
  change (isChar "@" " ") with false. change (isSpace " ") with true. cbv iota.
  rewrite (tail4_run (S pos) _ _ _ _ _ _ r); [|done..|by right|done].
  destruct file as [|c file]; [done|]. unfold locationText. cbn [String.append].
  cbn [allChars] in Hfile. apply andb_prop in Hfile as [Hc _].
  assert (isChar "(" c = false) as ->; [|done].
  unfold isLocationChar in Hc. by destruct (isChar "(" c).
Qed.

(** The second group, lazy, stops at the first place from which the rest
    matches: before the parenthesis of a named frame, ... *)
Lemma tail2_named pos m file ln col caps k r :
  allChars isDot m = true →
  file ≠ "" → allChars isLocationChar file = true →
  ln ≠ "" → allChars isDigit ln = true → col ≠ "" → allChars isDigit col = true →
  (let p3 := (pos + String.length m)%nat in
   k (locationEnd (S (S p3)) file ln col ")") ""
     (locationCaptures (S (S p3)) file ln col ")"
        (<[3%nat := Some (p3, S (S p3))]> (<[2%nat := Some (pos, p3)]> caps))) = Some r) →
  run tail2 pos (m +:+ " (" +:+ locationText file ln col ")") caps k = Some r.
Proof.
  intros Hm Hne Hfile Hne' Hln Hne'' Hcol Hk. unfold tail2. cbn [run].
  apply rep_lazy_first; [done|by apply tail3_named|].
  intros t1 t2 _ Ht2. by apply tail3_fails.
Qed.

(** ... and at once in an anonymous one. *)
Lemma tail2_anonymous pos file ln col caps k r :
  file ≠ "" → allChars isLocationChar file = true →
  ln ≠ "" → allChars isDigit ln = true → col ≠ "" → allChars isDigit col = true →
  k (locationEnd (S pos) file ln col "") ""
    (locationCaptures (S pos) file ln col ""
       (<[3%nat := Some (pos, S pos)]> (<[2%nat := Some (pos, pos)]> caps))) = Some r →
  run tail2 pos (" " +:+ locationText file ln col "") caps k = Some r.
Proof.
  intros Hne Hfile Hne' Hln Hne'' Hcol Hk. unfold tail2. cbn [run].
  apply (rep_lazy_first isDot pos "" (" " +:+ locationText file ln col "")); [done| |].
  - cbn [String.length]. rewrite Nat.add_0_r. by apply tail3_anonymous.
  - by intros [|? ?] [|? ?].
Qed.

(** The first group takes the indentation and "at". *)
Lemma tail1_run indent rest caps k r :
  indent ≠ "" → allSpace indent = true →
  (let p2 := S (S (String.length indent)) in
   run tail2 p2 rest (<[1%nat := Some (O, p2)]> caps) k = Some r) →
  run tail1 0 (indent +:+ "at" +:+ rest) caps k = Some r.
Proof.
  intros Hne Hindent Hk. unfold tail1. cbn [run].
  rewrite (rep_greedy_first _ _ _ _ _ _ r); [done| |destruct indent; [done|cbn; lia]| |].
  - clear -Hindent. induction indent as [|c s IH]; [done|]. cbn in *.
    apply andb_prop in Hindent as [-> ?]. auto.
  - cbn [run lit String.append]. change (isChar "a" "a") with true.
    change (isChar "t" "t") with true. cbv iota. exact Hk.
  - intros [|c t1] t2 Heq Ht1 Hp; [done|]. injection Heq as <- _.
    by vm_compute in Hp.
Qed.
End Tails.

Lemma exec_matchAt s caps :
  matchAt ngroups regex 0 s = Some caps → exec ngroups regex s = Some caps.
Proof. intros Hmatch. unfold exec. destruct s; cbn [search]; by rewrite Hmatch. Qed.

Lemma exec_named indent method file ln col :
  indent ≠ "" → allSpace indent = true → allChars isDot method = true →
  file ≠ "" → allChars isLocationChar file = true →
  ln ≠ "" → allChars isDigit ln = true → col ≠ "" → allChars isDigit col = true →
  exec ngroups regex (indent +:+ "at " +:+ method +:+ " (" +:+ locationText file ln col ")")
  = Some (let p2 := S (S (String.length indent)) in
          let p3 := (p2 + String.length (" " +:+ method))%nat in
          <[O := Some (O, locationEnd (S (S p3)) file ln col ")")]>
            (locationCaptures (S (S p3)) file ln col ")"
               (<[3%nat := Some (p3, S (S p3))]>
                  (<[2%nat := Some (p2, p3)]>
                     (<[1%nat := Some (O, p2)]> (replicate 8 None)))))).
Proof.
  intros Hne Hindent Hm Hne1 Hfile Hne2 Hln Hne3 Hcol.
  apply exec_matchAt. unfold matchAt. change regex with (Seq Bol tail1). cbn [run].
  change ("at " +:+ method +:+ " (" +:+ locationText file ln col ")")
    with ("at" +:+ (" " +:+ method) +:+ " (" +:+ locationText file ln col ")").
  apply tail1_run; [done..|]. cbv zeta. apply tail2_named; [done..|]. reflexivity.
Qed.

Lemma exec_anonymous indent file ln col :
  indent ≠ "" → allSpace indent = true →
  file ≠ "" → allChars isLocationChar file = true →
  ln ≠ "" → allChars isDigit ln = true → col ≠ "" → allChars isDigit col = true →
  exec ngroups regex (indent +:+ "at " +:+ locationText file ln col "")
  = Some (let p2 := S (S (String.length indent)) in
          <[O := Some (O, locationEnd (S p2) file ln col "")]>
            (locationCaptures (S p2) file ln col ""
               (<[3%nat := Some (p2, S p2)]>
                  (<[2%nat := Some (p2, p2)]>
                     (<[1%nat := Some (O, p2)]> (replicate 8 None)))))).
Proof.
  intros Hne Hindent Hne1 Hfile Hne2 Hln Hne3 Hcol.
  apply exec_matchAt. unfold matchAt. change regex with (Seq Bol tail1). cbn [run].
  change ("at " +:+ locationText file ln col "")
    with ("at" +:+ " " +:+ locationText file ln col "").
  apply tail1_run; [done..|]. cbv zeta. apply tail2_anonymous; [done..|]. reflexivity.
Qed.

Lemma substring_middle a b c n m :
  n = String.length a → m = String.length b → String.substring n m (a +:+ b +:+ c) = b.
Proof.
  intros -> ->. induction a as [|x a IH]; cbn; [|done].
  induction b as [|y b IH]; cbn; [by destruct c|]. by rewrite IH.
Qed.

Lemma substring_empty n s : String.substring n 0 s = "".
Proof. revert s. induction n as [|n IH]; intros [|c s]; cbn; auto. Qed.

Lemma append_nonempty a b : b ≠ "" → a +:+ b ≠ "".
Proof. by destruct a, b. Qed.

Lemma trim_trimmed s : trimmed s → Util.trim (Some s) = s.
Proof.
  intros [H1 H2]. unfold Util.trim. rewrite (TrimFacts.trimStart_id s H1).
  by apply TrimFacts.trimEnd_id.
Qed.

Lemma digitsValue_uint d acc :
  JsNumber.digitsValue acc (NilEmpty.string_of_uint d) = uintValue acc d.
Proof.
  revert acc.
  induction d; intros acc;
    cbn [NilEmpty.string_of_uint JsNumber.digitsValue uintValue]; [done|..];
    rewrite <- IHd; reflexivity.
Qed.

Lemma uintValue_pos d acc : uintValue (Zpos acc) d = Zpos (Pos.of_uint_acc d acc).
Proof.
  revert acc. induction d; intros acc; cbn [uintValue Pos.of_uint_acc]; [done|..];
    rewrite <- IHd; f_equal; lia.
Qed.

Lemma uintValue_zero d : uintValue 0 d = Z.of_N (Pos.of_uint d).
Proof.
  induction d; cbn [uintValue Pos.of_uint]; [done|done|..];
    change (10 * 0 + ?k) with k; by rewrite uintValue_pos.
Qed.

(** The decimal text of a number reads back as the number. *)
Lemma digitsValue_decimal n : JsNumber.digitsValue 0 (decimal n) = Z.of_N n.
Proof.
  unfold decimal. transitivity (uintValue 0 (N.to_uint n)).
  - generalize (N.to_uint n). intros d. unfold NilZero.string_of_uint.
    destruct d; [reflexivity|..]; apply digitsValue_uint.
  - rewrite uintValue_zero. change (Pos.of_uint ?d) with (N.of_uint d).
    by rewrite DecimalN.Unsigned.of_to.
Qed.

Lemma allChars_uint d : allChars isDigit (NilEmpty.string_of_uint d) = true.
Proof.
  induction d; cbn [NilEmpty.string_of_uint allChars]; [done|..]; exact IHd.
Qed.

(** The decimal text of a number is a run of digits, and not empty. *)
Lemma decimal_numeral n : decimal n ≠ "" ∧ allChars isDigit (decimal n) = true.
Proof.
  unfold decimal, NilZero.string_of_uint.
  destruct (N.to_uint n) eqn:Hd; [done|..]; rewrite <- Hd; (split; [|apply allChars_uint]);
    by rewrite Hd.
Qed.

(** [parseInt(text) || 0] on the decimal text of a number below 2^53. *)
Lemma parseInt_decimal n :
  (n < 2 ^ 53)%N →
  JsNumber.orZero (JsNumber.parseInt (decimal n)) = JsNumber.IInt (Z.of_N n).
Proof.
  intros Hn. destruct (decimal_numeral n) as [Hne Hdigits].
  unfold JsNumber.parseInt. pose proof (digitsValue_decimal n) as Hv.
  destruct (decimal n) as [|c s]; [done|].
  apply andb_prop in Hdigits as [-> _]. rewrite Hv, NumberFacts.floor_ofQ_whole by lia.
  cbn. by destruct (Z.eqb_spec (Z.of_N n) 0) as [->|].
Qed.

Lemma integralText_decimal large n :
  (n < 2 ^ 53)%N → JsNumber.integralText large (JsNumber.IInt (Z.of_N n)) = decimal n.
Proof.
  intros Hn. unfold JsNumber.integralText, JsNumber.toText, JsNumber.maxSafe.
  destruct (Z.ltb_spec (Z.of_N n) 0); [lia|].
  destruct (Z.ltb_spec (Z.of_N n) (2 ^ 53)); [|lia]. by rewrite N2Z.id.
Qed.

(** The assembly of a frame is its line without the indentation. *)
Lemma trim_v8Line indent f :
  allSpace indent = true → isPlainFrame f → Util.trim (Some (v8Line indent f)) = v8Body f.
Proof.
  intros Hindent Hf. unfold Util.trim, v8Line.
  rewrite CookieFacts.trimStart_allSpace by done.
  assert (trimStart (v8Body f) = v8Body f) as -> by by destruct f.
  apply TrimFacts.trimEnd_id.
  destruct f as [method file ln col|file ln col]; unfold v8Body, locationText.
  - rewrite !CookieFacts.endsWithSpace_app by (repeat apply append_nonempty; done). done.
  - destruct (decimal_numeral ln) as [Hln Hdigits].
    destruct (decimal_numeral col) as [Hne Hcol].
    revert Hln Hne Hcol. generalize (decimal ln) (decimal col). clear.
    intros ln col Hln Hne Hcol.
    rewrite append_empty_r.
    rewrite !CookieFacts.endsWithSpace_app by (repeat apply append_nonempty; done).
    clear -Hne Hcol.
    induction col as [|c col IH]; [done|]. cbn [allChars] in Hcol.
    apply andb_prop in Hcol as [Hc Hcol]. destruct col as [|d col].
    + cbn. unfold isDigit, isSpace in *. destruct (code c) as [|p]; [done|].
      apply andb_prop in Hc as [Hlo Hhi]. apply N.leb_le in Hlo, Hhi.
      repeat (apply orb_false_intro); [apply andb_false_intro2|..];
        apply N.leb_gt || apply N.eqb_neq; lia.
    + apply IH; done.
Qed.

Lemma test_exec line caps :
  exec ngroups regex line = Some caps → regex_test (Some line) = true.
Proof.
  intros Hexec. unfold regex_test, test, argText. cbn [default id]. by rewrite Hexec.
Qed.

(** The pattern accepts the line of a frame, and the constructor makes the
    frame of it. *)
Lemma new_v8Frame large level indent f :
  indent ≠ "" → allSpace indent = true → isPlainFrame f →
  regex_test (Some (v8Line indent f)) = true ∧
  new large (Some (v8Line indent f)) level = Normal (frameAt large level f).
Proof.
  intros Hne Hindent Hf. pose proof (trim_v8Line indent f Hindent Hf) as Htrim.
  destruct f as [method file n c|file n c].
  - destruct Hf as ((Hne0 & Hm & Hmethod) & (Hne1 & Hfile & Hfile') & Hbound).
    destruct (decimal_numeral n) as [Hne2 Hln]. destruct (decimal_numeral c) as [Hne3 Hcol].
    pose proof (parseInt_decimal n Hbound) as Hparse.
    pose proof (integralText_decimal large n Hbound) as Htext.
    unfold frameAt. cbn [lineNumberOf methodOf fileOf]. unfold v8Line, v8Body in Htrim |- *.
    set (ln := decimal n) in *. set (col := decimal c) in *.
    rewrite <- Hparse in Htext |- *. clearbody ln col.
    set (body := "at " +:+ method +:+ " (" +:+ locationText file ln col ")") in *.
    assert (allChars isDot (" " +:+ method) = true) as Hm' by done.
    pose proof (exec_named indent method file ln col Hne Hindent Hm Hne1 Hfile Hne2 Hln
                  Hne3 Hcol) as Hexec.
    fold body in Hexec.
    split; [by apply (test_exec _ _ Hexec)|].
    unfold new. rewrite Hexec, Htrim. cbv zeta.
    unfold group, locationCaptures.
    cbn [lookup list_lookup insert list_insert replicate].
    set (line := indent +:+ body).
    assert (String.substring (S (S (String.length indent)))
              (S (S (String.length indent)) + String.length (" " +:+ method)
               - S (S (String.length indent))) line = " " +:+ method) as ->.
    { unfold line, body.
      change ("at " +:+ method +:+ " (" +:+ locationText file ln col ")")
        with ("at" +:+ (" " +:+ method) +:+ " (" +:+ locationText file ln col ")").
      rewrite <- (append_assoc indent "at").
      apply substring_middle; [by rewrite length_append; cbn; lia|lia]. }
    match goal with
    | |- context [Util.trim (Some (String.substring ?a ?n line))] =>
        assert (String.substring a n line = file) as ->
    end.
    { unfold line, body, locationText.
      change ("at " +:+ method +:+ " (" +:+ ?x) with ("at" +:+ (" " +:+ method) +:+ " (" +:+ x).
      rewrite <- (append_assoc indent "at"), <- (append_assoc (indent +:+ "at")).
      rewrite <- (append_assoc _ " (").
      apply substring_middle; [rewrite !length_append; cbn; lia|lia]. }
    match goal with
    | |- context [JsNumber.parseInt (String.substring ?a ?n line)] =>
        assert (String.substring a n line = ln) as ->
    end.
    { unfold line, body, locationText.
      change ("at " +:+ method +:+ " (" +:+ ?x) with ("at" +:+ (" " +:+ method) +:+ " (" +:+ x).
      rewrite <- (append_assoc indent "at"), <- (append_assoc (indent +:+ "at")).
      rewrite <- (append_assoc _ " ("), <- (append_assoc _ file), <- (append_assoc _ ":").
      apply substring_middle; [rewrite !length_append; cbn; lia|lia]. }
    assert (Util.trim (Some (" " +:+ method)) = method) as ->.
    { unfold Util.trim. cbn [String.append trimStart]. change (isSpace " ") with true. cbv iota.
      by apply (trim_trimmed method). }
    rewrite (trim_trimmed file Hfile').
    unfold orElse. destruct method as [|? ?]; [done|]. destruct file as [|? ?]; [done|].
    cbn [isEmpty]. by rewrite Htext, Z.add_0_l.
  - destruct Hf as ((Hne1 & Hfile & Hfile') & Hbound).
    destruct (decimal_numeral n) as [Hne2 Hln]. destruct (decimal_numeral c) as [Hne3 Hcol].
    pose proof (parseInt_decimal n Hbound) as Hparse.
    pose proof (integralText_decimal large n Hbound) as Htext.
    unfold frameAt. cbn [lineNumberOf methodOf fileOf]. unfold v8Line, v8Body in Htrim |- *.
    set (ln := decimal n) in *. set (col := decimal c) in *.
    rewrite <- Hparse in Htext |- *. clearbody ln col.
    set (body := "at " +:+ locationText file ln col "") in *.
    pose proof (exec_anonymous indent file ln col Hne Hindent Hne1 Hfile Hne2 Hln
                  Hne3 Hcol) as Hexec.
    fold body in Hexec.
    split; [by apply (test_exec _ _ Hexec)|].
    unfold new. rewrite Hexec, Htrim. cbv zeta.
    unfold group, locationCaptures.
    cbn [lookup list_lookup insert list_insert replicate].
    set (line := indent +:+ body).
    rewrite Nat.sub_diag.
    assert (String.substring (S (S (String.length indent))) 0 line = "") as ->.
    { apply substring_empty. }
    match goal with
    | |- context [Util.trim (Some (String.substring ?a ?n line))] =>
        assert (String.substring a n line = file) as ->
    end.
    { unfold line, body, locationText.
      change ("at " +:+ ?x) with ("at " +:+ "" +:+ x).
      rewrite <- (append_assoc indent "at ").
      etrans; [|apply (substring_middle (indent +:+ "at ") file
                         (":" +:+ ln +:+ ":" +:+ col +:+ "")); [|reflexivity]].
      - f_equal. lia.
      - rewrite length_append. cbn. lia. }
    match goal with
    | |- context [JsNumber.parseInt (String.substring ?a ?n line)] =>
        assert (String.substring a n line = ln) as ->
    end.
    { unfold line, body, locationText.
      rewrite <- (append_assoc indent "at "), <- (append_assoc _ file), <- (append_assoc _ ":").
      apply substring_middle; [rewrite !length_append; cbn; lia|lia]. }
    rewrite (trim_trimmed file Hfile').
    unfold Util.trim. cbn [trimStart trimEnd].
    unfold orElse. destruct file as [|? ?]; [done|].
    cbn [isEmpty]. by rewrite Htext, Z.add_0_l.
Qed.

(** X20: take a frame as V8 prints it, named
    ([at method (file:line:column)]) or anonymous ([at file:line:column]),
    whose file name is plain (no "(", no "@", no line feed, no white space at
    its ends), whose method has no line terminator and no white space at its
    ends, and whose line number is below 2^53. The frame pattern accepts its
    line after an indentation. The constructor reads the method off it, or
    "<no_method>" for an anonymous frame, with the file name and the line
    number; it keeps the line without the indentation as the assembly, sizes
    the frame as 58 and the lengths of the method, the file name, the
    assembly, the level and the line number, and drops the column. *)
Theorem new_v8Line large (level : Z) indent f :
  indent ≠ "" → allSpace indent = true → isPlainFrame f →
  regex_test (Some (v8Line indent f)) = true ∧
  ∃ frame,
    new large (Some (v8Line indent f)) level = Normal frame ∧
    StackFrame.level frame = level ∧
    method frame = match f with
                   | NamedFrame method _ _ _ => method
                   | AnonymousFrame _ _ _ => "<no_method>"
                   end ∧
    fileName frame = fileOf f ∧
    line frame = JsNumber.IInt (Z.of_N (lineNumberOf f)) ∧
    assembly frame = v8Body f ∧
    sizeInBytes frame
    = len (method frame) + len (fileName frame) + len (assembly frame) + 58
      + len (JsNumber.toText large level) + len (decimal (lineNumberOf f)).
Proof.
  intros Hne Hindent Hf.
  destruct (new_v8Frame large level indent f Hne Hindent Hf) as [Htest Hnew].
  split; [done|]. exists (frameAt large level f). split; [done|].
  by destruct f.
Qed.

(** The theorem of X20 on the line of a frame of [Object.foo] at level 3. *)
Lemma new_v8Line_witness :
  regex_test (Some "    at Object.foo (/app/index.js:10:5)") = true ∧
  ∃ frame,
    new (fun _ => "") (Some "    at Object.foo (/app/index.js:10:5)") 3 = Normal frame ∧
    StackFrame.level frame = 3 ∧
    method frame = "Object.foo" ∧
    fileName frame = "/app/index.js" ∧
    line frame = JsNumber.IInt 10 ∧
    assembly frame = "at Object.foo (/app/index.js:10:5)" ∧
    sizeInBytes frame = 10 + 13 + 34 + 58 + 1 + 2.
Proof.
  destruct (new_v8Line (fun _ => "") 3 "    " (NamedFrame "Object.foo" "/app/index.js" 10 5))
    as (Htest & frame & Hnew & Hlevel & Hmethod & Hfile & Hline & Hassembly & Hsize);
    [done|done|repeat split; done|].
  split; [exact Htest|]. exists frame. rewrite Hsize, Hmethod, Hfile, Hassembly.
  split; [exact Hnew|]. split; [exact Hlevel|]. split; [done|]. split; [done|].
  split; [exact Hline|]. split; done.
Defined.

(** The frames the constructor makes of a named and of an anonymous line,
    and of a line whose file is under a scoped package: there the pattern
    takes the "@" for the separator, so that the method runs up to it and
    the file name starts after it. *)
Example new_v8Line_examples :
  new (fun _ => "") (Some "    at Object.foo (/app/index.js:10:5)") 3
  = Normal {| level := 3; method := "Object.foo";
              assembly := "at Object.foo (/app/index.js:10:5)";
              fileName := "/app/index.js"; line := JsNumber.IInt 10; sizeInBytes := 118 |} ∧
  new (fun _ => "") (Some "    at /app/lib/b.js:7:1") 0
  = Normal {| level := 0; method := "<no_method>"; assembly := "at /app/lib/b.js:7:1";
              fileName := "/app/lib/b.js"; line := JsNumber.IInt 7; sizeInBytes := 104 |} ∧
  (isPlainFileName "/app/node_modules/@azure/core/index.js" → False) ∧
  new (fun _ => "") (Some "    at foo (/app/node_modules/@azure/core/index.js:10:5)") 0
  = Normal {| level := 0; method := "foo (/app/node_modules/";
              assembly := "at foo (/app/node_modules/@azure/core/index.js:10:5)";
              fileName := "azure/core/index.js"; line := JsNumber.IInt 10;
              sizeInBytes := 155 |}.
Proof.
  split; [|split; [|split]].
  - apply (new_v8Frame (fun _ => "") 3 "    " (NamedFrame "Object.foo" "/app/index.js" 10 5));
      [done|done|]. repeat split; done.
  - apply (new_v8Frame (fun _ => "") 0 "    " (AnonymousFrame "/app/lib/b.js" 7 1));
      [done|done|]. repeat split; done.
  - by intros (_ & Hchars & _).
  - by vm_compute.
Qed.
End FrameFacts.

(** ** parseStack on a V8 stack trace *)

Module StackTraceFacts.
Import JsString EnvelopeFactory Vocabulary CookieVocabulary StackVocabulary FrameVocabulary.
Import CorrelationFacts StackFacts ParseFacts FrameFacts.

(** Joining lines without line feeds and splitting again gives the lines
    back, after those of the header. *)
Lemma split_join_lines header lines :
  Forall (fun line => contains StackFrame.LF line = false) lines →
  split StackFrame.LF (join (String StackFrame.LF "") (header :: lines))
  = split StackFrame.LF header ++ lines.
Proof.
  revert header. induction lines as [|line lines IH]; intros header Hlines.
  - cbn [join]. by rewrite app_nil_r.
  - apply Forall_cons in Hlines as [Hline Hlines].
    change (join (String StackFrame.LF "") (header :: line :: lines))
      with (header +:+ String StackFrame.LF "" +:+ join (String StackFrame.LF "") (line :: lines)).
    change (String StackFrame.LF "" +:+ ?x) with (String StackFrame.LF x).
    rewrite split_app, (IH line Hlines), (split_no_sep _ line Hline). done.
Qed.

Lemma v8Line_no_LF indent f :
  isIndent indent → isPlainFrame f → contains StackFrame.LF (v8Line indent f) = false.
Proof.
  intros (_ & _ & Hindent) Hf. unfold v8Line. rewrite contains_app, Hindent.
  assert (∀ s, allChars isDigit s = true → contains StackFrame.LF s = false) as Hdigits.
  { intros s. by apply contains_allChars. }
  assert (∀ s, allChars StackFrame.isLocationChar s = true → contains StackFrame.LF s = false)
    as Hloc.
  { intros s. by apply contains_allChars. }
  assert (∀ s, allChars isDot s = true → contains StackFrame.LF s = false) as Hdot.
  { intros s. by apply contains_allChars. }
  destruct f as [method file ln col|file ln col]; unfold v8Body, locationText;
    rewrite !contains_app.
  - destruct Hf as ((_ & Hm & _) & (_ & Hfile & _) & _).
    destruct (decimal_numeral ln) as [_ Hln]. destruct (decimal_numeral col) as [_ Hcol].
    by rewrite (Hdot _ Hm), (Hloc _ Hfile), (Hdigits _ Hln), (Hdigits _ Hcol).
  - destruct Hf as ((_ & Hfile & _) & _).
    destruct (decimal_numeral ln) as [_ Hln]. destruct (decimal_numeral col) as [_ Hcol].
    by rewrite (Hloc _ Hfile), (Hdigits _ Hln), (Hdigits _ Hcol).
Qed.

Section Trace.
Variable largeNumberText : Z → string.

Abbreviation goodFrames :=
  (Forall (fun p : string * v8Frame => isIndent p.1 ∧ isPlainFrame p.2)).

Lemma frameLines_v8Trace header frames :
  frameLines header = [] → goodFrames frames →
  frameLines (v8Trace header frames) = (fun p => v8Line p.1 p.2) <$> frames.
Proof.
  intros Hheader Hframes. unfold frameLines, v8Trace in *.
  rewrite split_join_lines.
  - rewrite List.filter_app, Hheader. cbn [app].
    induction Hframes as [|[indent f] frames [(Hne & Hspace & _) Hf] _ IH]; [done|].
    cbn [fmap list_fmap List.filter fst snd].
    destruct (new_v8Frame largeNumberText 0 indent f Hne Hspace Hf) as [-> _].
    f_equal. apply IH.
  - induction Hframes as [|[indent f] frames [Hindent Hf] _ IH]; [done|].
    cbn [fmap list_fmap]. apply Forall_cons. split; [by apply v8Line_no_LF|done].
Qed.

(** The parsing loop reads the frames off a trace. *)
Lemma parseFrames_v8Trace header frames :
  frameLines header = [] → goodFrames frames →
  let parsed := imap (fun i p => frameAt largeNumberText (Z.of_nat i) p.2) frames in
  parseFrames largeNumberText (map Some (split StackFrame.LF (v8Trace header frames)) ++ [None])
    0 0 []
  = Normal (parsed, totalSize parsed).
Proof.
  intros Hheader Hframes parsed.
  destruct (parseFrames_frames largeNumberText (split StackFrame.LF (v8Trace header frames)) 0 0 [])
    as (added & Hadded & Hlen & Hall).
  fold (frameLines (v8Trace header frames)) in Hlen, Hall.
  rewrite (frameLines_v8Trace header frames Hheader Hframes) in Hlen, Hall.
  assert (added = parsed) as ->; [|by rewrite Hadded, Z.add_0_l].
  apply list_eq. intros i. unfold parsed. rewrite list_lookup_imap.
  rewrite length_fmap in Hlen.
  destruct (frames !! i) as [[indent f]|] eqn:Hi; cbn.
  - destruct (Hall i (v8Line indent f)) as (frame & -> & Hnew).
    { by rewrite list_lookup_fmap, Hi. }
    rewrite Z.add_0_l in Hnew.
    rewrite Forall_lookup in Hframes. destruct (Hframes i _ Hi) as [(Hne & Hspace & _) Hf].
    destruct (new_v8Frame largeNumberText (Z.of_nat i) indent f Hne Hspace Hf) as [_ Hnew'].
    cbn [fst snd] in *. congruence.
  - apply lookup_ge_None. apply lookup_ge_None in Hi. lia.
Qed.

(** X21: [parseStack] reads a stack trace, a header of which no line passes
    the frame pattern and then one indented line for each frame, the frames
    being as in X20 (plain file names, line numbers below 2^53), into the
    frames of its lines, numbered from 0. The result is that list when its
    size is within the threshold, and its truncation otherwise. *)
Theorem parseStack_v8Trace header frames :
  frameLines header = [] → goodFrames frames →
  let parsed := imap (fun i p => frameAt largeNumberText (Z.of_nat i) p.2) frames in
  ∃ r,
    parseStack largeNumberText (Some (v8Trace header frames)) = Normal (Some r) ∧
    (totalSize parsed ≤ exceptionParsedStackThreshold → r = parsed) ∧
    (exceptionParsedStackThreshold < totalSize parsed → truncate parsed = Normal r).
Proof.
  intros Hheader Hframes parsed.
  unfold parseStack. rewrite (parseFrames_v8Trace header frames Hheader Hframes), bind_Normal.
  fold parsed.
  destruct (Z.gtb_spec (totalSize parsed) exceptionParsedStackThreshold) as [Hover|Hfit].
  - destruct (truncate_spec parsed) as (r & Hr & _). rewrite Hr, bind_Normal.
    exists r. split; [done|]. split; [lia|done].
  - exists parsed. split; [done|]. split; [done|lia].
Qed.
End Trace.

(** The theorem of X21 on the trace of an error raised in [foo]: three
    frames, within the threshold. *)
Lemma parseStack_v8Trace_witness :
  let frames :=
    [ ("    ", NamedFrame "foo" "/app/lib/a.js" 10 5);
      ("    ", AnonymousFrame "/app/lib/b.js" 7 1);
      ("    ", NamedFrame "Object.<anonymous>" "c.js" 123 45) ] in
  v8Trace "Error: boom" frames = Examples.sampleStack ∧
  parseStack (fun _ => "") (Some Examples.sampleStack)
  = Normal (Some [ frameAt (fun _ => "") 0 (NamedFrame "foo" "/app/lib/a.js" 10 5);
                   frameAt (fun _ => "") 1 (AnonymousFrame "/app/lib/b.js" 7 1);
                   frameAt (fun _ => "") 2 (NamedFrame "Object.<anonymous>" "c.js" 123 45) ]).
Proof.
  intros frames. split; [reflexivity|].
  destruct (parseStack_v8Trace (fun _ => "") "Error: boom" frames) as (r & Hr & Hfit & _).
  - by vm_compute.
  - repeat (apply Forall_cons; split; [by repeat split|]). by apply Forall_nil.
  - rewrite Hfit in Hr by by vm_compute. exact Hr.
Defined.
End StackTraceFacts.

(** ** createEnvelope on an exception item *)

Module ExceptionFacts.
Import JsNumber JsValue Store Contracts EnvelopeFactory Util Vocabulary.
Import StackVocabulary FrameVocabulary StackFacts StackTraceFacts AssemblyFacts.

Section Exception.
Variable decl : Declarations.
Variable largeNumberText : Z → string.
Variable numberText : number → string.
Variable JSON_stringify : value → completion (option string).
Variable getCurrentContext : option CorrelationContext.t.
Variable now : string.

Abbreviation DT := (dataTypes decl).
Abbreviation create :=
  (createEnvelope decl largeNumberText numberText JSON_stringify getCurrentContext now).

(** X22: for an exception item whose error has such a trace as its stack
    (frames with plain file names and line numbers below 2^53), the envelope
    that [createEnvelope] returns carries one exception detail, with the
    message and the name of the error, the frames of the trace (or their
    truncation beyond the threshold), and [hasFullStack] set exactly when
    frames remain. *)
Theorem createEnvelope_exception_stack
    telemetry exception header frames commonProperties context config σ envelope σ' :
  NoDup (recognized decl) →
  Telemetry.exception telemetry = Some exception →
  Telemetry.err_stack exception = Some (v8Trace header frames) →
  frameLines header = [] →
  Forall (fun p : string * v8Frame => isIndent p.1 ∧ isPlainFrame p.2) frames →
  create telemetry (EXCEPTION DT) commonProperties context config σ = Normal (envelope, σ') →
  let parsed := imap (fun i p => frameAt largeNumberText (Z.of_nat i) p.2) frames in
  ∃ r props,
    baseData (data envelope)
    = ExceptionData (SeverityLevel_Error decl) (Telemetry.measurements telemetry)
        [{| ed_message := Telemetry.err_message exception;
            ed_typeName := Telemetry.err_name exception;
            ed_parsedStack := Some r;
            ed_hasFullStack := bool_decide (r ≠ []) |}]
        props ∧
    (totalSize parsed ≤ exceptionParsedStackThreshold → r = parsed) ∧
    (exceptionParsedStackThreshold < totalSize parsed → truncate parsed = Normal r).
Proof.
  intros Hnodup Hexception Hstack Hheader Hframes Hcreate parsed.
  assert (∃ r, parseStack largeNumberText (Some (v8Trace header frames)) = Normal (Some r) ∧
               (totalSize parsed ≤ exceptionParsedStackThreshold → r = parsed) ∧
               (exceptionParsedStackThreshold < totalSize parsed → truncate parsed = Normal r))
    as (r & Hparse & Hfit & Hover).
  { unfold parseStack.
    rewrite (parseFrames_v8Trace largeNumberText header frames Hheader Hframes), bind_Normal.
    fold parsed.
    destruct (Z.gtb_spec (totalSize parsed) exceptionParsedStackThreshold) as [Hover|Hfit].
    - destruct (truncate_spec parsed) as (r & Hr & _). rewrite Hr, bind_Normal.
      exists r. split; [done|]. split; [lia|done].
    - exists parsed. split; [done|]. split; [done|lia]. }
  exists r.
  assert ((0 <? length r)%nat = bool_decide (r ≠ [])) as Hfull by by destruct r.
  enough (∃ props,
            baseData (data envelope)
            = ExceptionData (SeverityLevel_Error decl) (Telemetry.measurements telemetry)
                [{| ed_message := Telemetry.err_message exception;
                    ed_typeName := Telemetry.err_name exception;
                    ed_parsedStack := Some r;
                    ed_hasFullStack := bool_decide (r ≠ []) |}] props)
    as [props Hprops] by by exists props.
  revert Hcreate. unfold createEnvelope.
  rewrite (convert_exception decl largeNumberText telemetry Hnodup).
  unfold createExceptionData. rewrite Hexception, Hstack, Hparse.
  cbn [mbind completion_bind fmap completion_fmap]. rewrite Hfull.
  assert (∀ d : Data,
            assembleEnvelope getCurrentContext now telemetry (Some d) context config σ
            = Normal (envelope, σ') →
            data envelope = d) as Hassemble.
  { intros d. unfold assembleEnvelope.
    destruct (getTags _ _ _ _) as [[tags σ'']|e]; [|done].
    cbn [mbind completion_bind]. by intros [= <- <-]. }
  destruct commonProperties as [common|].
  - cbn [baseData].
    destruct (domainSupportsProperties decl _).
    + unfold applyCommonProperties.
      destruct (validateStringMap _ _ _) as [sanitized|e]; [|done].
      cbn [mbind completion_bind fmap completion_fmap baseData setProperties].
      intros ->%Hassemble. by eexists.
    + cbn [mbind completion_bind]. intros ->%Hassemble. by eexists.
  - cbn [mbind completion_bind]. intros ->%Hassemble. by eexists.
Qed.
End Exception.

(** The theorem of X22 on an item that carries the error of
    [Examples.sampleStack]. *)
Lemma createEnvelope_exception_stack_witness :
  let exception :=
    {| Telemetry.err_stack := Some Examples.sampleStack;
       Telemetry.err_message := VString "boom";
       Telemetry.err_name := VString "Error" |} in
  let telemetry :=
    {| Telemetry.tagOverrides := None; Telemetry.properties := None;
       Telemetry.message := VUndefined; Telemetry.severity := None;
       Telemetry.name := VUndefined; Telemetry.data := VUndefined;
       Telemetry.target := VUndefined; Telemetry.duration := NaN;
       Telemetry.success := VUndefined; Telemetry.dependencyTypeName := VUndefined;
       Telemetry.dependencyId := VUndefined; Telemetry.measurements := VUndefined;
       Telemetry.exception := Some exception; Telemetry.id := VUndefined;
       Telemetry.url := VUndefined; Telemetry.source := VUndefined;
       Telemetry.resultCode := VUndefined; Telemetry.count := None;
       Telemetry.max := None; Telemetry.min := None; Telemetry.stdDev := None;
       Telemetry.value := NaN |} in
  let frames :=
    [ ("    ", NamedFrame "foo" "/app/lib/a.js" 10 5);
      ("    ", AnonymousFrame "/app/lib/b.js" 7 1);
      ("    ", NamedFrame "Object.<anonymous>" "c.js" 123 45) ] in
  ∃ envelope σ' props,
    createEnvelope Examples.declarations (fun _ => "") (fun _ => "") (fun _ => Normal None)
      None "2020-01-01T00:00:00.000Z" telemetry "ExceptionData" None None
      (Some Examples.config) ∅
    = Normal (envelope, σ') ∧
    baseData (data envelope)
    = ExceptionData (ofZ 3) VUndefined
        [{| ed_message := VString "boom";
            ed_typeName := VString "Error";
            ed_parsedStack :=
              Some [ frameAt (fun _ => "") 0 (NamedFrame "foo" "/app/lib/a.js" 10 5);
                     frameAt (fun _ => "") 1 (AnonymousFrame "/app/lib/b.js" 7 1);
                     frameAt (fun _ => "") 2 (NamedFrame "Object.<anonymous>" "c.js" 123 45) ];
            ed_hasFullStack := true |}]
        props.
Proof.
  intros exception telemetry frames.
  destruct (createEnvelope Examples.declarations (fun _ => "") (fun _ => "")
              (fun _ => Normal None) None "2020-01-01T00:00:00.000Z" telemetry
              "ExceptionData" None None (Some Examples.config) ∅)
    as [[envelope σ']|e] eqn:Hcreate; [|by vm_compute in Hcreate].
  destruct (createEnvelope_exception_stack Examples.declarations (fun _ => "") (fun _ => "")
              (fun _ => Normal None) None "2020-01-01T00:00:00.000Z" telemetry exception
              "Error: boom" frames None None (Some Examples.config) ∅ envelope σ')
    as (r & props & Hbase & Hfit & _).
  - apply (bool_decide_unpack _). vm_compute. reflexivity.
  - reflexivity.
  - reflexivity.
  - by vm_compute.
  - repeat (apply Forall_cons; split; [by repeat split|]). by apply Forall_nil.
  - exact Hcreate.
  - exists envelope, σ', props. split; [done|].
    rewrite Hfit in Hbase by by vm_compute. exact Hbase.
Defined.
End ExceptionFacts.
